(** * codesearch: the result ranker and the sync reconciler

    A shallow embedding of the decision logic of the codesearch CLI
    (packages [models], [client], [db], [sync], [search] and [file])
    together with the properties of its ranking and reconciliation
    algorithms.

    Conventions of the embedding:
    - Go [float64] is Rocq's primitive binary64 [float]; comparisons and
      arithmetic are the IEEE ones ([PrimFloat.leb], [PrimFloat.sub], ...).
    - Go [int] and [int64] are [Z]; slice lengths and loop indices that the
      code keeps within [0, len] are [nat].
    - A Go call that returns [(T, error)] returns an [outcome T]; a runtime
      panic (nil dereference, slice bounds) is the third constructor.
    - [map[string]bool] is [gmap string bool]; a missing key reads [false].
    - The SQLite store is a record of its tables; statements run against it
      through a small state-and-error monad over the [World].
    - Lines written with package log are kept in the [World]; what is
      printed to standard output (progress, the closing message) is not.
    - The walk of [file.RecursiveFiles] is given the calls that
      [filepath.Walk] makes; the cobra commands and [search.ParseConfig]
      are left out. *)

From Stdlib Require Import Floats ZArith String Ascii List Bool Lia.
From stdpp Require Import base option list gmap strings sorting pretty.

Set Warnings "-inexact-float".
Local Open Scope Z_scope.

(** ** Results of Go calls *)

(** A Go [error] value: [errors.New]/[fmt.Errorf] without a cause, or
    [fmt.Errorf("...: %w", err)] wrapping one. *)
Inductive error : Type :=
| errors_New (msg : string)
| Errorf (msg : string) (cause : error).

#[global] Instance error_eq_dec : EqDecision error.
Proof. solve_decision. Defined.

(** [err.Error()] *)
Fixpoint Error (e : error) : string :=
  match e with
  | errors_New msg => msg
  | Errorf msg cause => msg +:+ ": " +:+ Error cause
  end.

Inductive outcome (A : Type) : Type :=
| Ok (a : A)
| Err (e : error)
| Panic (msg : string).
Arguments Ok {A} a.
Arguments Err {A} e.
Arguments Panic {A} msg.

Definition is_Ok {A} (o : outcome A) : bool :=
  match o with Ok _ => true | _ => false end.

(** [s[:n]] on a slice: Go panics when [n] is negative or beyond the
    capacity; every use below has [n <= len s], so capacity is [len]. *)
Definition slice_to {A} (s : list A) (n : Z) : outcome (list A) :=
  if (n <? 0) || (Z.of_nat (length s) <? n)
  then Panic "slice bounds out of range"
  else Ok (take (Z.to_nat n) s).

(** ** Package models *)
Module models.

Record EmbeddingUsage : Type := mkEmbeddingUsage {
  PromptTokens : Z;
  TotalTokens : Z
}.

(** [type Embedding []float64] *)
Definition Embedding : Type := list float.

Record EmbeddingData : Type := mkEmbeddingData {
  Object : string;
  DataEmbedding : Embedding;      (* field [Embedding] *)
  Index : Z
}.

Record EmbeddingResponse : Type := mkEmbeddingResponse {
  ResponseObject : string;        (* field [Object] *)
  Embeddings : list Embedding;    (* ollama response *)
  Data : list EmbeddingData;      (* litellm response *)
  Model : string;
  Usage : EmbeddingUsage
}.

Record EmbeddingRequest : Type := mkEmbeddingRequest {
  RequestModel : string;          (* field [Model] *)
  Input : string
}.

(** [GetEmbeddings] returns a [*Embedding]; [None] is the nil pointer. *)
Definition GetEmbeddings (er : EmbeddingResponse) : option Embedding :=
  match Embeddings er with
  | e :: _ => Some e
  | [] =>
      match Data er with
      | d :: _ => Some (DataEmbedding d)
      | [] => None
      end
  end.

(** Narrowing of one component to float32, kept in a binary64 carrier:
    round to 24 bits of precision with the binary32 exponent range. *)
Definition float32 (v : float) : float :=
  match Prim2SF v with
  | S754_finite s m e =>
      match binary_normalize 24 128 (if s then Zneg m else Zpos m) e s with
      | S754_finite s' m' e' =>
          SF2Prim (binary_normalize 53 1024 (if s' then Zneg m' else Zpos m') e' s')
      | other => SF2Prim other
      end
  | _ => v
  end.

(** [func (e *Embedding) Float32() []float32]: the length of the pointee
    is read first, so a nil receiver panics. *)
Definition Float32 (e : option Embedding) : outcome (list float) :=
  match e with
  | None => Panic "invalid memory address or nil pointer dereference"
  | Some v => Ok (map float32 v)
  end.

Record Project : Type := mkProject {
  Alias : string;
  Path : string;
  Client : string;
  ProjectModel : string;          (* field [Model] *)
  Extensions : list string
}.

(** [type File struct { ID int64; File string; CreatedAt time.Time }];
    the field [File] is [FilePath] here, timestamps are seconds. *)
Record File : Type := mkFile {
  ID : Z;
  FilePath : string;
  CreatedAt : nat
}.

#[global] Instance File_eq_dec : EqDecision File.
Proof. solve_decision. Defined.

End models.

(** ** The functions of Go's strings and path/filepath the code calls *)
Module strings.

(** [strings.Join(elems, sep)] *)
Fixpoint Join (elems : list string) (sep : string) : string :=
  match elems with
  | [] => EmptyString
  | e :: rest =>
      match rest with
      | [] => e
      | _ :: _ => e +:+ sep +:+ Join rest sep
      end
  end.

(** [strings.Split(s, sep)] for a separator of one byte, the only kind
    the code passes: one field more than there are separators. *)
Fixpoint Split (s : string) (sep : ascii) : list string :=
  match s with
  | EmptyString => [EmptyString]
  | String c rest =>
      if Ascii.eqb c sep then EmptyString :: Split rest sep
      else
        match Split rest sep with
        | field :: fields => String c field :: fields
        | [] => [String c EmptyString]
        end
  end.

(** [strings.HasPrefix(s, prefix)] *)
Fixpoint HasPrefix (s prefix : string) : bool :=
  match prefix, s with
  | EmptyString, _ => true
  | String c prefix', String d s' => Ascii.eqb c d && HasPrefix s' prefix'
  | String _ _, EmptyString => false
  end.

End strings.

Module filepath.

(** The suffix of [s] that starts at the last [c], when there is one. *)
Fixpoint from_last (c : ascii) (s : string) : option string :=
  match s with
  | EmptyString => None
  | String d rest =>
      match from_last c rest with
      | Some suffix => Some suffix
      | None => if Ascii.eqb d c then Some s else None
      end
  end.

(** [filepath.Ext(path)] on a system whose separator is the slash: the
    suffix beginning at the final dot of the final element, empty when
    that element has no dot. *)
Definition Ext (path : string) : string :=
  let element :=
    match from_last "/" path with
    | Some (String _ rest) => rest
    | _ => path
    end in
  match from_last "." element with
  | Some suffix => suffix
  | None => EmptyString
  end.

End filepath.

(** ** The environment of a run

    Everything the program reads from outside itself: the SQLite engine's
    I/O failures and clock, the embedding provider, the file system and the
    vec0 nearest-neighbour query.  Statements and provider calls are
    numbered in the order the process issues them, so that a retry of the
    same request may meet a different answer. *)
Record Env : Type := mkEnv {
  (** the n-th SQL statement fails inside the engine (disk, lock, ...) *)
  io_fault : nat -> bool;
  (** CURRENT_TIMESTAMP, in seconds, when the n-th statement runs *)
  now : nat -> nat;
  (** the n-th HTTP exchange of [client.Embeddings]: url path and request *)
  http_post : nat -> string -> models.EmbeddingRequest -> error + models.EmbeddingResponse;
  (** [os.ReadFile] *)
  os_ReadFile : string -> error + string;
  (** [file.RecursiveFiles]: the walk of the project tree *)
  file_RecursiveFiles : string -> list string -> error + list string;
  (** [filepath.Join] of two elements *)
  filepath_Join : string -> string -> string;
  (** rows [(id, file, distance)] of the KNN query when it is the n-th
      statement, ascending by distance *)
  knn_query : nat -> list float -> Z -> error + list (Z * string * float)
}.

(** ** The store and the process *)

(** The tables of one project database.  [files] is in rowid order;
    [sqlite_sequence] is the largest rowid [files] ever held
    (AUTOINCREMENT); [dimensions] is the width the vec0 table was created
    with.  The [extensions] column is kept as the list it is split into. *)
Record Store : Type := mkStore {
  files : list models.File;
  context_vectors : list (Z * list float);
  sqlite_sequence : Z;
  dimensions : nat;
  projects : gmap string models.Project
}.

(** The process and what it has done so far. *)
Record World : Type := mkWorld {
  w_db : Store;
  w_stmts : nat;                  (* SQL statements issued *)
  w_calls : nat;                  (* provider exchanges made *)
  w_log : list string             (* lines written with package log *)
}.

Definition M (A : Type) : Type := World -> outcome A * World.

Definition ret {A} (a : A) : M A := fun w => (Ok a, w).
Definition fail {A} (e : error) : M A := fun w => (Err e, w).
Definition bind {A B} (c : M A) (k : A -> M B) : M B := fun w =>
  match c w with
  | (Ok a, w') => k a w'
  | (Err e, w') => (Err e, w')
  | (Panic msg, w') => (Panic msg, w')
  end.
Definition lift {A} (o : outcome A) : M A := fun w => (o, w).

(** A [(T, error)] pair handed back by a collaborator. *)
Definition returned {A} (r : error + A) : outcome A :=
  match r with
  | inl e => Err e
  | inr a => Ok a
  end.

(** [v, err := call(); if err != nil { ... }] with a handler that does
    not return the error: the error becomes a value. *)
Definition attempt {A} (c : M A) : M (error + A) := fun w =>
  match c w with
  | (Ok a, w') => (Ok (inr a), w')
  | (Err e, w') => (Ok (inl e), w')
  | (Panic msg, w') => (Panic msg, w')
  end.

(** [return fmt.Errorf("msg: %w", err)] on failure. *)
Definition wrap_err {A} (msg : string) (c : M A) : M A := fun w =>
  match c w with
  | (Err e, w') => (Err (Errorf msg e), w')
  | other => other
  end.

Declare Scope go_scope.
Delimit Scope go_scope with go.
Notation "x <- c ;; k" := (bind c (fun x => k))
  (at level 100, c at next level, right associativity) : go_scope.
Notation "c ;;; k" := (bind c (fun _ => k))
  (at level 100, right associativity) : go_scope.

(** ** Package db *)
Module db.

(** *** search.go: the result ranker *)

Record SearchResult : Type := mkSearchResult {
  ID : Z;
  File : string;
  Distance : float
}.

Record SearchOptions : Type := mkSearchOptions {
  MaxDistance : float;
  MinResults : Z;
  MaxResults : Z;
  UseAdaptive : bool
}.

Definition DefaultSearchOptions : SearchOptions :=
  {| MaxDistance := 0.8; MinResults := 2; MaxResults := 20; UseAdaptive := true |}.

Definition len {A} (l : list A) : Z := Z.of_nat (length l).

(** [results[i].Distance]; the loops below only read valid indices. *)
Definition dist (results : list SearchResult) (i : nat) : float :=
  match results !! i with
  | Some r => Distance r
  | None => 0%float
  end.

(** One iteration of the gap loop of [calculateAdaptiveThreshold]:
    [gap := results[i].Distance - results[i-1].Distance;
     if gap > largestGap { largestGap = gap; gapIndex = i }]. *)
Definition gap_at (results : list SearchResult) (i : nat) : float :=
  PrimFloat.sub (dist results i) (dist results (i - 1)).

Definition gap_step (results : list SearchResult)
    (acc : float * nat) (i : nat) : float * nat :=
  if PrimFloat.ltb (fst acc) (gap_at results i) then (gap_at results i, i) else acc.

(** [for i := 1; i < len(results) && i < 20; i++]: the indices visited. *)
Definition gap_indices (results : list SearchResult) : list nat :=
  seq 1 (Nat.min (length results) 20 - 1).

Definition largest_gap (results : list SearchResult) : float * nat :=
  foldl (gap_step results) (0%float, 0%nat) (gap_indices results).

Definition calculateAdaptiveThreshold
    (results : list SearchResult) (maxThreshold : float) : float :=
  if (length results <=? 1)%nat then maxThreshold
  else
    let '(largestGap, gapIndex) := largest_gap results in
    if PrimFloat.ltb 0.05 largestGap && (0 <? gapIndex)%nat then
      let adaptiveThreshold :=
        PrimFloat.add (dist results (gapIndex - 1)) (PrimFloat.div largestGap 2) in
      if PrimFloat.ltb adaptiveThreshold maxThreshold
      then adaptiveThreshold
      else maxThreshold
    else maxThreshold.

(** The filtering loop shared by both branches of [filterByDistance]:
    [if result.Distance <= threshold && len(filtered) < opts.MaxResults
     { filtered = append(filtered, result) }]. *)
Fixpoint keep_within (threshold : float) (maxResults : Z)
    (filtered results : list SearchResult) : list SearchResult :=
  match results with
  | [] => filtered
  | result :: rest =>
      if PrimFloat.leb (Distance result) threshold && (len filtered <? maxResults)
      then keep_within threshold maxResults (filtered ++ [result]) rest
      else keep_within threshold maxResults filtered rest
  end.

(** [filtered] after the adaptive or the simple filtering loop. *)
Definition filtered_of (results : list SearchResult) (opts : SearchOptions)
    : list SearchResult :=
  if UseAdaptive opts then
    let threshold := calculateAdaptiveThreshold results (MaxDistance opts) in
    keep_within threshold (MaxResults opts) [] results
  else
    keep_within (MaxDistance opts) (MaxResults opts) [] results.

(** [minCount] of the floor branch. *)
Definition minCount_of (results : list SearchResult) (opts : SearchOptions) : Z :=
  let minCount := MinResults opts in
  let minCount := if len results <? minCount then len results else minCount in
  if MaxResults opts <? minCount then MaxResults opts else minCount.

Definition filterByDistance (results : list SearchResult) (opts : SearchOptions)
    : outcome (list SearchResult) :=
  if (length results =? 0)%nat then Ok results
  else
    let filtered := filtered_of results opts in
    if (len filtered <? MinResults opts) && (0 <? len results)
    then slice_to results (minCount_of results opts)
    else Ok filtered.

(** *** db.go: statements *)

(** [ORDER BY created_at ASC] *)
Definition created_before (a b : models.File) : Prop :=
  (models.CreatedAt a <= models.CreatedAt b)%nat.
#[global] Instance created_before_dec : RelDecision created_before :=
  fun a b => decide (models.CreatedAt a <= models.CreatedAt b)%nat.

Section Statements.
Variable env : Env.

(** One SQL statement.  It takes the next statement number; the engine
    may fail it without effect; otherwise [run], given the current
    timestamp and the tables, yields the result and the new tables. *)
Definition statement {A} (run : nat -> Store -> outcome A * Store) : M A := fun w =>
  let n := w_stmts w in
  if io_fault env n
  then (Err (errors_New "disk I/O error"), mkWorld (w_db w) (S n) (w_calls w) (w_log w))
  else
    let '(r, s) := run (now env n) (w_db w) in
    (r, mkWorld s (S n) (w_calls w) (w_log w)).

Definition max_int64 : Z := 2 ^ 63 - 1.

(** [INSERT INTO files (file) VALUES (?)] and [LastInsertId]: the id is
    one more than the largest ever used, the timestamp is the default. *)
Definition sql_insert_file (file : string) (ts : nat) (s : Store) : outcome Z * Store :=
  if max_int64 <=? sqlite_sequence s
  then (Err (errors_New "database or disk is full"), s)
  else
    let id := sqlite_sequence s + 1 in
    (Ok id, mkStore (files s ++ [models.mkFile id file ts]) (context_vectors s)
                    id (dimensions s) (projects s)).

(** [INSERT INTO context_vectors (rowid, embedding) VALUES (?, vec_f32(?))]:
    vec0 rejects a vector of the wrong width and a rowid already taken. *)
Definition sql_insert_vector (rowid : Z) (embedding : list float)
    (ts : nat) (s : Store) : outcome unit * Store :=
  if negb (length embedding =? dimensions s)%nat
  then (Err (errors_New "Dimension mismatch for inserted vector"), s)
  else if bool_decide (rowid ∈ fst <$> context_vectors s)
  then (Err (errors_New "UNIQUE constraint failed on context_vectors primary key"), s)
  else (Ok tt, mkStore (files s) (context_vectors s ++ [(rowid, embedding)])
                       (sqlite_sequence s) (dimensions s) (projects s)).

(** [DELETE FROM context_vectors WHERE rowid = ?] *)
Definition sql_delete_vector (rowid : Z) (ts : nat) (s : Store) : outcome unit * Store :=
  (Ok tt, mkStore (files s) (filter (fun v => v.1 ≠ rowid) (context_vectors s))
                  (sqlite_sequence s) (dimensions s) (projects s)).

(** [DELETE FROM files WHERE id = ?] *)
Definition sql_delete_file (id : Z) (ts : nat) (s : Store) : outcome unit * Store :=
  (Ok tt, mkStore (filter (fun f => models.ID f ≠ id) (files s)) (context_vectors s)
                  (sqlite_sequence s) (dimensions s) (projects s)).

(** [DELETE FROM files] and [DELETE FROM context_vectors] *)
Definition sql_delete_all_files (ts : nat) (s : Store) : outcome unit * Store :=
  (Ok tt, mkStore [] (context_vectors s) (sqlite_sequence s) (dimensions s) (projects s)).
Definition sql_delete_all_vectors (ts : nat) (s : Store) : outcome unit * Store :=
  (Ok tt, mkStore (files s) [] (sqlite_sequence s) (dimensions s) (projects s)).

(** [SELECT id, file, created_at FROM files ORDER BY created_at ASC];
    rows with equal timestamps come in the order the sort leaves them. *)
Definition sql_select_files (ts : nat) (s : Store) : outcome (list models.File) * Store :=
  (Ok (merge_sort created_before (files s)), s).

(** [SELECT file FROM files] *)
Definition sql_select_paths (ts : nat) (s : Store) : outcome (list string) * Store :=
  (Ok (models.FilePath <$> files s), s).

(** [INSERT INTO projects ... ON CONFLICT(alias) DO UPDATE SET ...] with
    [extensionsStr := strings.Join(project.Extensions, ",")].  The row
    holds the column as [GetProjectByAlias] splits it when it scans the
    row: no extension for the empty column, and the fields between the
    commas otherwise. *)
Definition sql_upsert_project (project : models.Project)
    (ts : nat) (s : Store) : outcome unit * Store :=
  let extensionsStr := strings.Join (models.Extensions project) "," in
  let extensions :=
    if bool_decide (extensionsStr = EmptyString) then []
    else strings.Split extensionsStr "," in
  let row := models.mkProject (models.Alias project) (models.Path project)
               (models.Client project) (models.ProjectModel project) extensions in
  (Ok tt, mkStore (files s) (context_vectors s) (sqlite_sequence s) (dimensions s)
                  (<[models.Alias project := row]> (projects s))).

(** [SELECT ... FROM projects WHERE alias = ?] with [row.Scan] *)
Definition sql_select_project (alias : string)
    (ts : nat) (s : Store) : outcome models.Project * Store :=
  match projects s !! alias with
  | Some project => (Ok project, s)
  | None => (Err (errors_New "sql: no rows in result set"), s)
  end.

(** [CREATE TABLE IF NOT EXISTS ...] and [CREATE VIRTUAL TABLE IF NOT
    EXISTS context_vectors USING vec0(embedding float[dims])] on a
    database whose three tables exist: the statement changes nothing and
    does not look at [dims].  A [Store] is such a database, with the
    width its vector table was created with; the first opening of a new
    file, in which the tables are created, is outside the model. *)
Definition sql_create_if_not_exists (ts : nat) (s : Store) : outcome unit * Store :=
  (Ok tt, s).

(** Transactions.  [Begin] hands out the tables as they are, which is
    what a rollback restores. *)
Definition Begin : M Store := statement (fun _ s => (Ok s, s)).
Definition Commit : M unit := statement (fun _ s => (Ok tt, s)).
Definition Rollback (tx : Store) (w : World) : World :=
  mkWorld tx (S (w_stmts w)) (w_calls w) (w_log w).

(** The rest of a function after [tx, err := db.Begin()] and
    [defer func() { if err != nil { _ = tx.Rollback() } }()].
    A returned error runs the rollback.  A panic leaves [err] nil, the
    process dies with the transaction open and the engine discards it. *)
Definition in_tx {A} (tx : Store) (body : M A) : M A := fun w =>
  match body w with
  | (Ok a, w') => (Ok a, w')
  | (Err e, w') => (Err e, Rollback tx w')
  | (Panic msg, w') => (Panic msg, mkWorld tx (w_stmts w') (w_calls w') (w_log w'))
  end.

(** [sqlite_vec.SerializeFloat32]: the blob stands for the floats it
    encodes; writing to a byte buffer does not fail. *)
Definition SerializeFloat32 (v : list float) : outcome (list float) := Ok v.

End Statements.

(** *** db.go: the exported functions *)

Section Functions.
Variable env : Env.
Local Open Scope go_scope.

Definition ErrNoRows : error := errors_New "sql: no rows in result set".

Definition InitDB (name : string) (dims : Z) : M unit :=
  wrap_err "error creating files table" (statement env sql_create_if_not_exists) ;;;
  wrap_err "error creating projects table" (statement env sql_create_if_not_exists) ;;;
  wrap_err "error creating context_vectors table" (statement env sql_create_if_not_exists).

Definition SaveFileEmbedding (file : string) (embedding : option models.Embedding) : M Z :=
  lastID <- wrap_err "failed to insert err" (statement env (sql_insert_file file)) ;;
  floats <- lift (models.Float32 embedding) ;;
  embeddingBytes <- wrap_err "failed to serialize embedding" (lift (SerializeFloat32 floats)) ;;
  wrap_err "failed to insert into context_vectors"
    (statement env (sql_insert_vector lastID embeddingBytes)) ;;;
  ret lastID.

Definition UpdateFileEmbedding (fileID : Z) (filePath : string)
    (newEmbedding : option models.Embedding) : M unit :=
  tx <- wrap_err "failed to begin transaction" (Begin env) ;;
  in_tx tx (
    wrap_err ("failed to delete vector for fileID " +:+ pretty fileID)
      (statement env (sql_delete_vector fileID)) ;;;
    wrap_err ("failed to delete file record for fileID " +:+ pretty fileID)
      (statement env (sql_delete_file fileID)) ;;;
    newID <- wrap_err "failed to insert new file record"
               (statement env (sql_insert_file filePath)) ;;
    floats <- lift (models.Float32 newEmbedding) ;;
    embeddingBytes <- wrap_err "failed to serialize embedding"
                        (lift (SerializeFloat32 floats)) ;;
    wrap_err "failed to insert new vector"
      (statement env (sql_insert_vector newID embeddingBytes)) ;;;
    wrap_err "failed to commit transaction" (Commit env)).

Definition DeleteFileAndVector (fileID : Z) : M unit :=
  tx <- wrap_err "failed to begin transaction" (Begin env) ;;
  in_tx tx (
    wrap_err ("failed to delete vector for fileID " +:+ pretty fileID)
      (statement env (sql_delete_vector fileID)) ;;;
    wrap_err ("failed to delete file record for fileID " +:+ pretty fileID)
      (statement env (sql_delete_file fileID)) ;;;
    wrap_err "failed to commit transaction" (Commit env)).

Definition DeleteVectorData : M unit :=
  wrap_err "failed to delete from files" (statement env sql_delete_all_files) ;;;
  wrap_err "failed to delete from context_vectors" (statement env sql_delete_all_vectors).

Definition DeleteAll : M unit := DeleteVectorData.

Definition UpsertProject (project : models.Project) : M unit :=
  wrap_err ("failed to upsert project with alias '" +:+ models.Alias project +:+ "'")
    (statement env (sql_upsert_project project)).

(** [sql.ErrNoRows] is handed on as it is, any other error is wrapped. *)
Definition GetProjectByAlias (alias : string) : M models.Project := fun w =>
  match statement env (sql_select_project alias) w with
  | (Err e, w') =>
      if decide (e = ErrNoRows) then (Err e, w')
      else (Err (Errorf ("failed to get project with alias '" +:+ alias +:+ "'") e), w')
  | other => other
  end.

Definition SetupDatabase (projectAlias : string) (dims : Z) : M unit :=
  wrap_err "failed to initialize database" (InitDB projectAlias dims).

Definition GetFilesToSync : M (list models.File) :=
  wrap_err "failed to query files for sync" (statement env sql_select_files).

(** [filePaths[path] = true] for every row. *)
Definition GetProjectFilePaths : M (gmap string bool) :=
  rows <- wrap_err "failed to query files" (statement env sql_select_paths) ;;
  ret (foldl (fun (filePaths : gmap string bool) path => <[path := true]> filePaths) ∅ rows).

(** *** search.go: the queries *)

(** Go [int] arithmetic wraps at 64 bits. *)
Definition wrap64 (z : Z) : Z := (z + 2 ^ 63) `mod` 2 ^ 64 - 2 ^ 63.

(** The KNN [SELECT ... WHERE cv.embedding MATCH vec_f32(?) AND k = ?
    ORDER BY distance ASC], answered by the vector index. *)
Definition knn_statement (embeddingBytes : list float) (k : Z)
    : M (list (Z * string * float)) := fun w =>
  let n := w_stmts w in
  let w' := mkWorld (w_db w) (S n) (w_calls w) (w_log w) in
  if io_fault env n then (Err (errors_New "disk I/O error"), w')
  else (returned (knn_query env n embeddingBytes k), w').

Definition SearchWithThreshold (embeddings : list float) (opts : SearchOptions)
    : M (list SearchResult) :=
  embeddingBytes <- wrap_err "failed to serialize embedding"
                      (lift (SerializeFloat32 embeddings)) ;;
  let initialLimit := wrap64 (MaxResults opts * 2) in
  let initialLimit := if initialLimit <? 100 then 100 else initialLimit in
  rows <- wrap_err "failed to execute search query"
            (knn_statement embeddingBytes initialLimit) ;;
  let allResults :=
    map (fun row : Z * string * float => mkSearchResult row.1.1 row.1.2 row.2) rows in
  lift (filterByDistance allResults opts).

Definition Search (embeddings : list float) (limit : Z) : M (list string) :=
  let opts := DefaultSearchOptions in
  let opts := mkSearchOptions (MaxDistance opts) (MinResults opts) limit false in
  results <- SearchWithThreshold embeddings opts ;;
  ret (map File results).

(** [results[i].Distance = 1.0 - results[i].Distance] *)
Definition to_similarity (r : SearchResult) : SearchResult :=
  mkSearchResult (ID r) (File r) (PrimFloat.sub 1 (Distance r)).

Definition SearchWithSimilarity (embeddings : list float)
    (minSimilarity : float) (maxResults : Z) : M (list SearchResult) :=
  let opts := {| MaxDistance := PrimFloat.sub 1 minSimilarity;
                 MinResults := 1;
                 MaxResults := maxResults;
                 UseAdaptive := true |} in
  results <- SearchWithThreshold embeddings opts ;;
  ret (map to_similarity results).

Definition SearchCodeSimilar (queryEmbedding : list float) : M (list SearchResult) :=
  let opts := {| MaxDistance := 0.6; MinResults := 3; MaxResults := 15;
                 UseAdaptive := true |} in
  SearchWithThreshold queryEmbedding opts.

Definition SearchCodeExact (queryEmbedding : list float) : M (list SearchResult) :=
  let opts := {| MaxDistance := 0.3; MinResults := 1; MaxResults := 10;
                 UseAdaptive := false |} in
  SearchWithThreshold queryEmbedding opts.

End Functions.

End db.

(** ** Package client *)
Module client.

Section Client.
Variable env : Env.

Definition endpoint (clientName : string) : option string :=
  if decide (clientName = "litellm") then Some "/v1/embeddings"
  else if decide (clientName = "ollama") then Some "/api/embed"
  else None.

(** The exchange itself (request, retries, status check, JSON decoding)
    is the provider's answer; any decodable 2xx body is a success,
    whether or not it carries an embedding. *)
Definition Embeddings (clientName model inputText : string)
    : M models.EmbeddingResponse :=
  if decide (inputText = "") then fail (errors_New "inputText cannot be empty")
  else
    match endpoint clientName with
    | None => fail (errors_New ("unsupported client: " +:+ clientName))
    | Some path => fun w =>
        (returned (http_post env (w_calls w) path
                     (models.mkEmbeddingRequest model inputText)),
         mkWorld (w_db w) (w_stmts w) (S (w_calls w)) (w_log w))
    end.

End Client.

End client.

(** ** Package sync *)
Module sync.

Record Config : Type := mkConfig {
  ProjectAlias : string;
  ProjectPath : string;
  ClientName : string;
  ModelName : string;
  Extensions : list string
}.

(** [strings.TrimPrefix] *)
Fixpoint strip_prefix (prefix s : string) : option string :=
  match prefix, s with
  | EmptyString, _ => Some s
  | String c prefix', String d s' =>
      if Ascii.eqb c d then strip_prefix prefix' s' else None
  | String _ _, EmptyString => None
  end.
Definition TrimPrefix (s prefix : string) : string :=
  match strip_prefix prefix s with
  | Some rest => rest
  | None => s
  end.

Definition newline : string := String (ascii_of_nat 10) EmptyString.

(** [localFilePaths[relativePath]] and [existingFilePaths[relativePath]]:
    a key that is absent reads as the zero value. *)
Definition has (paths : gmap string bool) (key : string) : bool :=
  match paths !! key with
  | Some b => b
  | None => false
  end.

Section Sync.
Variable env : Env.
Local Open Scope go_scope.

(** [log.Println] and [log.Printf], without the date prefix. *)
Definition log_Printf (line : string) : M unit := fun w =>
  (Ok tt, mkWorld (w_db w) (w_stmts w) (w_calls w) (w_log w ++ [line])).

(** [fmt.Sprintf("%s\n%s", relativePath, string(content))] *)
Definition embed_text (relativePath content : string) : string :=
  relativePath +:+ newline +:+ content.

(** The loop of [processProjectFiles]. *)
Fixpoint process_files (config : Config) (files : list string) : M unit :=
  match files with
  | [] => ret tt
  | filePath :: rest =>
      match os_ReadFile env filePath with
      | inl err =>
          log_Printf ("Error reading file " +:+ filePath +:+ ": " +:+ Error err) ;;;
          process_files config rest
      | inr content =>
          let relativePath := TrimPrefix filePath (ProjectPath config) in
          log_Printf ("Processing file: " +:+ relativePath) ;;;
          r <- attempt (client.Embeddings env (ClientName config) (ModelName config)
                          (embed_text relativePath content)) ;;
          match r with
          | inl err =>
              log_Printf ("Error generating embeddings for file " +:+ filePath
                          +:+ ": " +:+ Error err) ;;;
              process_files config rest
          | inr res =>
              wrap_err ("error saving embedding for file " +:+ filePath)
                (db.SaveFileEmbedding env relativePath (models.GetEmbeddings res)) ;;;
              process_files config rest
          end
      end
  end.

Definition processProjectFiles (config : Config) : M unit :=
  log_Printf "Syncing code files to the database" ;;;
  files <- wrap_err "error finding files"
             (lift (returned (file_RecursiveFiles env (ProjectPath config)
                                (Extensions config)))) ;;
  log_Printf ("Found " +:+ pretty (length files) +:+ " files") ;;;
  process_files config files.

(** The first loop of [RunSync], over the local files. *)
Fixpoint sync_new_files (config : Config) (existingFilePaths : gmap string bool)
    (localFiles : list string) : M unit :=
  match localFiles with
  | [] => ret tt
  | filePath :: rest =>
      let relativePath := TrimPrefix filePath (ProjectPath config) in
      if negb (has existingFilePaths relativePath) then
        log_Printf ("Adding new file: " +:+ relativePath) ;;;
        match os_ReadFile env filePath with
        | inl err =>
            log_Printf ("Error reading file " +:+ filePath +:+ ": " +:+ Error err) ;;;
            sync_new_files config existingFilePaths rest
        | inr content =>
            r <- attempt (client.Embeddings env (ClientName config) (ModelName config)
                            (embed_text relativePath content)) ;;
            match r with
            | inl err =>
                log_Printf ("Error generating embeddings for file " +:+ filePath
                            +:+ ": " +:+ Error err) ;;;
                sync_new_files config existingFilePaths rest
            | inr res =>
                wrap_err ("error saving embedding for file " +:+ filePath)
                  (db.SaveFileEmbedding env relativePath (models.GetEmbeddings res)) ;;;
                sync_new_files config existingFilePaths rest
            end
        end
      else sync_new_files config existingFilePaths rest
  end.

(** The second loop of [RunSync], over the rows of [GetFilesToSync]. *)
Fixpoint sync_existing_files (config : Config) (localFilePaths : gmap string bool)
    (existingFiles : list models.File) : M unit :=
  match existingFiles with
  | [] => ret tt
  | fileRecord :: rest =>
      let file := models.FilePath fileRecord in
      if has localFilePaths file then
        log_Printf ("Updating file: " +:+ file) ;;;
        let fullPath := filepath_Join env (ProjectPath config) file in
        match os_ReadFile env fullPath with
        | inl err =>
            log_Printf ("Error reading file " +:+ fullPath +:+ ": " +:+ Error err) ;;;
            sync_existing_files config localFilePaths rest
        | inr content =>
            r <- attempt (client.Embeddings env (ClientName config) (ModelName config)
                            (embed_text file content)) ;;
            match r with
            | inl err =>
                log_Printf ("Error generating embeddings for file " +:+ fullPath
                            +:+ ": " +:+ Error err) ;;;
                sync_existing_files config localFilePaths rest
            | inr res =>
                wrap_err ("error updating embedding for file " +:+ fullPath)
                  (db.UpdateFileEmbedding env (models.ID fileRecord) file
                     (models.GetEmbeddings res)) ;;;
                sync_existing_files config localFilePaths rest
            end
        end
      else
        log_Printf ("Removing deleted file: " +:+ file) ;;;
        wrap_err ("error deleting file and vector for file " +:+ file)
          (db.DeleteFileAndVector env (models.ID fileRecord)) ;;;
        sync_existing_files config localFilePaths rest
  end.

(** [localFilePaths[relativePath] = true] for every local file. *)
Definition local_paths (config : Config) (localFiles : list string) : gmap string bool :=
  foldl (fun (localFilePaths : gmap string bool) filePath =>
           <[TrimPrefix filePath (ProjectPath config) := true]> localFilePaths)
        ∅ localFiles.

Definition RunSync (projectAlias : string) : M unit :=
  wrap_err "failed to initialize database" (db.SetupDatabase env projectAlias 0) ;;;
  project <- wrap_err ("failed to get project config for alias '" +:+ projectAlias +:+ "'")
               (db.GetProjectByAlias env projectAlias) ;;
  let config := {| ProjectAlias := models.Alias project;
                   ProjectPath := models.Path project;
                   ModelName := models.ProjectModel project;
                   ClientName := models.Client project;
                   Extensions := models.Extensions project |} in
  localFiles <- wrap_err "error finding local files"
                  (lift (returned (file_RecursiveFiles env (ProjectPath config)
                                     (Extensions config)))) ;;
  let localFilePaths := local_paths config localFiles in
  existingFilePaths <- wrap_err "error getting existing file paths"
                         (db.GetProjectFilePaths env) ;;
  log_Printf "Processing new files" ;;;
  sync_new_files config existingFilePaths localFiles ;;;
  log_Printf "Processing existing files" ;;;
  existingFiles <- wrap_err "error getting files to sync" (db.GetFilesToSync env) ;;
  sync_existing_files config localFilePaths existingFiles.

(** [ParseConfig]; [os_Getwd] is what [os.Getwd] answers. *)
Definition ParseConfig (os_Getwd : error + string) (args : list string) : outcome Config :=
  if (length args <? 2)%nat
  then Err (errors_New "at least 2 arguments required (alias, path)")
  else
    let arg := fun i : nat => nth i args EmptyString in
    let config := {| ProjectAlias := arg 0%nat;
                     ProjectPath := arg 1%nat;
                     ModelName := "codesearch-embedding";
                     ClientName := "litellm";
                     Extensions := ["go"; "js"; "ts"; "py"; "java"; "cpp"; "c"; "h";
                                    "hpp"; "yaml"; "yml"] |} in
    let with_path :=
      if decide (ProjectPath config = ".") then
        match os_Getwd with
        | inl err => Err (Errorf "failed to get current working directory" err)
        | inr dir => Ok (mkConfig (ProjectAlias config) dir (ClientName config)
                                  (ModelName config) (Extensions config))
        end
      else Ok config in
    match with_path with
    | Ok config =>
        let config :=
          if (4 <=? length args)%nat && negb (bool_decide (arg 2%nat = EmptyString))
          then mkConfig (ProjectAlias config) (ProjectPath config) (arg 2%nat)
                        (ModelName config) (Extensions config)
          else config in
        let config :=
          if (4 <=? length args)%nat && negb (bool_decide (arg 3%nat = EmptyString))
          then mkConfig (ProjectAlias config) (ProjectPath config) (ClientName config)
                        (arg 3%nat) (Extensions config)
          else config in
        let config :=
          if (5 <=? length args)%nat
          then mkConfig (ProjectAlias config) (ProjectPath config) (ClientName config)
                        (ModelName config) (strings.Split (arg 4%nat) ",")
          else config in
        Ok config
    | other => other
    end.

(** [Run], the build.  The database is opened before anything is saved;
    a file that does not exist yet is the store with no rows whose vector
    table has the probed width. *)
Definition Run (config : Config) : M unit :=
  res <- wrap_err "error generating embedding for dimensions"
           (client.Embeddings env (ClientName config) (ModelName config) "1") ;;
  floats <- lift (models.Float32 (models.GetEmbeddings res)) ;;
  let dimensions := db.len floats in
  if dimensions =? 0 then fail (errors_New "received empty embedding dimensions")
  else
    wrap_err "failed to initialize database"
      (db.SetupDatabase env (ProjectAlias config) dimensions) ;;;
    let project := {| models.Alias := ProjectAlias config;
                      models.Path := ProjectPath config;
                      models.Client := ClientName config;
                      models.ProjectModel := ModelName config;
                      models.Extensions := Extensions config |} in
    wrap_err "error saving project metadata" (db.UpsertProject env project) ;;;
    wrap_err "error deleting existing vector data" (db.DeleteVectorData env) ;;;
    wrap_err "error processing project files" (processProjectFiles config).

End Sync.

End sync.

(** ** Package search *)
Module search.

Record Config : Type := mkConfig {
  ProjectAlias : string;
  Query : string
}.

Section Search.
Variable env : Env.
Local Open Scope go_scope.

Definition minSimilarity : float := 0.03.
Definition limit : Z := 10.

Definition Run (config : Config) : M (list db.SearchResult) :=
  wrap_err "failed to initialize database"
    (db.SetupDatabase env (ProjectAlias config) 0) ;;;
  proj <- (fun w =>
             match db.GetProjectByAlias env (ProjectAlias config) w with
             | (Err e, w') =>
                 if decide (e = db.ErrNoRows)
                 then (Err (errors_New ("project with alias '" +:+ ProjectAlias config
                                        +:+ "' not found")), w')
                 else (Err (Errorf "error retrieving project" e), w')
             | other => other
             end) ;;
  embedding <- wrap_err "error generating embeddings for query"
                 (client.Embeddings env (models.Client proj) (models.ProjectModel proj)
                    (Query config)) ;;
  floats <- lift (models.Float32 (models.GetEmbeddings embedding)) ;;
  wrap_err "error searching for similar files"
    (db.SearchWithSimilarity env floats minSimilarity limit).

End Search.

End search.

(** ** Package file *)
Module file.

(** One call of the function [filepath.Walk] is given: the path, and
    either the error met there or what [os.FileInfo] tells. *)
Inductive visit : Type :=
| Failed (filePath : string) (err : error)
| Found (filePath : string) (name : string) (isDir : bool).

(** What the walk relies on outside the package: [strings.ToLower],
    [strings.TrimSpace], and the calls [filepath.Walk] makes for a root,
    in order, with the error it returns in the end. *)
Record Tree : Type := mkTree {
  strings_ToLower : string -> string;
  strings_TrimSpace : string -> string;
  filepath_Walk : string -> list visit * option error
}.

Section File.
Variable tree : Tree.
Local Open Scope go_scope.

(** One iteration of the normalising loop. *)
Definition normalize (ext : string) : string :=
  let ext := strings_TrimSpace tree ext in
  let ext :=
    if negb (bool_decide (ext = EmptyString)) && negb (strings.HasPrefix ext ".")
    then "." +:+ ext
    else ext in
  strings_ToLower tree ext.

(** [for _, e := range normalizedExts { if ext == e { ...; break } }] *)
Fixpoint matches (ext : string) (normalizedExts : list string) : bool :=
  match normalizedExts with
  | [] => false
  | e :: rest => if String.eqb ext e then true else matches ext rest
  end.

(** The function handed to [filepath.Walk]; it always returns nil. *)
Definition walk_fn (normalizedExts : list string) (files : list string) (v : visit)
    : M (list string) :=
  match v with
  | Failed filePath err =>
      sync.log_Printf ("Error accessing path " +:+ filePath +:+ ": " +:+ Error err) ;;;
      ret files
  | Found filePath name isDir =>
      if isDir then ret files
      else if strings.HasPrefix name "." then ret files
      else if (0 <? length normalizedExts)%nat then
        let ext := strings_ToLower tree (filepath.Ext filePath) in
        if matches ext normalizedExts then ret (files ++ [filePath]) else ret files
      else ret (files ++ [filePath])
  end.

Fixpoint walk (normalizedExts : list string) (files : list string) (visits : list visit)
    : M (list string) :=
  match visits with
  | [] => ret files
  | v :: rest =>
      files <- walk_fn normalizedExts files v ;;
      walk normalizedExts files rest
  end.

(** [RecursiveFiles] returns the files and the walk's error together. *)
Definition RecursiveFiles (path : string) (extensions : list string)
    : M (list string * option error) :=
  let normalizedExts := map normalize extensions in
  let '(visits, err) := filepath_Walk tree path in
  files <- walk normalizedExts [] visits ;;
  ret (files, err).

End File.

End file.

(** * Vocabulary of the properties *)

(** A hit passes the threshold [t]. *)
Definition within (t : float) (r : db.SearchResult) : Prop :=
  PrimFloat.leb (db.Distance r) t = true.

#[global] Instance within_dec t r : Decision (within t r).
Proof. unfold within. apply _. Defined.

(** The input is ascending by distance. *)
Definition closer_or_equal (a b : db.SearchResult) : Prop :=
  PrimFloat.leb (db.Distance a) (db.Distance b) = true.
Definition ascending (results : list db.SearchResult) : Prop :=
  StronglySorted closer_or_equal results.

(** The threshold [filterByDistance] filters with. *)
Definition threshold_of (results : list db.SearchResult) (opts : db.SearchOptions) : float :=
  if db.UseAdaptive opts
  then db.calculateAdaptiveThreshold results (db.MaxDistance opts)
  else db.MaxDistance opts.

(** ** Sample hits *)

Definition hit (id : Z) (distance : float) : db.SearchResult :=
  db.mkSearchResult id ("/file" +:+ pretty id +:+ ".go") distance.

(** The hits of the adaptive gap example. *)
Definition gap_example : list db.SearchResult :=
  [hit 1 0.1; hit 2 0.12; hit 3 0.13; hit 4 0.45; hit 5 0.46].

(** Options of a caller that wants one result at least. *)
Definition floor_options : db.SearchOptions :=
  {| db.MaxDistance := 0.5; db.MinResults := 1; db.MaxResults := 10;
     db.UseAdaptive := false |}.

(** Options with a negative [MaxResults]. *)
Definition negative_options : db.SearchOptions :=
  {| db.MaxDistance := 0.5; db.MinResults := 1; db.MaxResults := -1;
     db.UseAdaptive := true |}.

(** Index [i] is one the gap loop visits. *)
Definition scanned (results : list db.SearchResult) (i : nat) : Prop :=
  (1 <= i < Nat.min 20 (length results))%nat.

(** What the gap loop has established after visiting the indices [idxs]:
    the pair it holds is the initial one or a visited positive gap, and no
    visited gap is strictly larger. *)
Definition gap_state (results : list db.SearchResult) (idxs : list nat)
    (acc : float * nat) : Prop :=
  ((acc.2 = 0%nat /\ acc.1 = 0%float)
   \/ (acc.2 ∈ idxs /\ acc.1 = db.gap_at results acc.2 /\ PrimFloat.ltb 0 acc.1 = true))
  /\ forall j, j ∈ idxs -> PrimFloat.ltb acc.1 (db.gap_at results j) = false.

(** The cutoff of the gap example, as binary64 arithmetic gives it. *)
Definition gap_example_cutoff : float := 0.29000000000000004.

(** Twenty hits at distance 0.1 and a twenty-first at 0.5: the only gap
    is in the twentieth consecutive pair. *)
Definition late_gap_example : list db.SearchResult :=
  ((fun k => hit (Z.of_nat k) 0.1) <$> seq 1 20) ++ [hit 21 0.5].

(** ** The store and the sync *)

Definition paths (s : Store) : list string := models.FilePath <$> files s.
Definition file_ids (s : Store) : list Z := models.ID <$> files s.
Definition vector_ids (s : Store) : list Z := fst <$> context_vectors s.

(** What the engine guarantees of the [files] table: ids are a primary
    key, and AUTOINCREMENT's counter is at least every id in use. *)
Definition store_wf (s : Store) : Prop :=
  NoDup (file_ids s) /\ Forall (fun id => id <= sqlite_sequence s) (file_ids s).

(** Every file row has exactly one vector and every vector exactly one
    file row. *)
Definition paired (s : Store) : Prop :=
  NoDup (file_ids s) /\ NoDup (vector_ids s)
  /\ forall id, id ∈ file_ids s <-> id ∈ vector_ids s.

(** The world after the process logged [lines] and did nothing else. *)
Definition logged (w : World) (lines : list string) : World :=
  mkWorld (w_db w) (w_stmts w) (w_calls w) (w_log w ++ lines).

(** The relative paths of the local files, the set [L] of a sync. *)
Definition relative_paths (root : string) (localFiles : list string) : list string :=
  (fun filePath => sync.TrimPrefix filePath root) <$> localFiles.

Definition local_set (env : Env) (s : Store) (alias : string) : list string :=
  match projects s !! alias with
  | Some project =>
      match file_RecursiveFiles env (models.Path project) (models.Extensions project) with
      | inr localFiles => relative_paths (models.Path project) localFiles
      | inl _ => []
      end
  | None => []
  end.

(** The configuration [RunSync] builds from the stored project. *)
Definition config_of (project : models.Project) : sync.Config :=
  {| sync.ProjectAlias := models.Alias project;
     sync.ProjectPath := models.Path project;
     sync.ModelName := models.ProjectModel project;
     sync.ClientName := models.Client project;
     sync.Extensions := models.Extensions project |}.

(** ** The phases of [RunSync] *)

(** [RunSync] up to the first loop: the project, the local files and the
    stored paths. *)
Definition sync_start (env : Env) (projectAlias : string)
    : M (models.Project * list string * gmap string bool) :=
  (wrap_err "failed to initialize database" (db.SetupDatabase env projectAlias 0) ;;;
   project <- wrap_err ("failed to get project config for alias '" +:+ projectAlias +:+ "'")
                (db.GetProjectByAlias env projectAlias) ;;
   localFiles <- wrap_err "error finding local files"
                   (lift (returned (file_RecursiveFiles env (models.Path project)
                                      (models.Extensions project)))) ;;
   existingFilePaths <- wrap_err "error getting existing file paths"
                          (db.GetProjectFilePaths env) ;;
   sync.log_Printf "Processing new files" ;;;
   ret (project, localFiles, existingFilePaths))%go.

(** [RunSync] from the second query on. *)
Definition sync_finish (env : Env) (config : sync.Config) (localFiles : list string)
    : M unit :=
  (sync.log_Printf "Processing existing files" ;;;
   existingFiles <- wrap_err "error getting files to sync" (db.GetFilesToSync env) ;;
   sync.sync_existing_files env config (sync.local_paths config localFiles)
     existingFiles)%go.

(** ** Sample projects *)

Definition no_usage : models.EmbeddingUsage := models.mkEmbeddingUsage 0 0.

Definition vec2 (x y : float) : models.EmbeddingResponse :=
  models.mkEmbeddingResponse "list" [[x; y]] [] "demo-model" no_usage.

(** A decoded body that carries no embedding in either field. *)
Definition empty_response : models.EmbeddingResponse :=
  models.mkEmbeddingResponse "" [] [] "" no_usage.

(** A response of three components. *)
Definition wide_response : models.EmbeddingResponse :=
  models.mkEmbeddingResponse "list" [[0.5; 0.25; 0.125]%float] [] "demo-model" no_usage.

Definition demo_project : models.Project :=
  models.mkProject "demo" "/p" "ollama" "demo-model" ["go"].

(** Stored: [/b], [/c], [/d]. *)
Definition demo_store : Store :=
  {| files := [models.mkFile 1 "/b" 10; models.mkFile 2 "/c" 20; models.mkFile 3 "/d" 30];
     context_vectors := [(1, [0; 0]%float); (2, [0; 0]%float); (3, [0; 0]%float)];
     sqlite_sequence := 3;
     dimensions := 2;
     projects := {["demo" := demo_project]} |}.

Definition demo_world : World := mkWorld demo_store 0 0 [].

(** Local: [/p/a], [/p/b], [/p/c]; every read, every provider call and
    every statement succeeds. *)
Definition env_ok : Env :=
  {| io_fault := fun _ => false;
     now := fun n => (100 + n)%nat;
     http_post := fun _ _ _ => inr (vec2 0.5 0.25);
     os_ReadFile := fun p => inr ("package " +:+ p);
     file_RecursiveFiles := fun _ _ => inr ["/p/a"; "/p/b"; "/p/c"];
     filepath_Join := fun a b => a +:+ b;
     knn_query := fun _ _ _ =>
       inr [(1, "/b", 0.1%float); (2, "/c", 0.12%float); (4, "/a", 0.5%float)] |}.

(** As [env_ok], but the first provider call fails. *)
Definition env_flaky : Env :=
  {| io_fault := io_fault env_ok;
     now := now env_ok;
     http_post := fun n path req =>
       match n with
       | O => inl (errors_New "failed to send request: connection refused")
       | S _ => http_post env_ok n path req
       end;
     os_ReadFile := os_ReadFile env_ok;
     file_RecursiveFiles := fun _ _ => inr ["/p/a"];
     filepath_Join := filepath_Join env_ok;
     knn_query := knn_query env_ok |}.

(** As [env_ok], but the provider answers 200 with a body carrying no
    embedding in either field. *)
Definition env_empty : Env :=
  {| io_fault := io_fault env_ok;
     now := now env_ok;
     http_post := fun _ _ _ => inr empty_response;
     os_ReadFile := os_ReadFile env_ok;
     file_RecursiveFiles := file_RecursiveFiles env_ok;
     filepath_Join := filepath_Join env_ok;
     knn_query := knn_query env_ok |}.

(** As [env_ok], but the provider returns vectors of three components
    for a store created with two. *)
Definition env_wide : Env :=
  {| io_fault := io_fault env_ok;
     now := now env_ok;
     http_post := fun _ _ _ => inr wide_response;
     os_ReadFile := os_ReadFile env_ok;
     file_RecursiveFiles := file_RecursiveFiles env_ok;
     filepath_Join := filepath_Join env_ok;
     knn_query := knn_query env_ok |}.

(** A store that holds the project and no file yet. *)
Definition empty_store : Store :=
  {| files := []; context_vectors := []; sqlite_sequence := 0; dimensions := 2;
     projects := {["demo" := demo_project]} |}.
Definition empty_world : World := mkWorld empty_store 0 0 [].

Definition after (r : outcome unit * World) : World := r.2.

(** ** The lines the sync loops log, and their provider call *)

Definition adding (cfg : sync.Config) (f : string) : string :=
  "Adding new file: " +:+ sync.TrimPrefix f (sync.ProjectPath cfg).
Definition updating (r : models.File) : string := "Updating file: " +:+ models.FilePath r.
Definition removing (r : models.File) : string :=
  "Removing deleted file: " +:+ models.FilePath r.
Definition full_path (env : Env) (cfg : sync.Config) (r : models.File) : string :=
  filepath_Join env (sync.ProjectPath cfg) (models.FilePath r).
Definition read_error (path : string) (err : error) : string :=
  "Error reading file " +:+ path +:+ ": " +:+ Error err.
Definition embed_error (path : string) (err : error) : string :=
  "Error generating embeddings for file " +:+ path +:+ ": " +:+ Error err.
Definition embed (env : Env) (cfg : sync.Config) (relativePath content : string)
    : M models.EmbeddingResponse :=
  client.Embeddings env (sync.ClientName cfg) (sync.ModelName cfg)
    (sync.embed_text relativePath content).

(** ** The search *)

(** The rows of the KNN query as [rows.Scan] stores them. *)
Definition scanned_rows (rows : list (Z * string * float)) : list db.SearchResult :=
  map (fun row : Z * string * float => db.mkSearchResult row.1.1 row.1.2 row.2) rows.

(** [initialLimit] of [SearchWithThreshold]. *)
Definition initial_limit (maxResults : Z) : Z :=
  if db.wrap64 (maxResults * 2) <? 100 then 100 else db.wrap64 (maxResults * 2).

(** The options [SearchWithSimilarity] ranks with. *)
Definition similarity_options (minSimilarity : float) (maxResults : Z) : db.SearchOptions :=
  {| db.MaxDistance := PrimFloat.sub 1 minSimilarity;
     db.MinResults := 1;
     db.MaxResults := maxResults;
     db.UseAdaptive := true |}.

(** ** The stores of the package's tests *)

(** A database right after [InitDB], with vectors of width two. *)
Definition fresh_store : Store :=
  {| files := []; context_vectors := []; sqlite_sequence := 0; dimensions := 2;
     projects := ∅ |}.
Definition fresh_world : World := mkWorld fresh_store 0 0 [].

(** The rows [TestGetFilesToSync] seeds, with their timestamps as hours. *)
Definition seeded_store : Store :=
  {| files := [models.mkFile 1 "/path/to/file1.go" 10;
               models.mkFile 2 "/path/to/file2.go" 9;
               models.mkFile 3 "/path/to/file3.go" 11];
     context_vectors := []; sqlite_sequence := 3; dimensions := 2; projects := ∅ |}.

(** ** The extensions column of a project *)

(** [strings.Join(project.Extensions, ",")], what [UpsertProject] writes. *)
Definition extensions_column (extensions : list string) : string :=
  strings.Join extensions ",".

(** What [GetProjectByAlias] makes of the column: the fields that
    [strings.Split(extensionsStr, ",")] gives unless the column is the
    empty string, and no extension then. *)
Definition column_extensions (extensionsStr : string) : list string :=
  if bool_decide (extensionsStr = EmptyString) then []
  else strings.Split extensionsStr ",".

(** The project as its row gives it back. *)
Definition stored_project (project : models.Project) : models.Project :=
  models.mkProject (models.Alias project) (models.Path project) (models.Client project)
    (models.ProjectModel project)
    (column_extensions (extensions_column (models.Extensions project))).

(** The number of commas in a string. *)
Fixpoint commas (s : string) : nat :=
  match s with
  | EmptyString => 0%nat
  | String c rest => ((if Ascii.eqb c "," then 1 else 0) + commas rest)%nat
  end.

(** No extension of the list holds a comma. *)
Definition comma_free (extensions : list string) : Prop :=
  Forall (fun e => commas e = 0%nat) extensions.

(** ** The width of the stored vectors *)

(** Every stored vector has the width the vec0 table was created with. *)
Definition vectors_wide (s : Store) : Prop :=
  Forall (fun v : Z * list float => length v.2 = dimensions s) (context_vectors s).

(** ** More sample environments *)

(** As [env_ok], but the statement numbered [n] fails in the engine. *)
Definition env_fault_at (n : nat) : Env :=
  {| io_fault := fun k => Nat.eqb k n;
     now := now env_ok;
     http_post := http_post env_ok;
     os_ReadFile := os_ReadFile env_ok;
     file_RecursiveFiles := file_RecursiveFiles env_ok;
     filepath_Join := filepath_Join env_ok;
     knn_query := knn_query env_ok |}.

(** ** A store in order *)

(** The ids are a key below the counter, every file row has its vector
    and every vector its file row, and the vectors have the table's
    width. *)
Definition sound (s : Store) : Prop := store_wf s /\ paired s /\ vectors_wide s.

(** ** The build *)

(** The world after one provider exchange and nothing else. *)
Definition exchanged (w : World) : World :=
  mkWorld (w_db w) (w_stmts w) (S (w_calls w)) (w_log w).

(** The request of the build's probe for the width. *)
Definition probe (config : sync.Config) : models.EmbeddingRequest :=
  models.mkEmbeddingRequest (sync.ModelName config) "1".

(** What [ParseConfig] fills in when the arguments leave it open. *)
Definition default_extensions : list string :=
  ["go"; "js"; "ts"; "py"; "java"; "cpp"; "c"; "h"; "hpp"; "yaml"; "yml"].
Definition default_config (alias path : string) : sync.Config :=
  sync.mkConfig alias path "litellm" "codesearch-embedding" default_extensions.

(** What [ParseConfig] makes of the arguments after the alias and the
    path: the client and the model are taken from the third and the
    fourth argument when both are present and not empty, the extensions
    from the fifth. *)
Definition parsed_client (rest : list string) : string :=
  match rest with
  | clientName :: _ :: _ =>
      if decide (clientName = EmptyString) then "litellm" else clientName
  | _ => "litellm"
  end.
Definition parsed_model (rest : list string) : string :=
  match rest with
  | _ :: model :: _ =>
      if decide (model = EmptyString) then "codesearch-embedding" else model
  | _ => "codesearch-embedding"
  end.
Definition parsed_extensions (rest : list string) : list string :=
  match rest with
  | _ :: _ :: extensions :: _ => strings.Split extensions ","
  | _ => default_extensions
  end.

(** A response whose first embedding has no component. *)
Definition hollow_response : models.EmbeddingResponse :=
  models.mkEmbeddingResponse "list" [[]] [] "demo-model" no_usage.

(** ** The walk *)

Definition visit_path (v : file.visit) : string :=
  match v with
  | file.Failed filePath _ => filePath
  | file.Found filePath _ _ => filePath
  end.

(** A visit whose path the walk keeps: a regular file whose name does
    not start with a dot and whose lowered extension is one of the
    normalized ones, when any is given. *)
Definition kept (tree : file.Tree) (normalizedExts : list string) (v : file.visit) : Prop :=
  match v with
  | file.Failed _ _ => False
  | file.Found filePath name isDir =>
      isDir = false /\ strings.HasPrefix name "." = false
      /\ (normalizedExts = []
          \/ file.strings_ToLower tree (filepath.Ext filePath) ∈ normalizedExts)
  end.

#[global] Instance kept_dec tree normalizedExts v : Decision (kept tree normalizedExts v).
Proof. destruct v; simpl; apply _. Defined.

(** The line logged for a path the walk could not access. *)
Definition access_error (v : file.visit) : option string :=
  match v with
  | file.Failed filePath err =>
      Some ("Error accessing path " +:+ filePath +:+ ": " +:+ Error err)
  | file.Found _ _ _ => None
  end.

(** ASCII lower case, for the sample tree. *)
Definition lower (c : ascii) : ascii :=
  let n := nat_of_ascii c in
  if (65 <=? n)%nat && (n <=? 90)%nat then ascii_of_nat (n + 32) else c.
Fixpoint lower_string (s : string) : string :=
  match s with
  | EmptyString => EmptyString
  | String c rest => String (lower c) (lower_string rest)
  end.

(** A project tree: two sources, a note without extension, a hidden
    file, a directory and a directory that cannot be read.  No sample
    extension has white space around it. *)
Definition sample_tree : file.Tree :=
  {| file.strings_ToLower := lower_string;
     file.strings_TrimSpace := fun s => s;
     file.filepath_Walk := fun root =>
       ([file.Found root "p" true;
         file.Found (root +:+ "/.git") ".git" true;
         file.Found (root +:+ "/.env") ".env" false;
         file.Found (root +:+ "/Main.GO") "Main.GO" false;
         file.Found (root +:+ "/NOTES") "NOTES" false;
         file.Failed (root +:+ "/locked") (errors_New "permission denied");
         file.Found (root +:+ "/lib.py") "lib.py" false], None) |}.

(** * Properties of the ranker *)

(** ** The order of binary64 *)

Lemma SFltb_trans a b c : SFltb a b = true -> SFltb b c = true -> SFltb a c = true.
Proof.
  unfold SFltb, SFcompare.
  destruct a as [sa|sa| |sa ma ea], b as [sb|sb| |sb mb eb], c as [sc|sc| |sc mc ec];
    try discriminate; try (destruct sa, sb, sc; simpl; congruence).
  change (PosDef.Pos.compare_cont Eq) with Pos.compare.
  destruct sa, sb, sc; simpl; try congruence;
    destruct (Z.compare_spec ea eb), (Z.compare_spec eb ec), (Z.compare_spec ea ec);
    try lia; try congruence; subst;
    destruct (Pos.compare_spec ma mb), (Pos.compare_spec mb mc), (Pos.compare_spec ma mc);
    simpl; try lia; try congruence.
Qed.

Lemma SFltb_irrefl a : SFltb a a = false.
Proof.
  unfold SFltb, SFcompare. destruct a as [s|s| |s m e]; try destruct s; try reflexivity.
  all: change (PosDef.Pos.compare_cont Eq) with Pos.compare;
    rewrite Z.compare_refl, Pos.compare_refl; reflexivity.
Qed.

Lemma float_ltb_trans a b c :
  PrimFloat.ltb a b = true -> PrimFloat.ltb b c = true -> PrimFloat.ltb a c = true.
Proof. rewrite !ltb_spec. apply SFltb_trans. Qed.

Lemma float_ltb_irrefl a : PrimFloat.ltb a a = false.
Proof. rewrite ltb_spec. apply SFltb_irrefl. Qed.

(** ** The filtering loop *)

Lemma keep_within_spec t m rs : forall acc,
  db.keep_within t m acc rs
  = acc ++ take (Z.to_nat (m - db.len acc)) (filter (within t) rs).
Proof.
  induction rs as [|r rs IH]; intros acc; simpl.
  - rewrite filter_nil, take_nil, app_nil_r. reflexivity.
  - rewrite filter_cons.
    destruct (PrimFloat.leb (db.Distance r) t) eqn:Hle; simpl.
    + destruct (decide (within t r)) as [_|Hn]; [|exfalso; apply Hn; exact Hle].
      destruct (db.len acc <? m) eqn:Hlt.
      * apply Z.ltb_lt in Hlt. rewrite IH. unfold db.len in *.
        rewrite length_app. simpl.
        replace (Z.to_nat (m - Z.of_nat (length acc)))
          with (S (Z.to_nat (m - Z.of_nat (length acc + 1)))) by lia.
        simpl. rewrite <- app_assoc. reflexivity.
      * apply Z.ltb_ge in Hlt. rewrite IH.
        replace (Z.to_nat (m - db.len acc)) with 0%nat by lia.
        rewrite !take_0. reflexivity.
    + destruct (decide (within t r)) as [Hy|_]; [unfold within in Hy; congruence|].
      apply IH.
Qed.

Lemma filtered_of_spec results opts :
  db.filtered_of results opts
  = take (Z.to_nat (db.MaxResults opts)) (filter (within (threshold_of results opts)) results).
Proof.
  unfold db.filtered_of, threshold_of.
  destruct (db.UseAdaptive opts); rewrite keep_within_spec; simpl;
    rewrite Z.sub_0_r; reflexivity.
Qed.

Lemma filtered_of_sublist results opts : db.filtered_of results opts `sublist_of` results.
Proof.
  rewrite filtered_of_spec. etransitivity; [apply sublist_take|apply sublist_filter].
Qed.

Lemma filtered_of_length results opts :
  0 <= db.MaxResults opts -> db.len (db.filtered_of results opts) <= db.MaxResults opts.
Proof.
  intros Hm. rewrite filtered_of_spec. unfold db.len. rewrite length_take. lia.
Qed.

Lemma filtered_of_within results opts :
  Forall (within (threshold_of results opts)) (db.filtered_of results opts).
Proof.
  rewrite filtered_of_spec. apply Forall_take, Forall_forall.
  intros r Hr. apply list_elem_of_filter in Hr. tauto.
Qed.

Lemma minCount_of_spec results opts :
  db.minCount_of results opts
  = Z.min (Z.min (db.MinResults opts) (db.len results)) (db.MaxResults opts).
Proof.
  unfold db.minCount_of.
  destruct (db.len results <? db.MinResults opts) eqn:H1;
    [apply Z.ltb_lt in H1|apply Z.ltb_ge in H1];
    match goal with |- context [?a <? ?b] => destruct (a <? b) eqn:H2 end;
    [apply Z.ltb_lt in H2|apply Z.ltb_ge in H2|apply Z.ltb_lt in H2|apply Z.ltb_ge in H2];
    lia.
Qed.

Lemma ascending_sublist (k l : list db.SearchResult) :
  k `sublist_of` l -> ascending l -> ascending k.
Proof.
  unfold ascending. induction 1 as [|x k l Hkl IH|x k l Hkl IH]; intros Hl.
  - constructor.
  - apply StronglySorted_inv in Hl as [Hl Hx]. constructor; [auto|].
    rewrite Forall_forall in Hx |- *. intros y Hy. apply Hx.
    eapply elem_of_sublist; eauto.
  - apply StronglySorted_inv in Hl as [Hl _]. auto.
Qed.

Lemma filterByDistance_nonempty results opts :
  results <> [] ->
  db.filterByDistance results opts
  = if db.len (db.filtered_of results opts) <? db.MinResults opts
    then slice_to results (db.minCount_of results opts)
    else Ok (db.filtered_of results opts).
Proof.
  intros Hne. unfold db.filterByDistance.
  destruct results as [|r rs]; [congruence|]. simpl Nat.eqb. cbv iota.
  replace (0 <? db.len (r :: rs)) with true
    by (symmetry; apply Z.ltb_lt; unfold db.len; simpl; lia).
  rewrite andb_true_r. reflexivity.
Qed.

Lemma slice_to_minCount results opts :
  0 <= db.MaxResults opts ->
  db.len (db.filtered_of results opts) < db.MinResults opts ->
  slice_to results (db.minCount_of results opts)
  = Ok (take (Z.to_nat (db.minCount_of results opts)) results).
Proof.
  intros Hmax Hlt. unfold slice_to.
  assert (0 <= db.len (db.filtered_of results opts)) by (unfold db.len; lia).
  assert (0 <= db.len results) by (unfold db.len; lia).
  rewrite minCount_of_spec in *. fold (db.len results).
  destruct (_ <? 0) eqn:H1; [apply Z.ltb_lt in H1; lia|].
  destruct (db.len results <? _) eqn:H2; [apply Z.ltb_lt in H2; lia|].
  reflexivity.
Qed.

(** The ranker returns whenever [MaxResults] is not negative. *)
Lemma filterByDistance_total results opts :
  0 <= db.MaxResults opts -> exists out, db.filterByDistance results opts = Ok out.
Proof.
  intros Hmax. destruct (decide (results = [])) as [->|Hne]; [eexists; reflexivity|].
  rewrite filterByDistance_nonempty by assumption.
  destruct (_ <? _) eqn:Hlt; [|eexists; reflexivity].
  apply Z.ltb_lt in Hlt. rewrite slice_to_minCount by assumption. eexists; reflexivity.
Qed.

(** C3, as the code has it: without the adaptive cutoff and with
    [MaxResults >= 0], the ranker returns at most [MaxResults] hits; every
    returned hit is within [MaxDistance] provided [MinResults] is at most
    [min (MaxResults, k)], where [k] is the number of input hits within
    [MaxDistance], that is, provided the floor does not replace the
    filtered hits by the closest raw ones. *)
Theorem filterByDistance_simple_bounds results opts :
  db.UseAdaptive opts = false ->
  0 <= db.MaxResults opts ->
  exists out,
    db.filterByDistance results opts = Ok out
    /\ db.len out <= db.MaxResults opts
    /\ (db.MinResults opts
        <= Z.min (db.MaxResults opts)
                 (db.len (filter (within (db.MaxDistance opts)) results)) ->
        Forall (within (db.MaxDistance opts)) out).
Proof.
  intros Hadaptive Hmax.
  destruct (decide (results = [])) as [->|Hne].
  { exists []. unfold db.len. simpl. repeat split; [lia|constructor]. }
  rewrite filterByDistance_nonempty by assumption.
  destruct (_ <? _) eqn:Hlt.
  - apply Z.ltb_lt in Hlt. rewrite slice_to_minCount by assumption.
    eexists; split; [reflexivity|]. split.
    + unfold db.len. rewrite length_take, minCount_of_spec. lia.
    + intros Hfloor. exfalso. rewrite filtered_of_spec in Hlt.
      unfold threshold_of in Hlt. rewrite Hadaptive in Hlt.
      unfold db.len in *. rewrite length_take in Hlt. lia.
  - apply Z.ltb_ge in Hlt. eexists; split; [reflexivity|].
    split; [apply filtered_of_length; assumption|]. intros _.
    pose proof (filtered_of_within results opts) as Hw.
    unfold threshold_of in Hw. rewrite Hadaptive in Hw. exact Hw.
Qed.

Lemma filterByDistance_simple_bounds_witness :
  exists out,
    db.filterByDistance [hit 1 0.2; hit 2 0.4; hit 3 0.9] floor_options = Ok out
    /\ db.len out <= 10
    /\ Forall (within 0.5) out.
Proof.
  destruct (filterByDistance_simple_bounds [hit 1 0.2; hit 2 0.4; hit 3 0.9] floor_options)
    as (out & Hout & Hlen & Hwithin); [reflexivity|vm_compute; discriminate|].
  exists out. split; [exact Hout|]. split; [exact Hlen|].
  apply Hwithin. vm_compute. discriminate.
Defined.

(** C3 as stated fails: with one raw hit at distance 0.9, [MaxDistance]
    0.5 and [MinResults] 1, the simple filter keeps nothing and the floor
    returns the hit although it is farther than [MaxDistance]. *)
Lemma filterByDistance_simple_floor_exceeds :
  db.UseAdaptive floor_options = false
  /\ db.filterByDistance [hit 1 0.9] floor_options = Ok [hit 1 0.9]
  /\ PrimFloat.leb (db.Distance (hit 1 0.9)) (db.MaxDistance floor_options) = false.
Proof. repeat split. Qed.

(** C5, as the code has it: for raw hits that are not empty and
    [MaxResults >= 0], when fewer than [MinResults] hits are left by the
    filter the ranker returns exactly the first
    [min (MinResults, len rawHits, MaxResults)] raw hits, whatever their
    distances and whether the cutoff was adaptive or not. *)
Theorem filterByDistance_floor results opts :
  results <> [] ->
  0 <= db.MaxResults opts ->
  db.len (db.filtered_of results opts) < db.MinResults opts ->
  db.filterByDistance results opts
  = Ok (take (Z.to_nat (Z.min (Z.min (db.MinResults opts) (db.len results))
                              (db.MaxResults opts))) results).
Proof.
  intros Hne Hmax Hlt. rewrite filterByDistance_nonempty by assumption.
  replace (_ <? _) with true by (symmetry; apply Z.ltb_lt; assumption).
  rewrite slice_to_minCount by assumption. rewrite minCount_of_spec. reflexivity.
Qed.

Lemma filterByDistance_floor_witness :
  db.filterByDistance [hit 1 0.7; hit 2 0.8; hit 3 0.9]
    {| db.MaxDistance := 0.5; db.MinResults := 2; db.MaxResults := 10;
       db.UseAdaptive := true |}
  = Ok (take (Z.to_nat (Z.min (Z.min 2 (db.len [hit 1 0.7; hit 2 0.8; hit 3 0.9])) 10))
          [hit 1 0.7; hit 2 0.8; hit 3 0.9]).
Proof.
  apply (filterByDistance_floor [hit 1 0.7; hit 2 0.8; hit 3 0.9]
           {| db.MaxDistance := 0.5; db.MinResults := 2; db.MaxResults := 10;
              db.UseAdaptive := true |}).
  - discriminate.
  - vm_compute. discriminate.
  - vm_compute. reflexivity.
Defined.

(** C5 as stated fails for an options value with a negative [MaxResults]:
    nothing passes the filter, the floor computes [minCount = -1] and the
    slice expression panics instead of returning hits. *)
Lemma filterByDistance_floor_negative_max_panics :
  [hit 1 0.9] <> []
  /\ db.len (db.filtered_of [hit 1 0.9] negative_options) < db.MinResults negative_options
  /\ db.filterByDistance [hit 1 0.9] negative_options = Panic "slice bounds out of range".
Proof. split; [discriminate|]. split; [vm_compute; reflexivity|reflexivity]. Qed.

(** C10: whatever the options, a result of the ranker is a subsequence of
    its input: every returned hit occurs in the input, in the input's
    order (an input ascending by distance gives an output ascending by
    distance), and there are no more of them than in the input; and the
    ranker does return whenever [MaxResults >= 0]. *)
Theorem filterByDistance_subsequence results opts :
  (0 <= db.MaxResults opts -> exists out, db.filterByDistance results opts = Ok out)
  /\ forall out,
       db.filterByDistance results opts = Ok out ->
       out `sublist_of` results
       /\ (forall r, r ∈ out -> r ∈ results)
       /\ (length out <= length results)%nat
       /\ (ascending results -> ascending out).
Proof.
  split; [apply filterByDistance_total|]. intros out Hout.
  assert (out `sublist_of` results) as Hsub.
  { destruct (decide (results = [])) as [->|Hne].
    - cbv in Hout. injection Hout as <-. constructor.
    - rewrite filterByDistance_nonempty in Hout by assumption.
      destruct (_ <? _).
      + unfold slice_to in Hout. destruct (_ || _); [discriminate|].
        injection Hout as <-. apply sublist_take.
      + injection Hout as <-. apply filtered_of_sublist. }
  split; [exact Hsub|]. split; [|split].
  - intros r Hr. eapply elem_of_sublist; eauto.
  - apply sublist_length, Hsub.
  - apply ascending_sublist, Hsub.
Qed.

Lemma filterByDistance_subsequence_witness :
  take 3 gap_example `sublist_of` gap_example
  /\ (forall r, r ∈ take 3 gap_example -> r ∈ gap_example)
  /\ (length (take 3 gap_example) <= length gap_example)%nat
  /\ (ascending gap_example -> ascending (take 3 gap_example)).
Proof.
  apply (proj2 (filterByDistance_subsequence gap_example db.DefaultSearchOptions)).
  vm_compute. reflexivity.
Defined.

(** ** The adaptive cutoff *)

Lemma gap_step_state results idxs acc i :
  gap_state results idxs acc ->
  gap_state results (idxs ++ [i]) (db.gap_step results acc i).
Proof.
  intros [Hacc Hmax]. unfold db.gap_step.
  destruct (PrimFloat.ltb acc.1 (db.gap_at results i)) eqn:Hlt; split; simpl.
  - right. split; [apply elem_of_app; right; constructor|]. split; [reflexivity|].
    destruct Hacc as [[_ H0]|(_ & _ & Hpos)].
    + rewrite <- H0. exact Hlt.
    + eapply float_ltb_trans; eauto.
  - intros j Hj. apply elem_of_app in Hj as [Hj|Hj].
    + destruct (PrimFloat.ltb (db.gap_at results i) (db.gap_at results j)) eqn:Hij;
        [|reflexivity].
      rewrite <- (Hmax j Hj). symmetry. eapply float_ltb_trans; eauto.
    + apply list_elem_of_singleton in Hj as ->. apply float_ltb_irrefl.
  - destruct Hacc as [H0|(Hin & Hg & Hpos)]; [left; exact H0|right].
    split; [apply elem_of_app; left; exact Hin|]. split; assumption.
  - intros j Hj. apply elem_of_app in Hj as [Hj|Hj]; [auto|].
    apply list_elem_of_singleton in Hj as ->. exact Hlt.
Qed.

Lemma gap_fold_state results l : forall idxs acc,
  gap_state results idxs acc ->
  gap_state results (idxs ++ l) (foldl (db.gap_step results) acc l).
Proof.
  induction l as [|i l IH]; intros idxs acc Hst; simpl.
  - rewrite app_nil_r. exact Hst.
  - replace (idxs ++ i :: l) with ((idxs ++ [i]) ++ l) by (rewrite <- app_assoc; reflexivity).
    apply IH, gap_step_state, Hst.
Qed.

Lemma gap_indices_scanned results j : j ∈ db.gap_indices results <-> scanned results j.
Proof.
  unfold db.gap_indices, scanned. rewrite elem_of_seq. lia.
Qed.

Lemma largest_gap_state results :
  gap_state results (db.gap_indices results) (db.largest_gap results).
Proof.
  unfold db.largest_gap.
  apply (gap_fold_state results (db.gap_indices results) [] (0%float, 0%nat)).
  split; [left; split; reflexivity|]. intros j Hj. inversion Hj.
Qed.

Lemma largest_gap_short results :
  (length results <= 1)%nat -> db.largest_gap results = (0%float, 0%nat).
Proof.
  intros Hlen. unfold db.largest_gap, db.gap_indices.
  replace (Nat.min (length results) 20 - 1)%nat with 0%nat by lia. reflexivity.
Qed.

Lemma calculateAdaptiveThreshold_spec results maxThreshold :
  db.calculateAdaptiveThreshold results maxThreshold
  = let g := (db.largest_gap results).1 in
    let i := (db.largest_gap results).2 in
    let cutoff := PrimFloat.add (db.dist results (i - 1)) (PrimFloat.div g 2) in
    if PrimFloat.ltb 0.05 g && (0 <? i)%nat
    then (if PrimFloat.ltb cutoff maxThreshold then cutoff else maxThreshold)
    else maxThreshold.
Proof.
  unfold db.calculateAdaptiveThreshold.
  destruct (length results <=? 1)%nat eqn:Hlen.
  - apply Nat.leb_le in Hlen. rewrite largest_gap_short by assumption.
    cbv zeta. simpl fst. simpl snd.
    replace (0 <? 0)%nat with false by reflexivity.
    rewrite andb_false_r. reflexivity.
  - destruct (db.largest_gap results) as [g i]. reflexivity.
Qed.

Lemma gap_example_filtered minResults maxResults :
  minResults <= 3 -> 3 <= maxResults ->
  db.filterByDistance gap_example
    {| db.MaxDistance := 0.8; db.MinResults := minResults;
       db.MaxResults := maxResults; db.UseAdaptive := true |}
  = Ok (take 3 gap_example).
Proof.
  intros Hmin Hmax. rewrite filterByDistance_nonempty by discriminate.
  rewrite filtered_of_spec. simpl db.MaxResults. simpl db.MinResults.
  replace (filter _ gap_example) with (take 3 gap_example) by (vm_compute; reflexivity).
  rewrite take_ge by (simpl; lia).
  replace (_ <? minResults) with false
    by (symmetry; apply Z.ltb_ge; unfold db.len; simpl; lia).
  reflexivity.
Qed.

(** C4, as the code has it.  The gap loop visits the indices
    [1 <= i < min (20, len)], the consecutive pairs among the first
    [min (20, len)] hits; it ends with the first largest positive gap [g]
    and its index [i], or with [0] and [0] when no gap is positive; no
    visited gap is strictly larger than [g].  The cutoff is
    [distance[i-1] + g/2] when [g > 0.05], [i > 0] and that value is below
    [maxDistance], and [maxDistance] in every other case.  For distances
    [0.1, 0.12, 0.13, 0.45, 0.46] and [maxDistance = 0.8] the cutoff is
    0.29000000000000004 in binary64, less than 1e-16 away from 0.29, and
    exactly the first three hits are kept. *)
Theorem adaptive_cutoff results maxDistance :
  let g := (db.largest_gap results).1 in
  let i := (db.largest_gap results).2 in
  let cutoff := PrimFloat.add (db.dist results (i - 1)) (PrimFloat.div g 2) in
  ((i = 0%nat /\ g = 0%float)
   \/ (scanned results i /\ g = db.gap_at results i /\ PrimFloat.ltb 0 g = true))
  /\ (forall j, scanned results j -> PrimFloat.ltb g (db.gap_at results j) = false)
  /\ db.calculateAdaptiveThreshold results maxDistance
     = (if PrimFloat.ltb 0.05 g && (0 <? i)%nat
        then (if PrimFloat.ltb cutoff maxDistance then cutoff else maxDistance)
        else maxDistance)
  /\ db.largest_gap gap_example = (PrimFloat.sub 0.45 0.13, 3%nat)
  /\ db.calculateAdaptiveThreshold gap_example 0.8 = gap_example_cutoff
  /\ PrimFloat.ltb (PrimFloat.abs (PrimFloat.sub gap_example_cutoff 0.29)) 1e-16 = true
  /\ (forall minResults maxResults,
        minResults <= 3 -> 3 <= maxResults ->
        db.filterByDistance gap_example
          {| db.MaxDistance := 0.8; db.MinResults := minResults;
             db.MaxResults := maxResults; db.UseAdaptive := true |}
        = Ok (take 3 gap_example)).
Proof.
  intros g i cutoff.
  destruct (largest_gap_state results) as [Hacc Hmax].
  split; [|split; [|split; [|split; [|split; [|split]]]]].
  - destruct Hacc as [H0|(Hin & Hg & Hpos)]; [left; exact H0|right].
    split; [apply gap_indices_scanned, Hin|]. split; assumption.
  - intros j Hj. apply Hmax, gap_indices_scanned, Hj.
  - apply calculateAdaptiveThreshold_spec.
  - vm_compute. reflexivity.
  - vm_compute. reflexivity.
  - vm_compute. reflexivity.
  - apply gap_example_filtered.
Qed.

Lemma adaptive_cutoff_witness :
  db.filterByDistance gap_example db.DefaultSearchOptions = Ok (take 3 gap_example).
Proof.
  apply (proj2 (proj2 (proj2 (proj2 (proj2 (proj2
           (adaptive_cutoff gap_example 0.8)))))) 2 20); lia.
Defined.

(** C4 as stated fails in its scan.  Of the twenty-one hits of
    [late_gap_example] the first twenty consecutive pairs are those of
    the indices 1 to 20; the pair of index 20 has the only gap, above
    0.05, and [distance[19] + gap/2] is below [maxDistance = 0.8], so the
    scan of twenty pairs gives that cutoff, which leaves the last hit
    out.  The loop of the code stops before index 20: it finds no gap,
    the cutoff is [maxDistance] and the last hit is kept. *)
Lemma adaptive_cutoff_misses_twentieth_pair :
  let claimed := PrimFloat.add (db.dist late_gap_example 19)
                   (PrimFloat.div (db.gap_at late_gap_example 20) 2) in
  length late_gap_example = 21%nat
  /\ Forall (fun j => PrimFloat.eqb (db.gap_at late_gap_example j) 0 = true) (seq 1 19)
  /\ PrimFloat.ltb 0.05 (db.gap_at late_gap_example 20) = true
  /\ PrimFloat.ltb claimed 0.8 = true
  /\ PrimFloat.ltb claimed (db.dist late_gap_example 20) = true
  /\ db.largest_gap late_gap_example = (0%float, 0%nat)
  /\ db.calculateAdaptiveThreshold late_gap_example 0.8 = 0.8%float
  /\ db.filterByDistance late_gap_example
       {| db.MaxDistance := 0.8; db.MinResults := 1; db.MaxResults := 25;
          db.UseAdaptive := true |}
     = Ok late_gap_example.
Proof.
  cbv zeta. split; [reflexivity|]. split; [|repeat split].
  vm_compute. repeat constructor.
Qed.

(** * Properties of the store *)

(** ** Running the monad *)

Lemma bind_Ok_inv {A B} (c : M A) (k : A -> M B) w b w' :
  bind c k w = (Ok b, w') -> exists a w1, c w = (Ok a, w1) /\ k a w1 = (Ok b, w').
Proof.
  unfold bind. destruct (c w) as [[a|e|m] w1]; intros H; try discriminate. eauto.
Qed.

Lemma wrap_err_Ok_inv {A} msg (c : M A) w a w' :
  wrap_err msg c w = (Ok a, w') -> c w = (Ok a, w').
Proof.
  unfold wrap_err. destruct (c w) as [[a1|e|m] w1]; intros H; congruence.
Qed.

Ltac run_monad :=
  unfold bind, wrap_err, attempt, lift, ret, fail, db.in_tx, db.Rollback, db.Begin,
    db.Commit, db.statement, db.sql_insert_file, db.sql_insert_vector,
    db.sql_delete_vector, db.sql_delete_file, db.sql_select_files, db.sql_select_paths,
    db.sql_select_project, db.sql_create_if_not_exists, models.Float32,
    db.SerializeFloat32, returned in *.

Ltac split_cases :=
  repeat (case_match; simplify_eq/=);
  repeat match goal with u : unit |- _ => destruct u end.

(** ** What each exported function does to the tables *)

Lemma SaveFileEmbedding_Ok env file emb w id w' :
  db.SaveFileEmbedding env file emb w = (Ok id, w') ->
  exists v, emb = Some v /\ id = sqlite_sequence (w_db w) + 1
    /\ w_db w' = mkStore (files (w_db w) ++ [models.mkFile id file (now env (w_stmts w))])
                         (context_vectors (w_db w) ++ [(id, map models.float32 v)])
                         id (dimensions (w_db w)) (projects (w_db w))
    /\ id ∉ vector_ids (w_db w).
Proof.
  unfold db.SaveFileEmbedding. run_monad. intros H. split_cases.
  eexists. repeat split; try reflexivity.
  match goal with H : bool_decide _ = false |- _ => apply bool_decide_eq_false in H end.
  assumption.
Qed.

Lemma UpdateFileEmbedding_Ok env fileID filePath emb w w' :
  db.UpdateFileEmbedding env fileID filePath emb w = (Ok tt, w') ->
  exists v ts, emb = Some v
    /\ w_db w' = mkStore
         (filter (fun f => models.ID f ≠ fileID) (files (w_db w))
            ++ [models.mkFile (sqlite_sequence (w_db w) + 1) filePath ts])
         (filter (fun v => v.1 ≠ fileID) (context_vectors (w_db w))
            ++ [(sqlite_sequence (w_db w) + 1, map models.float32 v)])
         (sqlite_sequence (w_db w) + 1) (dimensions (w_db w)) (projects (w_db w)).
Proof.
  unfold db.UpdateFileEmbedding. run_monad. intros H. split_cases.
  eexists _, _. split; reflexivity.
Qed.

Lemma UpdateFileEmbedding_failed env fileID filePath emb w r w' :
  db.UpdateFileEmbedding env fileID filePath emb w = (r, w') ->
  is_Ok r = false -> w_db w' = w_db w.
Proof.
  unfold db.UpdateFileEmbedding. run_monad. intros H Hr. split_cases; reflexivity.
Qed.

Lemma DeleteFileAndVector_Ok env fileID w w' :
  db.DeleteFileAndVector env fileID w = (Ok tt, w') ->
  w_db w' = mkStore
    (filter (fun f => models.ID f ≠ fileID) (files (w_db w)))
    (filter (fun v => v.1 ≠ fileID) (context_vectors (w_db w)))
    (sqlite_sequence (w_db w)) (dimensions (w_db w)) (projects (w_db w)).
Proof.
  unfold db.DeleteFileAndVector. run_monad. intros H. split_cases. reflexivity.
Qed.

Lemma DeleteFileAndVector_failed env fileID w r w' :
  db.DeleteFileAndVector env fileID w = (r, w') ->
  is_Ok r = false -> w_db w' = w_db w.
Proof.
  unfold db.DeleteFileAndVector. run_monad. intros H Hr. split_cases; reflexivity.
Qed.

Lemma SetupDatabase_Ok env alias dims w w' :
  db.SetupDatabase env alias dims w = (Ok tt, w') -> w_db w' = w_db w /\ w_log w' = w_log w.
Proof.
  unfold db.SetupDatabase, db.InitDB. run_monad. intros H. split_cases. split; reflexivity.
Qed.

Lemma GetProjectByAlias_Ok env alias w project w' :
  db.GetProjectByAlias env alias w = (Ok project, w') ->
  w_db w' = w_db w /\ w_log w' = w_log w /\ projects (w_db w) !! alias = Some project.
Proof.
  unfold db.GetProjectByAlias. run_monad. intros H. split_cases. repeat split.
Qed.

Lemma GetFilesToSync_Ok env w recs w' :
  db.GetFilesToSync env w = (Ok recs, w') ->
  w_db w' = w_db w /\ w_log w' = w_log w
  /\ recs = merge_sort db.created_before (files (w_db w)).
Proof.
  unfold db.GetFilesToSync. run_monad. intros H. split_cases. repeat split.
Qed.

Lemma GetProjectFilePaths_Ok env w m w' :
  db.GetProjectFilePaths env w = (Ok m, w') ->
  w_db w' = w_db w /\ w_log w' = w_log w
  /\ m = foldl (fun (filePaths : gmap string bool) path => <[path := true]> filePaths)
             ∅ (paths (w_db w)).
Proof.
  unfold db.GetProjectFilePaths. run_monad. intros H. split_cases. repeat split.
Qed.

Lemma Embeddings_db env clientName model text w r w' :
  client.Embeddings env clientName model text w = (r, w') ->
  w_db w' = w_db w /\ w_log w' = w_log w /\ w_stmts w' = w_stmts w.
Proof.
  unfold client.Embeddings. run_monad. intros H. split_cases; repeat split.
Qed.

(** ** The path sets *)

Lemma has_fold_insert {A} (g : A -> string) (l : list A) : forall (m : gmap string bool) k,
  sync.has (foldl (fun (acc : gmap string bool) x => <[g x := true]> acc) m l) k = true
  <-> sync.has m k = true \/ k ∈ g <$> l.
Proof.
  induction l as [|x l IH]; intros m k; simpl.
  - split; [auto|]. intros [H|H]; [exact H|inversion H].
  - rewrite IH. unfold sync.has at 1. rewrite elem_of_cons.
    destruct (decide (g x = k)) as [<-|Hne].
    + rewrite lookup_insert_eq. tauto.
    + rewrite lookup_insert_ne by assumption. fold (sync.has m k).
      split; [tauto|]. intros [H|[H|H]]; [tauto|congruence|tauto].
Qed.

Lemma has_empty k : sync.has ∅ k = false.
Proof. unfold sync.has. rewrite lookup_empty. reflexivity. Qed.

Lemma has_local_paths config localFiles k :
  sync.has (sync.local_paths config localFiles) k = true
  <-> k ∈ relative_paths (sync.ProjectPath config) localFiles.
Proof.
  unfold sync.local_paths, relative_paths.
  rewrite (has_fold_insert (fun f => sync.TrimPrefix f (sync.ProjectPath config))).
  rewrite has_empty. split; [intros [H|H]; [discriminate|exact H]|auto].
Qed.

Lemma has_stored_paths (l : list string) k :
  sync.has (foldl (fun (filePaths : gmap string bool) path => <[path := true]> filePaths)
              ∅ l) k = true
  <-> k ∈ l.
Proof.
  rewrite (has_fold_insert (fun path : string => path)).
  rewrite has_empty.
  replace ((fun path : string => path) <$> l) with l by (symmetry; apply list_fmap_id).
  split; [intros [H|H]; [discriminate|exact H]|auto].
Qed.

(** ** Well-formedness of the [files] table under the three changes *)

Lemma store_wf_append s id file ts vs ps :
  store_wf s -> id = sqlite_sequence s + 1 ->
  store_wf (mkStore (files s ++ [models.mkFile id file ts]) vs id (dimensions s) ps).
Proof.
  intros [Hnd Hle] ->. unfold store_wf, file_ids in *. simpl.
  rewrite fmap_app. simpl. split.
  - apply NoDup_app. split; [exact Hnd|]. split; [|apply NoDup_singleton].
    intros x Hx Hx'. apply list_elem_of_singleton in Hx'. subst x.
    rewrite Forall_forall in Hle. specialize (Hle _ Hx). lia.
  - apply Forall_app. split.
    + eapply Forall_impl; [exact Hle|]. simpl. intros; lia.
    + constructor; [lia|constructor].
Qed.

Lemma file_ids_filter id (l : list models.File) :
  models.ID <$> filter (fun f => models.ID f ≠ id) l `sublist_of` models.ID <$> l.
Proof. apply fmap_sublist, sublist_filter. Qed.

Lemma store_wf_remove s id vs ps :
  store_wf s ->
  store_wf (mkStore (filter (fun f => models.ID f ≠ id) (files s)) vs
                    (sqlite_sequence s) (dimensions s) ps).
Proof.
  intros [Hnd Hle]. unfold store_wf, file_ids in *. simpl. split.
  - eapply sublist_NoDup; [exact Hnd|apply file_ids_filter].
  - rewrite Forall_forall in Hle |- *. intros x Hx. apply Hle.
    eapply elem_of_sublist; [exact Hx|apply file_ids_filter].
Qed.

Lemma store_wf_replace s id file ts vs ps :
  store_wf s ->
  store_wf (mkStore (filter (fun f => models.ID f ≠ id) (files s)
                       ++ [models.mkFile (sqlite_sequence s + 1) file ts])
                    vs (sqlite_sequence s + 1) (dimensions s) ps).
Proof.
  intros Hwf.
  apply (store_wf_append
           (mkStore (filter (fun f => models.ID f ≠ id) (files s)) vs
                    (sqlite_sequence s) (dimensions s) ps)
           (sqlite_sequence s + 1) file ts vs ps); [|reflexivity].
  apply store_wf_remove, Hwf.
Qed.

Lemma file_id_unique s (a b : models.File) :
  store_wf s -> a ∈ files s -> b ∈ files s -> models.ID a = models.ID b -> a = b.
Proof.
  intros [Hnd _]. unfold file_ids in Hnd. revert Hnd.
  induction (files s) as [|x l IH]; intros Hnd Ha Hb Hid; [inversion Ha|].
  rewrite fmap_cons in Hnd. apply NoDup_cons in Hnd as [Hx Hnd].
  apply elem_of_cons in Ha as [->|Ha]; apply elem_of_cons in Hb as [->|Hb]; auto.
  - exfalso. apply Hx. rewrite Hid. apply list_elem_of_fmap_2, Hb.
  - exfalso. apply Hx. rewrite <- Hid. apply list_elem_of_fmap_2, Ha.
Qed.

(** * Properties of the sync *)

(** ** One iteration of each loop, when the sync goes on *)

Lemma SaveFileEmbedding_log env file emb w r w' :
  db.SaveFileEmbedding env file emb w = (r, w') -> w_log w' = w_log w.
Proof.
  unfold db.SaveFileEmbedding. run_monad. intros H. split_cases; reflexivity.
Qed.

Lemma UpdateFileEmbedding_log env fileID filePath emb w r w' :
  db.UpdateFileEmbedding env fileID filePath emb w = (r, w') -> w_log w' = w_log w.
Proof.
  unfold db.UpdateFileEmbedding. run_monad. intros H. split_cases; reflexivity.
Qed.

Lemma DeleteFileAndVector_log env fileID w r w' :
  db.DeleteFileAndVector env fileID w = (r, w') -> w_log w' = w_log w.
Proof.
  unfold db.DeleteFileAndVector. run_monad. intros H. split_cases; reflexivity.
Qed.

Lemma sync_new_files_cons_Ok env cfg ex f rest w w' :
  sync.sync_new_files env cfg ex (f :: rest) w = (Ok tt, w') ->
  exists w1 lines,
    sync.sync_new_files env cfg ex rest w1 = (Ok tt, w')
    /\ w_log w1 = w_log w ++ lines
    /\ (w_db w1 = w_db w
        \/ exists w0 emb id,
             w_db w0 = w_db w
             /\ db.SaveFileEmbedding env (sync.TrimPrefix f (sync.ProjectPath cfg)) emb w0
                = (Ok id, w1)
             /\ adding cfg f ∈ lines).
Proof.
  cbn [sync.sync_new_files].
  destruct (negb (sync.has ex (sync.TrimPrefix f (sync.ProjectPath cfg)))) eqn:Hnew.
  2:{ intros H. exists w, []. rewrite app_nil_r. auto. }
  unfold sync.log_Printf. run_monad. intros H.
  destruct (os_ReadFile env f) as [err|content].
  { eexists _, _. split; [exact H|]. simpl. split; [|left; reflexivity].
    rewrite <- app_assoc. reflexivity. }
  destruct (client.Embeddings _ _ _ _ _) as [[res|err|msg] w1] eqn:Hembed;
    [| |discriminate].
  - destruct (db.SaveFileEmbedding _ _ _ _) as [[id|e|msg] w2] eqn:Hsave;
      [|discriminate|discriminate].
    apply Embeddings_db in Hembed as (Hdb & Hlog & _). simpl in Hdb, Hlog.
    exists w2, [adding cfg f]. split; [exact H|].
    split; [rewrite (SaveFileEmbedding_log _ _ _ _ _ _ Hsave); exact Hlog|].
    right. exists w1, (models.GetEmbeddings res), id.
    split; [exact Hdb|]. split; [exact Hsave|]. apply list_elem_of_singleton. reflexivity.
  - apply Embeddings_db in Hembed as (Hdb & Hlog & _). simpl in Hdb, Hlog.
    eexists _, _. split; [exact H|]. simpl. split; [|left; exact Hdb].
    rewrite Hlog, <- app_assoc. reflexivity.
Qed.

Lemma sync_existing_files_cons_Ok env cfg lp r rest w w' :
  sync.sync_existing_files env cfg lp (r :: rest) w = (Ok tt, w') ->
  exists w1 lines,
    sync.sync_existing_files env cfg lp rest w1 = (Ok tt, w')
    /\ w_log w1 = w_log w ++ lines
    /\ ((sync.has lp (models.FilePath r) = true
         /\ updating r ∈ lines
         /\ (w_db w1 = w_db w
             \/ exists w0 emb,
                  w_db w0 = w_db w
                  /\ db.UpdateFileEmbedding env (models.ID r) (models.FilePath r) emb w0
                     = (Ok tt, w1)))
        \/ (sync.has lp (models.FilePath r) = false
            /\ removing r ∈ lines
            /\ exists w0,
                 w_db w0 = w_db w
                 /\ db.DeleteFileAndVector env (models.ID r) w0 = (Ok tt, w1))).
Proof.
  cbn [sync.sync_existing_files].
  destruct (sync.has lp (models.FilePath r)) eqn:Hlocal;
    unfold sync.log_Printf; run_monad; intros H.
  - destruct (os_ReadFile env _) as [err|content].
    { eexists _, _. split; [exact H|]. simpl. split; [rewrite <- app_assoc; reflexivity|].
      left. split; [reflexivity|]. split; [|left; reflexivity].
      apply elem_of_cons. left. reflexivity. }
    destruct (client.Embeddings _ _ _ _ _) as [[res|err|msg] w1] eqn:Hembed;
      [| |discriminate].
    + destruct (db.UpdateFileEmbedding _ _ _ _ _) as [[[]|e|msg] w2] eqn:Hupdate;
        [|discriminate|discriminate].
      apply Embeddings_db in Hembed as (Hdb & Hlog & _). simpl in Hdb, Hlog.
      exists w2, [updating r]. split; [exact H|].
      split; [rewrite (UpdateFileEmbedding_log _ _ _ _ _ _ _ Hupdate); exact Hlog|].
      left. split; [reflexivity|]. split; [apply list_elem_of_singleton; reflexivity|].
      right. exists w1, (models.GetEmbeddings res). auto.
    + apply Embeddings_db in Hembed as (Hdb & Hlog & _). simpl in Hdb, Hlog.
      eexists _, _. split; [exact H|]. simpl.
      split; [rewrite Hlog, <- app_assoc; reflexivity|].
      left. split; [reflexivity|]. split; [|left; exact Hdb].
      apply elem_of_cons. left. reflexivity.
  - destruct (db.DeleteFileAndVector _ _ _) as [[[]|e|msg] w2] eqn:Hdelete;
      [|discriminate|discriminate].
    exists w2, [removing r]. split; [exact H|].
    split; [rewrite (DeleteFileAndVector_log _ _ _ _ _ Hdelete); reflexivity|].
    right. split; [reflexivity|]. split; [apply list_elem_of_singleton; reflexivity|].
    eexists. split; [|exact Hdelete]. reflexivity.
Qed.

(** ** The first loop only adds rows, and only rows of local files *)

Lemma sync_new_files_Ok env cfg ex localFiles : forall w w',
  sync.sync_new_files env cfg ex localFiles w = (Ok tt, w') ->
  (store_wf (w_db w) -> store_wf (w_db w'))
  /\ projects (w_db w') = projects (w_db w)
  /\ (forall p, p ∈ paths (w_db w) -> p ∈ paths (w_db w'))
  /\ (forall p, p ∈ paths (w_db w') ->
        p ∈ paths (w_db w) \/ p ∈ relative_paths (sync.ProjectPath cfg) localFiles).
Proof.
  induction localFiles as [|f rest IH]; intros w w' H.
  - cbn in H. injection H as <-.
    split; [auto|]. split; [reflexivity|]. split; auto.
  - apply sync_new_files_cons_Ok in H as (w1 & lines & Hrest & _ & Hstep).
    apply IH in Hrest as (Hwf & Hproj & Hkeep & Hnew).
    unfold relative_paths in *. rewrite fmap_cons.
    destruct Hstep as [Hdb|(w0 & emb & id & Hdb & Hsave & _)].
    + rewrite Hdb in *. split; [auto|]. split; [auto|]. split; [auto|].
      intros p Hp. destruct (Hnew p Hp); [auto|]. right. apply elem_of_cons. auto.
    + apply SaveFileEmbedding_Ok in Hsave as (v & -> & Hid & Hdb1 & _).
      rewrite Hdb in *.
      assert (paths (w_db w1)
              = paths (w_db w) ++ [sync.TrimPrefix f (sync.ProjectPath cfg)]) as Hpaths.
      { unfold paths. rewrite Hdb1. simpl. rewrite fmap_app. reflexivity. }
      split; [|split; [|split]].
      * intros Hw. apply Hwf. rewrite Hdb1. apply store_wf_append; assumption.
      * rewrite Hproj, Hdb1. reflexivity.
      * intros p Hp. apply Hkeep. rewrite Hpaths. apply elem_of_app. auto.
      * intros p Hp. destruct (Hnew p Hp) as [Hp1|Hp1].
        -- rewrite Hpaths in Hp1. apply elem_of_app in Hp1 as [Hp1|Hp1]; [auto|].
           apply list_elem_of_singleton in Hp1. right. apply elem_of_cons. auto.
        -- right. apply elem_of_cons. auto.
Qed.

(** ** The second loop replaces or removes each row it visits *)

Lemma paths_elem (s : Store) p :
  p ∈ paths s <-> exists row, row ∈ files s /\ models.FilePath row = p.
Proof.
  unfold paths. rewrite list_elem_of_fmap. split; intros (row & H1 & H2); eauto.
Qed.

Lemma sync_existing_files_Ok env cfg lp recs : forall w w',
  sync.sync_existing_files env cfg lp recs w = (Ok tt, w') ->
  store_wf (w_db w) ->
  Forall (fun r => models.ID r <= sqlite_sequence (w_db w)) recs ->
  (forall row r, row ∈ files (w_db w) -> r ∈ recs -> models.ID row = models.ID r -> row = r) ->
  store_wf (w_db w')
  /\ projects (w_db w') = projects (w_db w)
  /\ (forall row, row ∈ files (w_db w') ->
        sync.has lp (models.FilePath row) = true
        \/ (row ∈ files (w_db w) /\ row ∉ recs))
  /\ (forall p, sync.has lp p = true -> p ∈ paths (w_db w) -> p ∈ paths (w_db w')).
Proof.
  induction recs as [|r rest IH]; intros w w' H Hwf Hle Hkey.
  - cbn in H. injection H as <-.
    split; [auto|]. split; [reflexivity|]. split; [|auto].
    intros row Hrow. right. split; [exact Hrow|]. intros Hin. inversion Hin.
  - apply sync_existing_files_cons_Ok in H as (w1 & lines & Hrest & _ & Hstep).
    apply Forall_cons in Hle as [Hr Hle].
    destruct Hstep as [(Hhas & _ & [Hdb|(w0 & emb & Hdb & Hupd)])|(Hhas & _ & w0 & Hdb & Hdel)].
    + (* the row is kept as it is *)
      apply IH in Hrest as (Hwf' & Hproj & Hrows & Hkeep); rewrite ?Hdb; auto.
      2:{ intros row r' Hrow Hr'. apply Hkey; [exact Hrow|]. apply elem_of_cons. auto. }
      rewrite Hdb in *. split; [auto|]. split; [auto|]. split; [|auto].
      intros row Hrow. destruct (Hrows row Hrow) as [Hl|[Hin Hnot]]; [auto|].
      destruct (decide (row = r)) as [->|Hne]; [auto|]. right. split; [exact Hin|].
      intros Hc. apply elem_of_cons in Hc as [Hc|Hc]; auto.
    + (* the row is replaced *)
      apply UpdateFileEmbedding_Ok in Hupd as (v & ts & -> & Hdb1).
      rewrite Hdb in Hdb1.
      apply IH in Hrest as (Hwf' & Hproj & Hrows & Hkeep).
      * split; [auto|]. split; [rewrite Hproj, Hdb1; reflexivity|]. split.
        -- intros row Hrow. destruct (Hrows row Hrow) as [Hl|[Hin Hnot]]; [auto|].
           rewrite Hdb1 in Hin. simpl in Hin. apply elem_of_app in Hin as [Hin|Hin].
           ++ apply list_elem_of_filter in Hin as [Hid Hin]. right. split; [exact Hin|].
              intros Hc. apply elem_of_cons in Hc as [Hc|Hc]; [subst row|]; auto.
           ++ apply list_elem_of_singleton in Hin. subst row. left. exact Hhas.
        -- intros p Hp Hin. apply Hkeep; [exact Hp|].
           apply paths_elem in Hin as (row & Hrow & <-). apply paths_elem.
           rewrite Hdb1. simpl.
           destruct (decide (models.ID row = models.ID r)) as [Hid|Hid].
           ++ assert (row = r) as -> by (apply Hkey; [exact Hrow|apply elem_of_cons; auto|exact Hid]).
              eexists. split; [apply elem_of_app; right; apply list_elem_of_singleton; reflexivity|].
              reflexivity.
           ++ exists row. split; [|reflexivity]. apply elem_of_app. left.
              apply list_elem_of_filter. auto.
      * rewrite Hdb1. apply store_wf_replace, Hwf.
      * rewrite Hdb1. simpl. eapply Forall_impl; [exact Hle|]. simpl. intros; lia.
      * intros row r' Hrow Hr' Hid. rewrite Hdb1 in Hrow. simpl in Hrow.
        apply elem_of_app in Hrow as [Hrow|Hrow].
        -- apply list_elem_of_filter in Hrow as [_ Hrow].
           apply Hkey; [exact Hrow|apply elem_of_cons; auto|exact Hid].
        -- apply list_elem_of_singleton in Hrow. subst row. simpl in Hid.
           rewrite Forall_forall in Hle. specialize (Hle _ Hr'). simpl in Hle. lia.
    + (* the row is removed *)
      apply DeleteFileAndVector_Ok in Hdel. rewrite Hdb in Hdel.
      apply IH in Hrest as (Hwf' & Hproj & Hrows & Hkeep).
      * split; [auto|]. split; [rewrite Hproj, Hdel; reflexivity|]. split.
        -- intros row Hrow. destruct (Hrows row Hrow) as [Hl|[Hin Hnot]]; [auto|].
           rewrite Hdel in Hin. simpl in Hin.
           apply list_elem_of_filter in Hin as [Hid Hin]. right. split; [exact Hin|].
           intros Hc. apply elem_of_cons in Hc as [Hc|Hc]; [subst row|]; auto.
        -- intros p Hp Hin. apply Hkeep; [exact Hp|].
           apply paths_elem in Hin as (row & Hrow & <-). apply paths_elem.
           rewrite Hdel. simpl. exists row. split; [|reflexivity].
           apply list_elem_of_filter. split; [|exact Hrow]. intros Hid.
           assert (row = r) as -> by (apply Hkey; [exact Hrow|apply elem_of_cons; auto|exact Hid]).
           congruence.
      * rewrite Hdel. apply store_wf_remove, Hwf.
      * rewrite Hdel. simpl. exact Hle.
      * intros row r' Hrow Hr' Hid. rewrite Hdel in Hrow. simpl in Hrow.
        apply list_elem_of_filter in Hrow as [_ Hrow].
        apply Hkey; [exact Hrow|apply elem_of_cons; auto|exact Hid].
Qed.

(** ** A complete sync *)

Lemma RunSync_Ok env alias w w' :
  sync.RunSync env alias w = (Ok tt, w') ->
  exists project localFiles existingFilePaths wa wb wc,
    projects (w_db w) !! alias = Some project
    /\ file_RecursiveFiles env (models.Path project) (models.Extensions project)
       = inr localFiles
    /\ w_db wa = w_db w
    /\ w_log wa = w_log w ++ ["Processing new files"]
    /\ (forall p, sync.has existingFilePaths p = true <-> p ∈ paths (w_db w))
    /\ sync.sync_new_files env (config_of project) existingFilePaths localFiles wa
       = (Ok tt, wb)
    /\ w_db wc = w_db wb
    /\ w_log wc = w_log wb ++ ["Processing existing files"]
    /\ sync.sync_existing_files env (config_of project)
         (sync.local_paths (config_of project) localFiles)
         (merge_sort db.created_before (files (w_db wb))) wc
       = (Ok tt, w').
Proof.
  unfold sync.RunSync. intros H.
  apply bind_Ok_inv in H as ([] & w1 & Hsetup & H).
  apply wrap_err_Ok_inv, SetupDatabase_Ok in Hsetup as [Hsetup Hlog1].
  apply bind_Ok_inv in H as (project & w2 & Hproject & H).
  apply wrap_err_Ok_inv, GetProjectByAlias_Ok in Hproject as (Hdb2 & Hlog2 & Hproject).
  apply bind_Ok_inv in H as (localFiles & w3 & Hlocal & H).
  apply wrap_err_Ok_inv in Hlocal. unfold lift in Hlocal. simpl in Hlocal.
  destruct (file_RecursiveFiles env (models.Path project) (models.Extensions project))
    as [e|l] eqn:Hwalk; simpl in Hlocal; [discriminate|].
  injection Hlocal as -> ->.
  apply bind_Ok_inv in H as (existingFilePaths & w4 & Hpaths & H).
  apply wrap_err_Ok_inv, GetProjectFilePaths_Ok in Hpaths as (Hdb4 & Hlog4 & ->).
  apply bind_Ok_inv in H as ([] & w5 & Hlog & H).
  unfold sync.log_Printf in Hlog. injection Hlog as <-.
  apply bind_Ok_inv in H as ([] & w6 & Hnew & H).
  apply bind_Ok_inv in H as ([] & w7 & Hlog & H).
  unfold sync.log_Printf in Hlog. injection Hlog as <-.
  apply bind_Ok_inv in H as (existingFiles & w8 & Hfiles & H).
  apply wrap_err_Ok_inv, GetFilesToSync_Ok in Hfiles as (Hdb8 & Hlog8 & ->).
  simpl in Hdb8, Hlog8.
  eexists project, localFiles, _, _, w6, w8.
  split; [rewrite <- Hsetup; exact Hproject|]. split; [exact Hwalk|].
  split; [|split; [|split; [|split; [exact Hnew|split; [exact Hdb8|split; [exact Hlog8|exact H]]]]]].
  - simpl. rewrite Hdb4, Hdb2, Hsetup. reflexivity.
  - simpl. rewrite Hlog4, Hlog2, Hlog1. reflexivity.
  - intros p. rewrite has_stored_paths, Hdb2, Hsetup. reflexivity.
Qed.

Lemma local_set_project env s alias project localFiles :
  projects s !! alias = Some project ->
  file_RecursiveFiles env (models.Path project) (models.Extensions project) = inr localFiles ->
  local_set env s alias = relative_paths (models.Path project) localFiles.
Proof. intros Hp Hw. unfold local_set. rewrite Hp, Hw. reflexivity. Qed.

(** After a sync that completed, the stored paths are local paths, and
    every local path that was stored before is still stored. *)
Lemma RunSync_paths env alias w w' :
  sync.RunSync env alias w = (Ok tt, w') ->
  store_wf (w_db w) ->
  store_wf (w_db w')
  /\ projects (w_db w') = projects (w_db w)
  /\ (forall p, p ∈ paths (w_db w') -> p ∈ local_set env (w_db w) alias)
  /\ (forall p, p ∈ local_set env (w_db w) alias -> p ∈ paths (w_db w) ->
        p ∈ paths (w_db w')).
Proof.
  intros H Hwf.
  apply RunSync_Ok in H
    as (project & localFiles & ex & wa & wb & wc & Hp & Hwalk & Hdba & _ & Hex & Hnew & Hdbc & _ & Hold).
  rewrite (local_set_project env _ alias project localFiles Hp Hwalk).
  apply sync_new_files_Ok in Hnew as (Hwf1 & Hproj1 & Hkeep1 & _).
  rewrite Hdba in *. specialize (Hwf1 Hwf).
  apply sync_existing_files_Ok in Hold as (Hwf2 & Hproj2 & Hrows & Hkeep2).
  - rewrite Hdbc in *. split; [exact Hwf2|]. split; [congruence|]. split.
    + intros p Hp'. apply paths_elem in Hp' as (row & Hrow & <-).
      destruct (Hrows row Hrow) as [Hhas|[Hin Hnot]].
      * apply has_local_paths in Hhas. exact Hhas.
      * exfalso. apply Hnot. rewrite merge_sort_Permutation. exact Hin.
    + intros p HpL Hin. apply Hkeep2; [|auto].
      apply (has_local_paths (config_of project)). exact HpL.
  - rewrite Hdbc. exact Hwf1.
  - rewrite Hdbc. destruct Hwf1 as [_ Hle]. unfold file_ids in Hle.
    rewrite Forall_fmap in Hle. rewrite merge_sort_Permutation. exact Hle.
  - intros row r Hrow Hr Hid. rewrite merge_sort_Permutation in Hr.
    rewrite Hdbc in Hrow. exact (file_id_unique _ _ _ Hwf1 Hrow Hr Hid).
Qed.

(** C9, as the code has it: when two syncs in a row both complete, with
    the same local files, every path stored after the first is stored
    after the second; a path stored after the second is a local file; and
    the two sets are equal whenever the first sync stored every local
    file.  The second sync may be another process: it starts from the
    tables the first one left and sees the same tree, and nothing else is
    assumed of its environment. *)
Theorem RunSync_twice env env' alias w0 w1 w1' w2 :
  store_wf (w_db w0) ->
  sync.RunSync env alias w0 = (Ok tt, w1) ->
  (forall root extensions,
     file_RecursiveFiles env' root extensions = file_RecursiveFiles env root extensions) ->
  w_db w1' = w_db w1 ->
  sync.RunSync env' alias w1' = (Ok tt, w2) ->
  (forall p, p ∈ paths (w_db w1) -> p ∈ paths (w_db w2))
  /\ (forall p, p ∈ paths (w_db w2) -> p ∈ local_set env (w_db w0) alias)
  /\ ((forall p, p ∈ local_set env (w_db w0) alias -> p ∈ paths (w_db w1)) ->
      forall p, p ∈ paths (w_db w2) <-> p ∈ paths (w_db w1)).
Proof.
  intros Hwf H1 Htree Hdb H2.
  apply RunSync_paths in H1 as (Hwf1 & Hproj1 & Hlocal1 & _); [|exact Hwf].
  apply RunSync_paths in H2 as (_ & _ & Hlocal2 & Hkeep2); [|rewrite Hdb; exact Hwf1].
  assert (local_set env' (w_db w1') alias = local_set env (w_db w0) alias) as HL.
  { unfold local_set. rewrite Hdb, Hproj1.
    destruct (projects (w_db w0) !! alias); [|reflexivity]. rewrite Htree. reflexivity. }
  rewrite HL, Hdb in *.
  split; [|split].
  - intros p Hp. apply Hkeep2; auto.
  - exact Hlocal2.
  - intros Hall p. split; intros Hp; auto.
Qed.

Lemma RunSync_twice_witness :
  (forall p, p ∈ paths (w_db (after (sync.RunSync env_ok "demo" demo_world))) ->
     p ∈ paths (w_db (after (sync.RunSync env_ok "demo"
                                (after (sync.RunSync env_ok "demo" demo_world))))))
  /\ (forall p, p ∈ paths (w_db (after (sync.RunSync env_ok "demo"
                                          (after (sync.RunSync env_ok "demo" demo_world))))) ->
        p ∈ local_set env_ok (w_db demo_world) "demo")
  /\ ((forall p, p ∈ local_set env_ok (w_db demo_world) "demo" ->
         p ∈ paths (w_db (after (sync.RunSync env_ok "demo" demo_world)))) ->
      forall p, p ∈ paths (w_db (after (sync.RunSync env_ok "demo"
                                          (after (sync.RunSync env_ok "demo" demo_world)))))
                <-> p ∈ paths (w_db (after (sync.RunSync env_ok "demo" demo_world)))).
Proof.
  apply (RunSync_twice env_ok env_ok "demo" demo_world
           (after (sync.RunSync env_ok "demo" demo_world))
           (after (sync.RunSync env_ok "demo" demo_world))).
  - split.
    + apply (bool_decide_unpack _). vm_compute. exact I.
    + apply (bool_decide_unpack _). vm_compute. exact I.
  - vm_compute. reflexivity.
  - reflexivity.
  - reflexivity.
  - vm_compute. reflexivity.
Defined.

(** C9 as stated fails: the provider refuses the first call and answers
    the later ones, the local files do not change, both syncs complete;
    [/a] is absent from the table after the first sync and present after
    the second. *)
Lemma RunSync_twice_membership_changes :
  sync.RunSync env_flaky "demo" empty_world
  = (Ok tt, after (sync.RunSync env_flaky "demo" empty_world))
  /\ sync.RunSync env_flaky "demo" (after (sync.RunSync env_flaky "demo" empty_world))
     = (Ok tt, after (sync.RunSync env_flaky "demo"
                        (after (sync.RunSync env_flaky "demo" empty_world))))
  /\ paths (w_db (after (sync.RunSync env_flaky "demo" empty_world))) = []
  /\ paths (w_db (after (sync.RunSync env_flaky "demo"
                           (after (sync.RunSync env_flaky "demo" empty_world)))))
     = ["/a"].
Proof. vm_compute. repeat split. Qed.

(** ** Failures during a sync *)

Section Failures.
Variable env : Env.
Variable cfg : sync.Config.

Lemma new_file_read_failure ex f rest w err :
  sync.has ex (sync.TrimPrefix f (sync.ProjectPath cfg)) = false ->
  os_ReadFile env f = inl err ->
  sync.sync_new_files env cfg ex (f :: rest) w
  = sync.sync_new_files env cfg ex rest (logged w [adding cfg f; read_error f err]).
Proof.
  intros Hnew Hread. cbn [sync.sync_new_files]. rewrite Hnew, Hread. change (negb false) with true. cbv beta iota.
  unfold bind, sync.log_Printf. simpl. rewrite <- app_assoc. reflexivity.
Qed.

Lemma new_file_embed_failure ex f rest w content err w1 :
  sync.has ex (sync.TrimPrefix f (sync.ProjectPath cfg)) = false ->
  os_ReadFile env f = inr content ->
  embed env cfg (sync.TrimPrefix f (sync.ProjectPath cfg)) content (logged w [adding cfg f])
  = (Err err, w1) ->
  sync.sync_new_files env cfg ex (f :: rest) w
  = sync.sync_new_files env cfg ex rest (logged w1 [embed_error f err])
  /\ w_db w1 = w_db w.
Proof.
  intros Hnew Hread Hembed. split.
  - cbn [sync.sync_new_files]. rewrite Hnew, Hread. change (negb false) with true. cbv beta iota.
    unfold bind, attempt, sync.log_Printf. unfold embed, logged, adding, updating in Hembed.
    cbn [w_db w_stmts w_calls w_log]. rewrite Hembed. reflexivity.
  - apply Embeddings_db in Hembed as [Hdb _]. exact Hdb.
Qed.

Lemma new_file_insert_failure ex f rest w content res w1 e w2 :
  sync.has ex (sync.TrimPrefix f (sync.ProjectPath cfg)) = false ->
  os_ReadFile env f = inr content ->
  embed env cfg (sync.TrimPrefix f (sync.ProjectPath cfg)) content (logged w [adding cfg f])
  = (Ok res, w1) ->
  db.SaveFileEmbedding env (sync.TrimPrefix f (sync.ProjectPath cfg))
    (models.GetEmbeddings res) w1 = (Err e, w2) ->
  sync.sync_new_files env cfg ex (f :: rest) w
  = (Err (Errorf ("error saving embedding for file " +:+ f) e), w2).
Proof.
  intros Hnew Hread Hembed Hsave.
  cbn [sync.sync_new_files]. rewrite Hnew, Hread. change (negb false) with true. cbv beta iota.
  unfold bind, attempt, wrap_err, sync.log_Printf. unfold embed, logged, adding, updating in Hembed.
  cbn [w_db w_stmts w_calls w_log]. rewrite Hembed, Hsave. reflexivity.
Qed.

Lemma existing_file_read_failure lp r rest w err :
  sync.has lp (models.FilePath r) = true ->
  os_ReadFile env (full_path env cfg r) = inl err ->
  sync.sync_existing_files env cfg lp (r :: rest) w
  = sync.sync_existing_files env cfg lp rest
      (logged w [updating r; read_error (full_path env cfg r) err]).
Proof.
  intros Hlocal Hread. cbn [sync.sync_existing_files]. unfold full_path in Hread |- *.
  rewrite Hlocal, Hread.
  unfold bind, sync.log_Printf. simpl. rewrite <- app_assoc. reflexivity.
Qed.

Lemma existing_file_embed_failure lp r rest w content err w1 :
  sync.has lp (models.FilePath r) = true ->
  os_ReadFile env (full_path env cfg r) = inr content ->
  embed env cfg (models.FilePath r) content (logged w [updating r]) = (Err err, w1) ->
  sync.sync_existing_files env cfg lp (r :: rest) w
  = sync.sync_existing_files env cfg lp rest (logged w1 [embed_error (full_path env cfg r) err])
  /\ w_db w1 = w_db w.
Proof.
  intros Hlocal Hread Hembed. split.
  - cbn [sync.sync_existing_files]. unfold full_path in Hread |- *. rewrite Hlocal, Hread.
    unfold bind, attempt, sync.log_Printf. unfold embed, logged, adding, updating in Hembed.
    cbn [w_db w_stmts w_calls w_log]. rewrite Hembed. reflexivity.
  - apply Embeddings_db in Hembed as [Hdb _]. exact Hdb.
Qed.

Lemma existing_file_update_failure lp r rest w content res w1 e w2 :
  sync.has lp (models.FilePath r) = true ->
  os_ReadFile env (full_path env cfg r) = inr content ->
  embed env cfg (models.FilePath r) content (logged w [updating r]) = (Ok res, w1) ->
  db.UpdateFileEmbedding env (models.ID r) (models.FilePath r)
    (models.GetEmbeddings res) w1 = (Err e, w2) ->
  sync.sync_existing_files env cfg lp (r :: rest) w
  = (Err (Errorf ("error updating embedding for file " +:+ full_path env cfg r) e), w2)
  /\ w_db w2 = w_db w.
Proof.
  intros Hlocal Hread Hembed Hupdate. split.
  - cbn [sync.sync_existing_files]. unfold full_path in Hread |- *. rewrite Hlocal, Hread.
    unfold bind, attempt, wrap_err, sync.log_Printf. unfold embed, logged, adding, updating in Hembed.
    cbn [w_db w_stmts w_calls w_log]. rewrite Hembed, Hupdate. reflexivity.
  - apply UpdateFileEmbedding_failed in Hupdate; [|reflexivity].
    apply Embeddings_db in Hembed as [Hdb _]. rewrite Hupdate, Hdb. reflexivity.
Qed.

Lemma existing_file_delete_failure lp r rest w e w2 :
  sync.has lp (models.FilePath r) = false ->
  db.DeleteFileAndVector env (models.ID r) (logged w [removing r]) = (Err e, w2) ->
  sync.sync_existing_files env cfg lp (r :: rest) w
  = (Err (Errorf ("error deleting file and vector for file " +:+ models.FilePath r) e), w2)
  /\ w_db w2 = w_db w.
Proof.
  intros Hgone Hdelete. split.
  - cbn [sync.sync_existing_files]. rewrite Hgone.
    unfold bind, wrap_err, sync.log_Printf. unfold logged, removing in Hdelete.
    rewrite Hdelete. reflexivity.
  - apply DeleteFileAndVector_failed in Hdelete; [|reflexivity]. exact Hdelete.
Qed.

End Failures.

(** [RunSync] is its three phases in sequence. *)
Lemma RunSync_phases env alias w :
  sync.RunSync env alias w
  = bind (sync_start env alias)
      (fun x =>
         bind (sync.sync_new_files env (config_of x.1.1) x.2 x.1.2)
           (fun _ => sync_finish env (config_of x.1.1) x.1.2)) w.
Proof.
  unfold sync.RunSync, sync_start, sync_finish, config_of, bind, ret.
  repeat (case_match; simplify_eq/=; try reflexivity).
Qed.

Lemma RunSync_new_files_failure env alias w project localFiles ex w1 e w2 :
  sync_start env alias w = (Ok (project, localFiles, ex), w1) ->
  sync.sync_new_files env (config_of project) ex localFiles w1 = (Err e, w2) ->
  sync.RunSync env alias w = (Err e, w2).
Proof.
  intros Hstart Hnew. rewrite RunSync_phases. unfold bind at 1. rewrite Hstart.
  unfold bind at 1. simpl. rewrite Hnew. reflexivity.
Qed.

Lemma RunSync_existing_files_failure env alias w project localFiles ex w1 w2 recs w3 e w4 :
  sync_start env alias w = (Ok (project, localFiles, ex), w1) ->
  sync.sync_new_files env (config_of project) ex localFiles w1 = (Ok tt, w2) ->
  db.GetFilesToSync env (logged w2 ["Processing existing files"]) = (Ok recs, w3) ->
  sync.sync_existing_files env (config_of project)
    (sync.local_paths (config_of project) localFiles) recs w3 = (Err e, w4) ->
  sync.RunSync env alias w = (Err e, w4).
Proof.
  intros Hstart Hnew Hquery Hold. rewrite RunSync_phases. unfold bind at 1. rewrite Hstart.
  unfold bind at 1. simpl. rewrite Hnew.
  unfold sync_finish, bind, wrap_err, sync.log_Printf. unfold logged in Hquery.
  rewrite Hquery. exact Hold.
Qed.

(** C6: in both loops of the sync a file whose content cannot be read or
    whose provider call fails is logged and skipped: the loop goes on with
    the remaining files and the tables are as they were.  A failing insert,
    update or delete ends the loop at once with that error wrapped, no
    further file is visited, and [RunSync] returns the error of either
    loop as its own. *)
Theorem sync_failures env cfg :
  (forall ex f rest w err,
     sync.has ex (sync.TrimPrefix f (sync.ProjectPath cfg)) = false ->
     os_ReadFile env f = inl err ->
     sync.sync_new_files env cfg ex (f :: rest) w
     = sync.sync_new_files env cfg ex rest (logged w [adding cfg f; read_error f err]))
  /\ (forall ex f rest w content err w1,
        sync.has ex (sync.TrimPrefix f (sync.ProjectPath cfg)) = false ->
        os_ReadFile env f = inr content ->
        embed env cfg (sync.TrimPrefix f (sync.ProjectPath cfg)) content
          (logged w [adding cfg f]) = (Err err, w1) ->
        sync.sync_new_files env cfg ex (f :: rest) w
        = sync.sync_new_files env cfg ex rest (logged w1 [embed_error f err])
        /\ w_db w1 = w_db w)
  /\ (forall lp r rest w err,
        sync.has lp (models.FilePath r) = true ->
        os_ReadFile env (full_path env cfg r) = inl err ->
        sync.sync_existing_files env cfg lp (r :: rest) w
        = sync.sync_existing_files env cfg lp rest
            (logged w [updating r; read_error (full_path env cfg r) err]))
  /\ (forall lp r rest w content err w1,
        sync.has lp (models.FilePath r) = true ->
        os_ReadFile env (full_path env cfg r) = inr content ->
        embed env cfg (models.FilePath r) content (logged w [updating r]) = (Err err, w1) ->
        sync.sync_existing_files env cfg lp (r :: rest) w
        = sync.sync_existing_files env cfg lp rest
            (logged w1 [embed_error (full_path env cfg r) err])
        /\ w_db w1 = w_db w)
  /\ (forall ex f rest w content res w1 e w2,
        sync.has ex (sync.TrimPrefix f (sync.ProjectPath cfg)) = false ->
        os_ReadFile env f = inr content ->
        embed env cfg (sync.TrimPrefix f (sync.ProjectPath cfg)) content
          (logged w [adding cfg f]) = (Ok res, w1) ->
        db.SaveFileEmbedding env (sync.TrimPrefix f (sync.ProjectPath cfg))
          (models.GetEmbeddings res) w1 = (Err e, w2) ->
        sync.sync_new_files env cfg ex (f :: rest) w
        = (Err (Errorf ("error saving embedding for file " +:+ f) e), w2))
  /\ (forall lp r rest w content res w1 e w2,
        sync.has lp (models.FilePath r) = true ->
        os_ReadFile env (full_path env cfg r) = inr content ->
        embed env cfg (models.FilePath r) content (logged w [updating r]) = (Ok res, w1) ->
        db.UpdateFileEmbedding env (models.ID r) (models.FilePath r)
          (models.GetEmbeddings res) w1 = (Err e, w2) ->
        sync.sync_existing_files env cfg lp (r :: rest) w
        = (Err (Errorf ("error updating embedding for file " +:+ full_path env cfg r) e), w2)
        /\ w_db w2 = w_db w)
  /\ (forall lp r rest w e w2,
        sync.has lp (models.FilePath r) = false ->
        db.DeleteFileAndVector env (models.ID r) (logged w [removing r]) = (Err e, w2) ->
        sync.sync_existing_files env cfg lp (r :: rest) w
        = (Err (Errorf ("error deleting file and vector for file " +:+ models.FilePath r) e),
           w2)
        /\ w_db w2 = w_db w)
  /\ (forall alias w project localFiles ex w1 e w2,
        sync_start env alias w = (Ok (project, localFiles, ex), w1) ->
        sync.sync_new_files env (config_of project) ex localFiles w1 = (Err e, w2) ->
        sync.RunSync env alias w = (Err e, w2))
  /\ (forall alias w project localFiles ex w1 w2 recs w3 e w4,
        sync_start env alias w = (Ok (project, localFiles, ex), w1) ->
        sync.sync_new_files env (config_of project) ex localFiles w1 = (Ok tt, w2) ->
        db.GetFilesToSync env (logged w2 ["Processing existing files"]) = (Ok recs, w3) ->
        sync.sync_existing_files env (config_of project)
          (sync.local_paths (config_of project) localFiles) recs w3 = (Err e, w4) ->
        sync.RunSync env alias w = (Err e, w4)).
Proof.
  split; [apply new_file_read_failure|].
  split; [apply new_file_embed_failure|].
  split; [apply existing_file_read_failure|].
  split; [apply existing_file_embed_failure|].
  split; [apply new_file_insert_failure|].
  split; [apply existing_file_update_failure|].
  split; [apply existing_file_delete_failure|].
  split; [apply RunSync_new_files_failure|apply RunSync_existing_files_failure].
Qed.

Lemma sync_failures_witness :
  (sync.sync_new_files env_flaky (config_of demo_project) ∅ ["/p/a"] empty_world
   = sync.sync_new_files env_flaky (config_of demo_project) ∅ []
       (logged (mkWorld empty_store 0 1 ["Adding new file: /a"])
          [embed_error "/p/a" (errors_New "failed to send request: connection refused")])
   /\ w_db (mkWorld empty_store 0 1 ["Adding new file: /a"]) = w_db empty_world)
  /\ sync.sync_new_files env_wide (config_of demo_project) ∅ ["/p/a"; "/p/b"] empty_world
     = (Err (Errorf "error saving embedding for file /p/a"
               (Errorf "failed to insert into context_vectors"
                  (errors_New "Dimension mismatch for inserted vector"))),
        mkWorld (mkStore [models.mkFile 1 "/a" 100] [] 1 2 {["demo" := demo_project]})
          2 1 ["Adding new file: /a"]).
Proof.
  split.
  - apply (proj1 (proj2 (sync_failures env_flaky (config_of demo_project)))
             ∅ "/p/a" [] empty_world "package /p/a").
    + reflexivity.
    + reflexivity.
    + reflexivity.
  - apply (proj1 (proj2 (proj2 (proj2 (proj2 (sync_failures env_wide (config_of demo_project))))))
             ∅ "/p/a" ["/p/b"] empty_world "package /p/a"
             wide_response
             (mkWorld empty_store 0 1 ["Adding new file: /a"])).
    + reflexivity.
    + reflexivity.
    + reflexivity.
    + vm_compute. reflexivity.
Defined.

(** ** Which files each loop visits *)

Lemma sync_new_files_log env cfg ex localFiles : forall w w',
  sync.sync_new_files env cfg ex localFiles w = (Ok tt, w') ->
  exists lines,
    w_log w' = w_log w ++ lines
    /\ forall p, p ∈ paths (w_db w') ->
         p ∈ paths (w_db w) \/ ("Adding new file: " +:+ p) ∈ lines.
Proof.
  induction localFiles as [|f rest IH]; intros w w' H.
  - cbn in H. injection H as <-. exists []. rewrite app_nil_r. auto.
  - apply sync_new_files_cons_Ok in H as (w1 & lines1 & Hrest & Hlog1 & Hstep).
    apply IH in Hrest as (lines2 & Hlog2 & Hadded).
    exists (lines1 ++ lines2). split; [rewrite Hlog2, Hlog1, app_assoc; reflexivity|].
    intros p Hp. destruct (Hadded p Hp) as [Hp1|Hp1].
    2:{ right. apply elem_of_app. auto. }
    destruct Hstep as [Hdb|(w0 & emb & id & Hdb & Hsave & Hline)].
    + rewrite Hdb in Hp1. auto.
    + apply SaveFileEmbedding_Ok in Hsave as (v & _ & _ & Hdb1 & _).
      unfold paths in Hp1. rewrite Hdb1, Hdb in Hp1. simpl in Hp1.
      rewrite fmap_app in Hp1. apply elem_of_app in Hp1 as [Hp1|Hp1]; [auto|].
      apply list_elem_of_singleton in Hp1. subst p. right.
      apply elem_of_app. left. exact Hline.
Qed.

Lemma sync_existing_files_log env cfg lp recs : forall w w',
  sync.sync_existing_files env cfg lp recs w = (Ok tt, w') ->
  exists lines,
    w_log w' = w_log w ++ lines
    /\ forall row, row ∈ files (w_db w') ->
         updating row ∈ lines \/ (row ∈ files (w_db w) /\ row ∉ recs).
Proof.
  induction recs as [|r rest IH]; intros w w' H.
  - cbn in H. injection H as <-. exists []. rewrite app_nil_r. split; [reflexivity|].
    intros row Hrow. right. split; [exact Hrow|]. intros Hin. inversion Hin.
  - apply sync_existing_files_cons_Ok in H as (w1 & lines1 & Hrest & Hlog1 & Hstep).
    apply IH in Hrest as (lines2 & Hlog2 & Hrows).
    exists (lines1 ++ lines2). split; [rewrite Hlog2, Hlog1, app_assoc; reflexivity|].
    intros row Hrow. destruct (Hrows row Hrow) as [Hl|[Hin Hnot]].
    { left. apply elem_of_app. auto. }
    destruct Hstep
      as [(Hhas & Hline & [Hdb|(w0 & emb & Hdb & Hupd)])|(Hhas & _ & w0 & Hdb & Hdel)].
    + rewrite Hdb in Hin. destruct (decide (row = r)) as [->|Hne].
      * left. apply elem_of_app. auto.
      * right. split; [exact Hin|]. intros Hc. apply elem_of_cons in Hc as [Hc|Hc]; auto.
    + apply UpdateFileEmbedding_Ok in Hupd as (v & ts & _ & Hdb1).
      rewrite Hdb1, Hdb in Hin. simpl in Hin. apply elem_of_app in Hin as [Hin|Hin].
      * apply list_elem_of_filter in Hin as [Hid Hin]. right. split; [exact Hin|].
        intros Hc. apply elem_of_cons in Hc as [Hc|Hc]; [subst row|]; auto.
      * apply list_elem_of_singleton in Hin. subst row. left.
        apply elem_of_app. left. exact Hline.
    + apply DeleteFileAndVector_Ok in Hdel. rewrite Hdel, Hdb in Hin. simpl in Hin.
      apply list_elem_of_filter in Hin as [Hid Hin]. right. split; [exact Hin|].
      intros Hc. apply elem_of_cons in Hc as [Hc|Hc]; [subst row|]; auto.
Qed.

Lemma sync_existing_files_paths env cfg lp recs : forall w w',
  sync.sync_existing_files env cfg lp recs w = (Ok tt, w') ->
  forall p, p ∈ paths (w_db w') -> p ∈ paths (w_db w) \/ p ∈ models.FilePath <$> recs.
Proof.
  induction recs as [|r rest IH]; intros w w' H p Hp.
  - cbn in H. injection H as <-. auto.
  - apply sync_existing_files_cons_Ok in H as (w1 & lines1 & Hrest & _ & Hstep).
    rewrite fmap_cons.
    destruct (IH _ _ Hrest p Hp) as [Hp1|Hp1]; [|right; apply elem_of_cons; auto].
    destruct Hstep
      as [(_ & _ & [Hdb|(w0 & emb & Hdb & Hupd)])|(_ & _ & w0 & Hdb & Hdel)].
    + rewrite Hdb in Hp1. auto.
    + apply UpdateFileEmbedding_Ok in Hupd as (v & ts & _ & Hdb1).
      apply paths_elem in Hp1 as (row & Hrow & <-).
      rewrite Hdb1, Hdb in Hrow. simpl in Hrow. apply elem_of_app in Hrow as [Hrow|Hrow].
      * apply list_elem_of_filter in Hrow as [_ Hrow]. left. apply paths_elem. eauto.
      * apply list_elem_of_singleton in Hrow. subst row. right.
        apply elem_of_cons. left. reflexivity.
    + apply DeleteFileAndVector_Ok in Hdel.
      apply paths_elem in Hp1 as (row & Hrow & <-).
      rewrite Hdel, Hdb in Hrow. simpl in Hrow.
      apply list_elem_of_filter in Hrow as [_ Hrow]. left. apply paths_elem. eauto.
Qed.

(** Every path in the table after a completed sync was visited by the
    second loop of that sync, and a path that was not in the table before
    was also added by the first. *)
Lemma RunSync_visits env alias w w' :
  sync.RunSync env alias w = (Ok tt, w') ->
  exists lines,
    w_log w' = w_log w ++ lines
    /\ forall p, p ∈ paths (w_db w') ->
         ("Updating file: " +:+ p) ∈ lines
         /\ (p ∉ paths (w_db w) -> ("Adding new file: " +:+ p) ∈ lines).
Proof.
  intros H.
  apply RunSync_Ok in H
    as (project & localFiles & ex & wa & wb & wc & _ & _ & Hdba & Hloga & _ & Hnew
        & Hdbc & Hlogc & Hold).
  apply sync_new_files_log in Hnew as (lines1 & Hlog1 & Hadded).
  pose proof (sync_existing_files_log _ _ _ _ _ _ Hold) as (lines2 & Hlog2 & Hrows).
  exists (["Processing new files"] ++ lines1 ++ ["Processing existing files"] ++ lines2).
  split.
  { rewrite Hlog2, Hlogc, Hlog1, Hloga. rewrite <- !app_assoc. reflexivity. }
  intros p Hp. apply paths_elem in Hp as (row & Hrow & <-). split.
  - destruct (Hrows row Hrow) as [Hline|[Hin Hnot]].
    + apply elem_of_app. right. apply elem_of_app. right. apply elem_of_app. right.
      exact Hline.
    + exfalso. apply Hnot. rewrite merge_sort_Permutation. rewrite <- Hdbc. exact Hin.
  - intros Hfresh.
    assert (models.FilePath row ∈ paths (w_db wb)) as Hb.
    { assert (models.FilePath row ∈ paths (w_db w')) as Hp
        by (apply paths_elem; eauto).
      destruct (sync_existing_files_paths _ _ _ _ _ _ Hold _ Hp) as [Hc|Hc].
      - rewrite Hdbc in Hc. exact Hc.
      - rewrite merge_sort_Permutation in Hc. exact Hc. }
    destruct (Hadded _ Hb) as [Hold'|Hline].
    + rewrite Hdba in Hold'. contradiction.
    + apply elem_of_app. right. apply elem_of_app. left. exact Hline.
Qed.

(** ** The reconciliation example *)

(** C1, on the code.  In every sync that completes, a path the sync added
    to the table was handled by both loops: the first logged it as a new
    file and inserted it, and the second, which reads the table again,
    visited it as an existing file.  At [L = {a, b, c}], [S = {b, c, d}]
    with every read, provider call and statement succeeding: [a] is
    embedded and inserted as new, the second loop re-embeds [b], [c] and
    also the row just inserted for [a], and deletes [d]; four provider
    calls are made for three local files, and [a] ends with the third id
    handed out after its first insert. *)
Theorem RunSync_reembeds_new_file :
  (forall env alias w w',
     sync.RunSync env alias w = (Ok tt, w') ->
     exists lines,
       w_log w' = w_log w ++ lines
       /\ forall p, p ∈ paths (w_db w') -> p ∉ paths (w_db w) ->
            ("Adding new file: " +:+ p) ∈ lines /\ ("Updating file: " +:+ p) ∈ lines)
  /\ local_set env_ok demo_store "demo" = ["/a"; "/b"; "/c"]
  /\ paths demo_store = ["/b"; "/c"; "/d"]
  /\ (sync.RunSync env_ok "demo" demo_world).1 = Ok tt
  /\ w_log (after (sync.RunSync env_ok "demo" demo_world))
     = ["Processing new files"; "Adding new file: /a";
        "Processing existing files"; "Updating file: /b"; "Updating file: /c";
        "Removing deleted file: /d"; "Updating file: /a"]
  /\ w_calls (after (sync.RunSync env_ok "demo" demo_world)) = 4%nat
  /\ files (w_db (after (sync.RunSync env_ok "demo" demo_world)))
     = [models.mkFile 5 "/b" 111; models.mkFile 6 "/c" 117; models.mkFile 7 "/a" 127].
Proof.
  split.
  - intros env alias w w' H. apply RunSync_visits in H as (lines & Hlog & Hvisit).
    exists lines. split; [exact Hlog|]. intros p Hp Hfresh.
    destruct (Hvisit p Hp) as [Hupdating Hadding]. auto.
  - vm_compute. repeat split.
Qed.

Lemma RunSync_reembeds_new_file_witness :
  exists lines,
    w_log (after (sync.RunSync env_ok "demo" demo_world)) = w_log demo_world ++ lines
    /\ forall p,
         p ∈ paths (w_db (after (sync.RunSync env_ok "demo" demo_world))) ->
         p ∉ paths (w_db demo_world) ->
         ("Adding new file: " +:+ p) ∈ lines /\ ("Updating file: " +:+ p) ∈ lines.
Proof.
  apply (proj1 RunSync_reembeds_new_file env_ok "demo" demo_world).
  vm_compute. reflexivity.
Defined.

(** ** Provider answers without an embedding *)

Lemma SaveFileEmbedding_nil env file w :
  io_fault env (w_stmts w) = false ->
  sqlite_sequence (w_db w) < db.max_int64 ->
  exists w',
    db.SaveFileEmbedding env file None w
    = (Panic "invalid memory address or nil pointer dereference", w')
    /\ paths (w_db w') = paths (w_db w) ++ [file]
    /\ vector_ids (w_db w') = vector_ids (w_db w).
Proof.
  intros Hio Hseq. unfold db.SaveFileEmbedding. run_monad. rewrite Hio.
  replace (db.max_int64 <=? sqlite_sequence (w_db w)) with false
    by (symmetry; apply Z.leb_gt; exact Hseq).
  simpl. eexists. split; [reflexivity|]. unfold paths, vector_ids. simpl.
  rewrite fmap_app. split; reflexivity.
Qed.

Lemma new_file_empty_response env cfg ex f rest w content res w1 :
  sync.has ex (sync.TrimPrefix f (sync.ProjectPath cfg)) = false ->
  os_ReadFile env f = inr content ->
  embed env cfg (sync.TrimPrefix f (sync.ProjectPath cfg)) content
    (logged w [adding cfg f]) = (Ok res, w1) ->
  models.GetEmbeddings res = None ->
  io_fault env (w_stmts w1) = false ->
  sqlite_sequence (w_db w1) < db.max_int64 ->
  exists w2,
    sync.sync_new_files env cfg ex (f :: rest) w
    = (Panic "invalid memory address or nil pointer dereference", w2)
    /\ paths (w_db w2) = paths (w_db w) ++ [sync.TrimPrefix f (sync.ProjectPath cfg)]
    /\ vector_ids (w_db w2) = vector_ids (w_db w).
Proof.
  intros Hnew Hread Hembed Hnil Hio Hseq.
  destruct (SaveFileEmbedding_nil env (sync.TrimPrefix f (sync.ProjectPath cfg)) w1 Hio Hseq)
    as (w2 & Hsave & Hpaths & Hvectors).
  exists w2. split.
  - cbn [sync.sync_new_files]. rewrite Hnew, Hread. change (negb false) with true.
    cbv beta iota. unfold bind, attempt, wrap_err, sync.log_Printf.
    unfold embed, logged, adding in Hembed. cbn [w_db w_stmts w_calls w_log].
    rewrite Hembed, Hnil, Hsave. reflexivity.
  - apply Embeddings_db in Hembed as (Hdb & _). simpl in Hdb.
    rewrite Hpaths, Hvectors, Hdb. split; reflexivity.
Qed.

Lemma build_empty_response env cfg f rest w content res w1 :
  os_ReadFile env f = inr content ->
  embed env cfg (sync.TrimPrefix f (sync.ProjectPath cfg)) content
    (logged w ["Processing file: " +:+ sync.TrimPrefix f (sync.ProjectPath cfg)])
  = (Ok res, w1) ->
  models.GetEmbeddings res = None ->
  io_fault env (w_stmts w1) = false ->
  sqlite_sequence (w_db w1) < db.max_int64 ->
  exists w2,
    sync.process_files env cfg (f :: rest) w
    = (Panic "invalid memory address or nil pointer dereference", w2)
    /\ paths (w_db w2) = paths (w_db w) ++ [sync.TrimPrefix f (sync.ProjectPath cfg)]
    /\ vector_ids (w_db w2) = vector_ids (w_db w).
Proof.
  intros Hread Hembed Hnil Hio Hseq.
  destruct (SaveFileEmbedding_nil env (sync.TrimPrefix f (sync.ProjectPath cfg)) w1 Hio Hseq)
    as (w2 & Hsave & Hpaths & Hvectors).
  exists w2. split.
  - cbn [sync.process_files]. rewrite Hread.
    unfold bind, attempt, wrap_err, sync.log_Printf.
    unfold embed, logged in Hembed. cbn [w_db w_stmts w_calls w_log].
    rewrite Hembed, Hnil, Hsave. reflexivity.
  - apply Embeddings_db in Hembed as (Hdb & _). simpl in Hdb.
    rewrite Hpaths, Hvectors, Hdb. split; reflexivity.
Qed.

(** C7, on the code.  When the provider call for a new file succeeds with
    a response that holds no embedding, [GetEmbeddings] yields the nil
    pointer and [SaveFileEmbedding] inserts the file row and then
    dereferences it: the sync loop and the build loop both end in a panic
    at that file, with one more file row and no vector for it, whatever
    files remain.  With a provider that answers every request that way,
    the build and the sync of the sample project stop at the first file;
    nothing is logged for the failure and no later file is reached. *)
Theorem empty_embedding_response_panics :
  (forall env cfg ex f rest w content res w1,
     sync.has ex (sync.TrimPrefix f (sync.ProjectPath cfg)) = false ->
     os_ReadFile env f = inr content ->
     embed env cfg (sync.TrimPrefix f (sync.ProjectPath cfg)) content
       (logged w [adding cfg f]) = (Ok res, w1) ->
     models.GetEmbeddings res = None ->
     io_fault env (w_stmts w1) = false ->
     sqlite_sequence (w_db w1) < db.max_int64 ->
     exists w2,
       sync.sync_new_files env cfg ex (f :: rest) w
       = (Panic "invalid memory address or nil pointer dereference", w2)
       /\ paths (w_db w2) = paths (w_db w) ++ [sync.TrimPrefix f (sync.ProjectPath cfg)]
       /\ vector_ids (w_db w2) = vector_ids (w_db w))
  /\ (forall env cfg f rest w content res w1,
        os_ReadFile env f = inr content ->
        embed env cfg (sync.TrimPrefix f (sync.ProjectPath cfg)) content
          (logged w ["Processing file: " +:+ sync.TrimPrefix f (sync.ProjectPath cfg)])
        = (Ok res, w1) ->
        models.GetEmbeddings res = None ->
        io_fault env (w_stmts w1) = false ->
        sqlite_sequence (w_db w1) < db.max_int64 ->
        exists w2,
          sync.process_files env cfg (f :: rest) w
          = (Panic "invalid memory address or nil pointer dereference", w2)
          /\ paths (w_db w2) = paths (w_db w) ++ [sync.TrimPrefix f (sync.ProjectPath cfg)]
          /\ vector_ids (w_db w2) = vector_ids (w_db w))
  /\ models.GetEmbeddings empty_response = None
  /\ (sync.processProjectFiles env_empty (config_of demo_project) demo_world).1
     = Panic "invalid memory address or nil pointer dereference"
  /\ w_log (after (sync.processProjectFiles env_empty (config_of demo_project) demo_world))
     = ["Syncing code files to the database"; "Found 3 files"; "Processing file: /a"]
  /\ paths (w_db (after (sync.processProjectFiles env_empty (config_of demo_project)
                           demo_world)))
     = ["/b"; "/c"; "/d"; "/a"]
  /\ vector_ids (w_db (after (sync.processProjectFiles env_empty (config_of demo_project)
                                demo_world)))
     = [1; 2; 3]
  /\ (sync.RunSync env_empty "demo" demo_world).1
     = Panic "invalid memory address or nil pointer dereference"
  /\ w_log (after (sync.RunSync env_empty "demo" demo_world))
     = ["Processing new files"; "Adding new file: /a"]
  /\ file_ids (w_db (after (sync.RunSync env_empty "demo" demo_world))) = [1; 2; 3; 4]
  /\ vector_ids (w_db (after (sync.RunSync env_empty "demo" demo_world))) = [1; 2; 3].
Proof.
  split; [exact new_file_empty_response|]. split; [exact build_empty_response|].
  vm_compute. repeat split.
Qed.

Lemma empty_embedding_response_panics_witness :
  exists w2,
    sync.sync_new_files env_empty (config_of demo_project) ∅ ["/p/a"; "/p/b"] empty_world
    = (Panic "invalid memory address or nil pointer dereference", w2)
    /\ paths (w_db w2) = paths (w_db empty_world) ++ ["/a"]
    /\ vector_ids (w_db w2) = vector_ids (w_db empty_world).
Proof.
  apply (proj1 empty_embedding_response_panics env_empty (config_of demo_project)
           ∅ "/p/a" ["/p/b"] empty_world "package /p/a"
           empty_response
           (mkWorld empty_store 0 1 ["Adding new file: /a"])).
  - reflexivity.
  - reflexivity.
  - reflexivity.
  - reflexivity.
  - reflexivity.
  - vm_compute. reflexivity.
Defined.

(** * Properties of the search *)

Lemma SearchWithThreshold_Ok env emb opts w out w' :
  db.SearchWithThreshold env emb opts w = (Ok out, w') ->
  exists rows,
    knn_query env (w_stmts w) emb (initial_limit (db.MaxResults opts)) = inr rows
    /\ db.filterByDistance (scanned_rows rows) opts = Ok out.
Proof.
  unfold db.SearchWithThreshold, db.knn_statement, initial_limit, scanned_rows.
  run_monad. intros H. split_cases; (eexists; split; [reflexivity|assumption]).
Qed.

Lemma SearchWithSimilarity_Ok env emb s n w out w' :
  db.SearchWithSimilarity env emb s n w = (Ok out, w') ->
  exists rows kept,
    knn_query env (w_stmts w) emb (initial_limit n) = inr rows
    /\ db.filterByDistance (scanned_rows rows) (similarity_options s n) = Ok kept
    /\ out = map db.to_similarity kept.
Proof.
  unfold db.SearchWithSimilarity. intros H.
  apply bind_Ok_inv in H as (kept & w1 & Hsearch & H).
  apply SearchWithThreshold_Ok in Hsearch as (rows & Hrows & Hkept).
  unfold ret in H. injection H as <- <-. exists rows, kept. auto.
Qed.

(** C8: a result of [SearchWithSimilarity] is the ranker's result for the
    rows of the KNN query under the distance threshold [1 - s] (with
    [MinResults = 1], the given [MaxResults] and the adaptive cutoff), each
    hit reported with [1 - d] in place of its distance [d]; the find
    command passes [s = 0.03] and ten results, so it ranks with the
    threshold 0.97. *)
Theorem SearchWithSimilarity_converts :
  (forall env emb s n w out w',
     db.SearchWithSimilarity env emb s n w = (Ok out, w') ->
     exists rows kept,
       knn_query env (w_stmts w) emb (initial_limit n) = inr rows
       /\ db.filterByDistance (scanned_rows rows)
            {| db.MaxDistance := PrimFloat.sub 1 s; db.MinResults := 1;
               db.MaxResults := n; db.UseAdaptive := true |} = Ok kept
       /\ out = map db.to_similarity kept)
  /\ (forall r,
        db.Distance (db.to_similarity r) = PrimFloat.sub 1 (db.Distance r)
        /\ db.ID (db.to_similarity r) = db.ID r
        /\ db.File (db.to_similarity r) = db.File r)
  /\ (forall env config w out w',
        search.Run env config w = (Ok out, w') ->
        exists stmt emb rows kept,
          knn_query env stmt emb 100 = inr rows
          /\ db.filterByDistance (scanned_rows rows)
               {| db.MaxDistance := 0.97; db.MinResults := 1;
                  db.MaxResults := 10; db.UseAdaptive := true |} = Ok kept
          /\ out = map db.to_similarity kept)
  /\ PrimFloat.sub 1 search.minSimilarity = 0.97%float.
Proof.
  split; [exact SearchWithSimilarity_Ok|]. split; [intros r; repeat split|].
  split; [|reflexivity].
  intros env config w out w' H. unfold search.Run in H.
  apply bind_Ok_inv in H as ([] & w1 & _ & H).
  apply bind_Ok_inv in H as (proj & w2 & _ & H).
  apply bind_Ok_inv in H as (embedding & w3 & _ & H).
  apply bind_Ok_inv in H as (floats & w4 & _ & H).
  apply wrap_err_Ok_inv, SearchWithSimilarity_Ok in H as (rows & kept & Hrows & Hkept & ->).
  exists (w_stmts w4), floats, rows, kept. auto.
Qed.

Lemma SearchWithSimilarity_converts_witness :
  exists stmt emb rows kept,
    knn_query env_ok stmt emb 100 = inr rows
    /\ db.filterByDistance (scanned_rows rows)
         {| db.MaxDistance := 0.97; db.MinResults := 1;
            db.MaxResults := 10; db.UseAdaptive := true |} = Ok kept
    /\ [db.mkSearchResult 1 "/b" 0.9; db.mkSearchResult 2 "/c" 0.88]
       = map db.to_similarity kept.
Proof.
  apply (proj1 (proj2 (proj2 SearchWithSimilarity_converts))
           env_ok (search.mkConfig "demo" "find me") demo_world
           [db.mkSearchResult 1 "/b" 0.9; db.mkSearchResult 2 "/c" 0.88]
           (search.Run env_ok (search.mkConfig "demo" "find me") demo_world).2).
  vm_compute. reflexivity.
Defined.

(** * The pairing of file rows and vectors *)

Lemma file_ids_filter_elem id x (l : list models.File) :
  x ∈ models.ID <$> filter (fun f => models.ID f ≠ id) l <-> x ≠ id /\ x ∈ models.ID <$> l.
Proof.
  rewrite !list_elem_of_fmap. split.
  - intros (f & -> & Hf). apply list_elem_of_filter in Hf as [Hne Hf]. eauto.
  - intros (Hne & f & -> & Hf). exists f. split; [reflexivity|].
    apply list_elem_of_filter. auto.
Qed.

Lemma vector_ids_filter_elem id x (l : list (Z * list float)) :
  x ∈ fst <$> filter (fun v => v.1 ≠ id) l <-> x ≠ id /\ x ∈ fst <$> l.
Proof.
  rewrite !list_elem_of_fmap. split.
  - intros (v & -> & Hv). apply list_elem_of_filter in Hv as [Hne Hv]. eauto.
  - intros (Hne & v & -> & Hv). exists v. split; [reflexivity|].
    apply list_elem_of_filter. auto.
Qed.

Lemma paired_remove s id :
  paired s ->
  paired (mkStore (filter (fun f => models.ID f ≠ id) (files s))
                  (filter (fun v => v.1 ≠ id) (context_vectors s))
                  (sqlite_sequence s) (dimensions s) (projects s)).
Proof.
  intros (Hf & Hv & Hiff). unfold paired, file_ids, vector_ids in *. simpl.
  split; [|split].
  - eapply sublist_NoDup; [exact Hf|apply file_ids_filter].
  - eapply sublist_NoDup; [exact Hv|apply fmap_sublist, sublist_filter].
  - intros x. rewrite file_ids_filter_elem, vector_ids_filter_elem, Hiff. reflexivity.
Qed.

Lemma paired_append s id file ts v :
  paired s -> id ∉ file_ids s -> id ∉ vector_ids s ->
  paired (mkStore (files s ++ [models.mkFile id file ts])
                  (context_vectors s ++ [(id, v)])
                  id (dimensions s) (projects s)).
Proof.
  intros (Hf & Hv & Hiff) Hnf Hnv. unfold paired, file_ids, vector_ids in *. simpl.
  rewrite !fmap_app. simpl. split; [|split].
  - apply NoDup_app. split; [exact Hf|]. split; [|apply NoDup_singleton].
    intros x Hx Hx'. apply list_elem_of_singleton in Hx'. subst x. auto.
  - apply NoDup_app. split; [exact Hv|]. split; [|apply NoDup_singleton].
    intros x Hx Hx'. apply list_elem_of_singleton in Hx'. subst x. auto.
  - intros x. rewrite !elem_of_app, Hiff. reflexivity.
Qed.

Lemma fresh_id s : store_wf s -> sqlite_sequence s + 1 ∉ file_ids s.
Proof.
  intros [_ Hle] Hin. rewrite Forall_forall in Hle. specialize (Hle _ Hin). lia.
Qed.

(** The transactional siblings keep the pairing whatever their outcome. *)
Lemma UpdateFileEmbedding_paired env fileID filePath emb w r w' :
  db.UpdateFileEmbedding env fileID filePath emb w = (r, w') ->
  store_wf (w_db w) -> paired (w_db w) -> paired (w_db w').
Proof.
  intros H Hwf Hp. destruct r as [[]|e|m].
  - apply UpdateFileEmbedding_Ok in H as (v & ts & -> & ->).
    pose proof (paired_remove (w_db w) fileID Hp) as Hp'.
    pose proof (store_wf_remove (w_db w) fileID
                  (filter (fun v => v.1 ≠ fileID) (context_vectors (w_db w)))
                  (projects (w_db w)) Hwf) as Hwf'.
    apply (paired_append _ (sqlite_sequence (w_db w) + 1) filePath ts
             (map models.float32 v)) in Hp'.
    + exact Hp'.
    + apply (fresh_id _ Hwf').
    + destruct Hp' as (_ & _ & Hiff). rewrite <- Hiff. apply (fresh_id _ Hwf').
  - apply UpdateFileEmbedding_failed in H; [|reflexivity]. rewrite H. exact Hp.
  - apply UpdateFileEmbedding_failed in H; [|reflexivity]. rewrite H. exact Hp.
Qed.

Lemma DeleteFileAndVector_paired env fileID w r w' :
  db.DeleteFileAndVector env fileID w = (r, w') ->
  paired (w_db w) -> paired (w_db w').
Proof.
  intros H Hp. destruct r as [[]|e|m].
  - apply DeleteFileAndVector_Ok in H. rewrite H. apply paired_remove, Hp.
  - apply DeleteFileAndVector_failed in H; [|reflexivity]. rewrite H. exact Hp.
  - apply DeleteFileAndVector_failed in H; [|reflexivity]. rewrite H. exact Hp.
Qed.

(** The insert keeps the pairing when it succeeds. *)
Lemma SaveFileEmbedding_Ok_paired env file emb w id w' :
  db.SaveFileEmbedding env file emb w = (Ok id, w') ->
  store_wf (w_db w) -> paired (w_db w) -> paired (w_db w').
Proof.
  intros H Hwf Hp. apply SaveFileEmbedding_Ok in H as (v & -> & -> & -> & Hfresh).
  apply paired_append; [exact Hp|apply fresh_id, Hwf|exact Hfresh].
Qed.

(** The insert breaks the pairing whenever its second statement fails. *)
Lemma SaveFileEmbedding_vector_failure env file v w :
  io_fault env (w_stmts w) = false ->
  sqlite_sequence (w_db w) < db.max_int64 ->
  io_fault env (S (w_stmts w)) = true \/ length v <> dimensions (w_db w) ->
  store_wf (w_db w) -> paired (w_db w) ->
  exists e w',
    db.SaveFileEmbedding env file (Some v) w = (Err e, w')
    /\ file_ids (w_db w') = file_ids (w_db w) ++ [sqlite_sequence (w_db w) + 1]
    /\ vector_ids (w_db w') = vector_ids (w_db w)
    /\ ~ paired (w_db w').
Proof.
  intros Hio Hseq Hfail Hwf Hp.
  assert (exists e w',
            db.SaveFileEmbedding env file (Some v) w = (Err e, w')
            /\ file_ids (w_db w') = file_ids (w_db w) ++ [sqlite_sequence (w_db w) + 1]
            /\ vector_ids (w_db w') = vector_ids (w_db w)) as (e & w' & Hsave & Hf & Hv).
  { unfold db.SaveFileEmbedding. run_monad. rewrite Hio.
    replace (db.max_int64 <=? sqlite_sequence (w_db w)) with false
      by (symmetry; apply Z.leb_gt; exact Hseq).
    simpl. destruct (io_fault env (S (w_stmts w))) eqn:Hio2.
    - eexists _, _. split; [reflexivity|]. unfold file_ids, vector_ids. simpl.
      rewrite fmap_app. split; reflexivity.
    - destruct Hfail as [Hfail|Hfail]; [discriminate|].
      rewrite length_map.
      replace (length v =? dimensions (w_db w))%nat with false
        by (symmetry; apply Nat.eqb_neq; exact Hfail).
      simpl. eexists _, _. split; [reflexivity|]. unfold file_ids, vector_ids. simpl.
      rewrite fmap_app. split; reflexivity. }
  exists e, w'. split; [exact Hsave|]. split; [exact Hf|]. split; [exact Hv|].
  intros (_ & _ & Hiff). apply (fresh_id _ Hwf).
  destruct Hp as (_ & _ & Hiff0). apply Hiff0. rewrite <- Hv. apply Hiff.
  rewrite Hf. apply elem_of_app. right. apply list_elem_of_singleton. reflexivity.
Qed.

(** C2, on the code.  [UpdateFileEmbedding] and [DeleteFileAndVector] run
    in a transaction and keep the pairing whatever their outcome, and
    [SaveFileEmbedding] keeps it when it succeeds; but its two statements
    run outside any transaction, so when the file row is inserted and the
    vector insert fails the file row stays without a vector.  So it is at
    an insert whose vector the index rejects (three components for a table
    of width two): the store that was paired holds a file row without a
    vector afterwards. *)
Theorem SaveFileEmbedding_leaves_orphan :
  (forall env fileID filePath emb w r w',
     db.UpdateFileEmbedding env fileID filePath emb w = (r, w') ->
     store_wf (w_db w) -> paired (w_db w) -> paired (w_db w'))
  /\ (forall env fileID w r w',
        db.DeleteFileAndVector env fileID w = (r, w') ->
        paired (w_db w) -> paired (w_db w'))
  /\ (forall env file emb w id w',
        db.SaveFileEmbedding env file emb w = (Ok id, w') ->
        store_wf (w_db w) -> paired (w_db w) -> paired (w_db w'))
  /\ (forall env file v w,
        io_fault env (w_stmts w) = false ->
        sqlite_sequence (w_db w) < db.max_int64 ->
        io_fault env (S (w_stmts w)) = true \/ length v <> dimensions (w_db w) ->
        store_wf (w_db w) -> paired (w_db w) ->
        exists e w',
          db.SaveFileEmbedding env file (Some v) w = (Err e, w')
          /\ file_ids (w_db w') = file_ids (w_db w) ++ [sqlite_sequence (w_db w) + 1]
          /\ vector_ids (w_db w') = vector_ids (w_db w)
          /\ ~ paired (w_db w'))
  /\ paired demo_store
  /\ (db.SaveFileEmbedding env_ok "/e" (Some [0.5; 0.25; 0.125]%float) demo_world).1
     = Err (Errorf "failed to insert into context_vectors"
              (errors_New "Dimension mismatch for inserted vector"))
  /\ file_ids (w_db (db.SaveFileEmbedding env_ok "/e" (Some [0.5; 0.25; 0.125]%float)
                       demo_world).2) = [1; 2; 3; 4]
  /\ vector_ids (w_db (db.SaveFileEmbedding env_ok "/e" (Some [0.5; 0.25; 0.125]%float)
                         demo_world).2) = [1; 2; 3]
  /\ ~ paired (w_db (db.SaveFileEmbedding env_ok "/e" (Some [0.5; 0.25; 0.125]%float)
                       demo_world).2).
Proof.
  split; [exact UpdateFileEmbedding_paired|].
  split; [exact DeleteFileAndVector_paired|].
  split; [exact SaveFileEmbedding_Ok_paired|].
  split; [exact SaveFileEmbedding_vector_failure|].
  split; [|split; [|split; [|split]]].
  - unfold paired. replace (file_ids demo_store) with [1; 2; 3] by reflexivity.
    replace (vector_ids demo_store) with [1; 2; 3] by reflexivity.
    split; [|split; [|reflexivity]]; apply (bool_decide_unpack _); vm_compute; exact I.
  - vm_compute. reflexivity.
  - vm_compute. reflexivity.
  - vm_compute. reflexivity.
  - unfold paired.
    assert (file_ids (w_db (db.SaveFileEmbedding env_ok "/e"
                              (Some [0.5; 0.25; 0.125]%float) demo_world).2)
            = [1; 2; 3; 4]) as -> by (vm_compute; reflexivity).
    assert (vector_ids (w_db (db.SaveFileEmbedding env_ok "/e"
                                (Some [0.5; 0.25; 0.125]%float) demo_world).2)
            = [1; 2; 3]) as -> by (vm_compute; reflexivity).
    intros (_ & _ & Hiff). specialize (Hiff 4).
    assert (4 ∈ [1; 2; 3]) as Hin.
    { apply Hiff. apply (bool_decide_unpack _). vm_compute. exact I. }
    apply (bool_decide_pack _) in Hin. vm_compute in Hin. exact Hin.
Qed.

Lemma SaveFileEmbedding_leaves_orphan_witness :
  exists e w',
    db.SaveFileEmbedding env_ok "/e" (Some [0.5; 0.25; 0.125]%float) demo_world = (Err e, w')
    /\ file_ids (w_db w') = file_ids (w_db demo_world) ++ [sqlite_sequence (w_db demo_world) + 1]
    /\ vector_ids (w_db w') = vector_ids (w_db demo_world)
    /\ ~ paired (w_db w').
Proof.
  apply (proj1 (proj2 (proj2 (proj2 SaveFileEmbedding_leaves_orphan)))
           env_ok "/e" [0.5; 0.25; 0.125]%float demo_world).
  - reflexivity.
  - vm_compute. reflexivity.
  - right. vm_compute. discriminate.
  - split; apply (bool_decide_unpack _); vm_compute; exact I.
  - unfold paired. replace (file_ids (w_db demo_world)) with [1; 2; 3] by reflexivity.
    replace (vector_ids (w_db demo_world)) with [1; 2; 3] by reflexivity.
    split; [|split; [|reflexivity]]; apply (bool_decide_unpack _); vm_compute; exact I.
Defined.

(** * More on the ranker *)

(** ** The order of binary64, with equality *)

Lemma SFleb_trans a b c : SFleb a b = true -> SFleb b c = true -> SFleb a c = true.
Proof.
  unfold SFleb, SFcompare.
  destruct a as [sa|sa| |sa ma ea], b as [sb|sb| |sb mb eb], c as [sc|sc| |sc mc ec];
    try discriminate; try (destruct sa, sb, sc; simpl; congruence).
  change (PosDef.Pos.compare_cont Eq) with Pos.compare.
  destruct sa, sb, sc; simpl; try congruence;
    destruct (Z.compare_spec ea eb), (Z.compare_spec eb ec), (Z.compare_spec ea ec);
    try lia; try congruence; subst;
    destruct (Pos.compare_spec ma mb), (Pos.compare_spec mb mc), (Pos.compare_spec ma mc);
    simpl; try lia; try congruence.
Qed.

Lemma SFleb_ltb_trans a b c : SFleb a b = true -> SFltb b c = true -> SFleb a c = true.
Proof.
  unfold SFleb, SFltb, SFcompare.
  destruct a as [sa|sa| |sa ma ea], b as [sb|sb| |sb mb eb], c as [sc|sc| |sc mc ec];
    try discriminate; try (destruct sa, sb, sc; simpl; congruence).
  change (PosDef.Pos.compare_cont Eq) with Pos.compare.
  destruct sa, sb, sc; simpl; try congruence;
    destruct (Z.compare_spec ea eb), (Z.compare_spec eb ec), (Z.compare_spec ea ec);
    try lia; try congruence; subst;
    destruct (Pos.compare_spec ma mb), (Pos.compare_spec mb mc), (Pos.compare_spec ma mc);
    simpl; try lia; try congruence.
Qed.

Lemma float_leb_trans a b c :
  PrimFloat.leb a b = true -> PrimFloat.leb b c = true -> PrimFloat.leb a c = true.
Proof. rewrite !leb_spec. apply SFleb_trans. Qed.

Lemma float_leb_ltb_trans a b c :
  PrimFloat.leb a b = true -> PrimFloat.ltb b c = true -> PrimFloat.leb a c = true.
Proof. rewrite !leb_spec, ltb_spec. apply SFleb_ltb_trans. Qed.

(** The adaptive cutoff is [maxThreshold] or a value strictly below it. *)
Lemma calculateAdaptiveThreshold_cases results maxThreshold :
  db.calculateAdaptiveThreshold results maxThreshold = maxThreshold
  \/ PrimFloat.ltb (db.calculateAdaptiveThreshold results maxThreshold) maxThreshold = true.
Proof.
  rewrite calculateAdaptiveThreshold_spec. cbv zeta.
  destruct (_ && _); [|left; reflexivity].
  destruct (PrimFloat.ltb _ maxThreshold) eqn:Hlt; [right; exact Hlt|left; reflexivity].
Qed.

Lemma within_threshold_of results opts r :
  within (threshold_of results opts) r -> within (db.MaxDistance opts) r.
Proof.
  unfold threshold_of, within. destruct (db.UseAdaptive opts); [|tauto].
  destruct (calculateAdaptiveThreshold_cases results (db.MaxDistance opts)) as [->|Hlt];
    [tauto|].
  intros Hr. eapply float_leb_ltb_trans; eassumption.
Qed.

Lemma filterByDistance_returns results opts :
  0 <= db.MaxResults opts ->
  exists out,
    db.filterByDistance results opts = Ok out
    /\ Z.min (Z.min (db.MinResults opts) (db.len results)) (db.MaxResults opts)
       <= db.len out <= db.MaxResults opts.
Proof.
  intros Hmax.
  destruct (decide (results = [])) as [->|Hne].
  { exists []. split; [reflexivity|]. unfold db.len. simpl. lia. }
  rewrite filterByDistance_nonempty by assumption.
  destruct (_ <? _) eqn:Hlt.
  - apply Z.ltb_lt in Hlt. rewrite slice_to_minCount by assumption.
    eexists; split; [reflexivity|].
    unfold db.len. rewrite length_take, minCount_of_spec. unfold db.len. lia.
  - apply Z.ltb_ge in Hlt. eexists; split; [reflexivity|].
    pose proof (filtered_of_length results opts Hmax). lia.
Qed.

(** X1: with [MaxResults >= 0] the ranker returns, whatever the other
    options, at most [MaxResults] hits and at least
    [min (MinResults, len rawHits, MaxResults)]: the floor guarantees its
    minimum of hits as far as the raw hits and [MaxResults] allow. *)
Theorem filterByDistance_count results opts :
  0 <= db.MaxResults opts ->
  exists out,
    db.filterByDistance results opts = Ok out
    /\ Z.min (Z.min (db.MinResults opts) (db.len results)) (db.MaxResults opts)
       <= db.len out <= db.MaxResults opts.
Proof.
  intros Hmax.
  destruct (decide (results = [])) as [->|Hne].
  { exists []. split; [reflexivity|]. unfold db.len. simpl. lia. }
  rewrite filterByDistance_nonempty by assumption.
  destruct (db.len (db.filtered_of results opts) <? db.MinResults opts) eqn:Hfloor.
  - (* the floor: the first [minCount] raw hits *)
    apply Z.ltb_lt in Hfloor. rewrite slice_to_minCount by assumption.
    exists (take (Z.to_nat (db.minCount_of results opts)) results).
    split; [reflexivity|].
    unfold db.len. rewrite length_take, minCount_of_spec. unfold db.len. lia.
  - (* the filtered hits, at least [MinResults] of them *)
    apply Z.ltb_ge in Hfloor. exists (db.filtered_of results opts).
    split; [reflexivity|].
    pose proof (filtered_of_length results opts Hmax). lia.
Qed.

Lemma filterByDistance_count_witness :
  exists out,
    db.filterByDistance gap_example db.DefaultSearchOptions = Ok out
    /\ Z.min (Z.min 2 (db.len gap_example)) 20 <= db.len out <= 20.
Proof.
  apply (filterByDistance_count gap_example db.DefaultSearchOptions).
  simpl. lia.
Defined.

(** X2: the adaptive cutoff is never above [MaxDistance], so with or
    without it every hit the ranker returns is within [MaxDistance],
    provided at least [MinResults] hits passed the filter (the floor did
    not replace them by the closest raw hits). *)
Theorem adaptive_never_laxer results opts out :
  db.filterByDistance results opts = Ok out ->
  db.MinResults opts <= db.len (db.filtered_of results opts) ->
  PrimFloat.ltb (db.MaxDistance opts)
    (db.calculateAdaptiveThreshold results (db.MaxDistance opts)) = false
  /\ Forall (within (db.MaxDistance opts)) out.
Proof.
  intros Hout Hmin. split.
  - destruct (calculateAdaptiveThreshold_cases results (db.MaxDistance opts)) as [->|Hlt].
    + apply float_ltb_irrefl.
    + destruct (PrimFloat.ltb (db.MaxDistance opts) _) eqn:Hgt; [|reflexivity].
      pose proof (float_ltb_trans _ _ _ Hlt Hgt) as Hrefl.
      rewrite float_ltb_irrefl in Hrefl. discriminate.
  - destruct (decide (results = [])) as [->|Hne].
    { cbv in Hout. injection Hout as <-. constructor. }
    rewrite filterByDistance_nonempty in Hout by assumption.
    replace (_ <? _) with false in Hout by (symmetry; apply Z.ltb_ge; lia).
    injection Hout as <-.
    eapply Forall_impl; [apply filtered_of_within|]. apply within_threshold_of.
Qed.

Lemma adaptive_never_laxer_witness :
  PrimFloat.ltb 0.8 (db.calculateAdaptiveThreshold gap_example 0.8) = false
  /\ Forall (within 0.8) (take 3 gap_example).
Proof.
  apply (adaptive_never_laxer gap_example db.DefaultSearchOptions (take 3 gap_example)).
  - vm_compute. reflexivity.
  - vm_compute. discriminate.
Defined.

Lemma take_length_take {A} (n : nat) (l : list A) : take (length (take n l)) l = take n l.
Proof.
  rewrite length_take. destruct (Nat.min_spec n (length l)) as [[_ ->]|[Hle ->]];
    [reflexivity|].
  rewrite firstn_all. symmetry. apply take_ge. lia.
Qed.

Lemma filter_within_prefix t (l : list db.SearchResult) :
  ascending l -> filter (within t) l = take (length (filter (within t) l)) l.
Proof.
  unfold ascending. induction l as [|x l IH]; intros Hl; [reflexivity|].
  apply StronglySorted_inv in Hl as [Hl Hx]. rewrite filter_cons.
  destruct (decide (within t x)) as [Hw|Hw].
  - simpl. f_equal. apply IH, Hl.
  - assert (filter (within t) l = []) as ->; [|reflexivity].
    clear IH Hl. induction Hx as [|y l Hxy Hx IH]; [reflexivity|].
    rewrite filter_cons. destruct (decide (within t y)) as [Hwy|_]; [|exact IH].
    exfalso. apply Hw. unfold within, closer_or_equal in *.
    eapply float_leb_trans; eassumption.
Qed.

(** X3: for raw hits that are ascending by distance, as the KNN query
    returns them, the ranker returns the closest ones: its result is a
    prefix of the raw hits, whatever the options. *)
Theorem filterByDistance_prefix results opts out :
  ascending results ->
  db.filterByDistance results opts = Ok out ->
  out = take (length out) results.
Proof.
  intros Hasc Hout.
  destruct (decide (results = [])) as [->|Hne].
  { cbv in Hout. injection Hout as <-. reflexivity. }
  rewrite filterByDistance_nonempty in Hout by assumption.
  destruct (_ <? _).
  - unfold slice_to in Hout. destruct (_ || _); [discriminate|].
    injection Hout as <-. symmetry. apply take_length_take.
  - injection Hout as <-. rewrite filtered_of_spec.
    rewrite (filter_within_prefix _ _ Hasc), take_take. symmetry. apply take_length_take.
Qed.

Lemma filterByDistance_prefix_witness :
  take 3 gap_example = take (length (take 3 gap_example)) gap_example.
Proof.
  apply (filterByDistance_prefix gap_example db.DefaultSearchOptions (take 3 gap_example)).
  - unfold ascending, gap_example.
    repeat (constructor; [|repeat (constructor; [vm_compute; reflexivity|]); constructor]).
    constructor.
  - vm_compute. reflexivity.
Defined.

(** ** The queries *)

Lemma SearchWithThreshold_run env emb opts w rows :
  io_fault env (w_stmts w) = false ->
  knn_query env (w_stmts w) emb (initial_limit (db.MaxResults opts)) = inr rows ->
  db.SearchWithThreshold env emb opts w
  = (db.filterByDistance (scanned_rows rows) opts,
     mkWorld (w_db w) (S (w_stmts w)) (w_calls w) (w_log w)).
Proof.
  intros Hio Hrows.
  unfold db.SearchWithThreshold, db.knn_statement, initial_limit, scanned_rows in *.
  run_monad. rewrite Hio, Hrows. simpl.
  destruct (db.filterByDistance _ opts); reflexivity.
Qed.

Lemma SearchWithThreshold_reads env emb opts w r w' :
  db.SearchWithThreshold env emb opts w = (r, w') ->
  w_db w' = w_db w /\ w_log w' = w_log w /\ w_calls w' = w_calls w.
Proof.
  unfold db.SearchWithThreshold, db.knn_statement. run_monad. intros H.
  split_cases; repeat split.
Qed.

(** X4: no search function changes the tables, the log or the count of
    provider calls, whether it returns hits, an error or panics. *)
Theorem search_reads_only env emb opts limit minSimilarity maxResults w :
  let same (w' : World) :=
    w_db w' = w_db w /\ w_log w' = w_log w /\ w_calls w' = w_calls w in
  same (db.SearchWithThreshold env emb opts w).2
  /\ same (db.Search env emb limit w).2
  /\ same (db.SearchWithSimilarity env emb minSimilarity maxResults w).2
  /\ same (db.SearchCodeSimilar env emb w).2
  /\ same (db.SearchCodeExact env emb w).2.
Proof.
  intros same.
  assert (forall o, same (db.SearchWithThreshold env emb o w).2) as Hread.
  { intros o. destruct (db.SearchWithThreshold env emb o w) as [r w'] eqn:H.
    apply SearchWithThreshold_reads in H. exact H. }
  split; [apply Hread|]. split; [|split; [|split; apply Hread]].
  - unfold db.Search, bind, ret. specialize (Hread
      (db.mkSearchOptions (db.MaxDistance db.DefaultSearchOptions)
         (db.MinResults db.DefaultSearchOptions) limit false)).
    destruct (db.SearchWithThreshold _ _ _ _) as [[a|e|m] w']; exact Hread.
  - unfold db.SearchWithSimilarity, bind, ret.
    specialize (Hread (similarity_options minSimilarity maxResults)).
    unfold similarity_options in Hread.
    destruct (db.SearchWithThreshold _ _ _ _) as [[a|e|m] w']; exact Hread.
Qed.

Lemma filterByDistance_sublist results opts out :
  db.filterByDistance results opts = Ok out -> out `sublist_of` results.
Proof.
  intros Hout. destruct (decide (results = [])) as [->|Hne].
  - cbv in Hout. injection Hout as <-. constructor.
  - rewrite filterByDistance_nonempty in Hout by assumption.
    destruct (_ <? _).
    + unfold slice_to in Hout. destruct (_ || _); [discriminate|].
      injection Hout as <-. apply sublist_take.
    + injection Hout as <-. apply filtered_of_sublist.
Qed.

(** X5: when the KNN statement runs and gives rows, [Search] with a limit
    that is not negative returns file names: they are the [File] fields
    of some of the rows, in the rows' order, at most [limit] of them and
    at least [min (2, rows, limit)], the floor of the default options. *)
Theorem Search_names env emb limit w rows :
  0 <= limit ->
  io_fault env (w_stmts w) = false ->
  knn_query env (w_stmts w) emb (initial_limit limit) = inr rows ->
  exists names w',
    db.Search env emb limit w = (Ok names, w')
    /\ names `sublist_of` map db.File (scanned_rows rows)
    /\ Z.min (Z.min 2 (db.len rows)) limit <= db.len names <= limit.
Proof.
  intros Hlimit Hio Hrows. unfold db.Search, bind, ret.
  rewrite (SearchWithThreshold_run env emb _ w rows Hio) by exact Hrows.
  set (opts := db.mkSearchOptions _ _ _ _).
  destruct (filterByDistance_returns (scanned_rows rows) opts) as (out & Hout & Hlen);
    [simpl; lia|].
  rewrite Hout. eexists _, _. split; [reflexivity|]. split.
  - apply (fmap_sublist db.File). apply (filterByDistance_sublist _ _ _ Hout).
  - simpl in Hlen. unfold db.len in *. unfold scanned_rows in Hlen.
    rewrite !length_map in *. exact Hlen.
Qed.

Lemma Search_names_witness :
  exists names w',
    db.Search env_ok [0.5; 0.25]%float 1 demo_world = (Ok names, w')
    /\ names `sublist_of` map db.File (scanned_rows
         [(1, "/b", 0.1%float); (2, "/c", 0.12%float); (4, "/a", 0.5%float)])
    /\ Z.min (Z.min 2 (db.len
         [(1, "/b", 0.1%float); (2, "/c", 0.12%float); (4, "/a", 0.5%float)])) 1
       <= db.len names <= 1.
Proof.
  apply (Search_names env_ok [0.5; 0.25]%float 1 demo_world
           [(1, "/b", 0.1%float); (2, "/c", 0.12%float); (4, "/a", 0.5%float)]).
  - lia.
  - reflexivity.
  - reflexivity.
Defined.

(** X6: when the KNN statement runs and gives rows, [SearchCodeExact]
    returns between one and ten of them (none only when there are no
    rows), in the rows' order; the hits are all within 0.3, or else the
    result is the single nearest row. *)
Theorem SearchCodeExact_hits env emb w rows :
  io_fault env (w_stmts w) = false ->
  knn_query env (w_stmts w) emb 100 = inr rows ->
  exists out w',
    db.SearchCodeExact env emb w = (Ok out, w')
    /\ out `sublist_of` scanned_rows rows
    /\ Z.min 1 (db.len rows) <= db.len out <= 10
    /\ (Forall (within 0.3) out \/ out = take 1 (scanned_rows rows)).
Proof.
  intros Hio Hrows. unfold db.SearchCodeExact.
  set (opts := db.mkSearchOptions _ _ _ _).
  rewrite (SearchWithThreshold_run env emb opts w rows Hio) by exact Hrows.
  destruct (filterByDistance_returns (scanned_rows rows) opts) as (out & Hout & Hlen);
    [simpl; lia|].
  rewrite Hout. eexists _, _. split; [reflexivity|].
  split; [apply (filterByDistance_sublist _ _ _ Hout)|]. split.
  - simpl in Hlen. unfold db.len, scanned_rows in *. rewrite !length_map in *. lia.
  - destruct (decide (scanned_rows rows = [])) as [Hnil|Hne].
    { rewrite Hnil in Hout. cbv in Hout. injection Hout as <-. left. constructor. }
    rewrite filterByDistance_nonempty in Hout by assumption.
    destruct (_ <? _) eqn:Hlt.
    + right. apply Z.ltb_lt in Hlt. rewrite slice_to_minCount in Hout by (simpl; lia || exact Hlt).
      injection Hout as <-. rewrite minCount_of_spec. simpl.
      destruct (scanned_rows rows) as [|r rs]; [congruence|].
      unfold db.len. simpl length.
      replace (Z.to_nat _) with 1%nat by lia. reflexivity.
    + left. injection Hout as <-. apply (filtered_of_within (scanned_rows rows) opts).
Qed.

Lemma SearchCodeExact_hits_witness :
  exists out w',
    db.SearchCodeExact env_ok [0.5; 0.25]%float demo_world = (Ok out, w')
    /\ out `sublist_of` scanned_rows
         [(1, "/b", 0.1%float); (2, "/c", 0.12%float); (4, "/a", 0.5%float)]
    /\ Z.min 1 (db.len
         [(1, "/b", 0.1%float); (2, "/c", 0.12%float); (4, "/a", 0.5%float)])
       <= db.len out <= 10
    /\ (Forall (within 0.3) out
        \/ out = take 1 (scanned_rows
                   [(1, "/b", 0.1%float); (2, "/c", 0.12%float); (4, "/a", 0.5%float)])).
Proof.
  apply (SearchCodeExact_hits env_ok [0.5; 0.25]%float demo_world
           [(1, "/b", 0.1%float); (2, "/c", 0.12%float); (4, "/a", 0.5%float)]).
  - reflexivity.
  - reflexivity.
Defined.

(** X7: when the KNN statement runs and gives rows, [SearchCodeSimilar]
    returns at least [min (3, rows)] and at most fifteen of them, in the
    rows' order, whatever their distances. *)
Theorem SearchCodeSimilar_hits env emb w rows :
  io_fault env (w_stmts w) = false ->
  knn_query env (w_stmts w) emb 100 = inr rows ->
  exists out w',
    db.SearchCodeSimilar env emb w = (Ok out, w')
    /\ out `sublist_of` scanned_rows rows
    /\ Z.min 3 (db.len rows) <= db.len out <= 15.
Proof.
  intros Hio Hrows. unfold db.SearchCodeSimilar.
  set (opts := db.mkSearchOptions _ _ _ _).
  rewrite (SearchWithThreshold_run env emb opts w rows Hio) by exact Hrows.
  destruct (filterByDistance_returns (scanned_rows rows) opts) as (out & Hout & Hlen);
    [simpl; lia|].
  rewrite Hout. eexists _, _. split; [reflexivity|].
  split; [apply (filterByDistance_sublist _ _ _ Hout)|].
  simpl in Hlen. unfold db.len, scanned_rows in *. rewrite !length_map in *. lia.
Qed.

Lemma SearchCodeSimilar_hits_witness :
  exists out w',
    db.SearchCodeSimilar env_ok [0.5; 0.25]%float demo_world = (Ok out, w')
    /\ out `sublist_of` scanned_rows
         [(1, "/b", 0.1%float); (2, "/c", 0.12%float); (4, "/a", 0.5%float)]
    /\ Z.min 3 (db.len
         [(1, "/b", 0.1%float); (2, "/c", 0.12%float); (4, "/a", 0.5%float)])
       <= db.len out <= 15.
Proof.
  apply (SearchCodeSimilar_hits env_ok [0.5; 0.25]%float demo_world
           [(1, "/b", 0.1%float); (2, "/c", 0.12%float); (4, "/a", 0.5%float)]).
  - reflexivity.
  - reflexivity.
Defined.

(** * Properties of the store *)

Lemma filter_absent_id id (l : list models.File) :
  id ∉ models.ID <$> l -> filter (fun f => models.ID f ≠ id) l = l.
Proof.
  induction l as [|x l IH]; intros Hid; [reflexivity|].
  rewrite fmap_cons in Hid. apply not_elem_of_cons in Hid as [Hx Hl].
  rewrite filter_cons. destruct (decide (models.ID x ≠ id)) as [_|Hn].
  - f_equal. apply IH, Hl.
  - exfalso. apply Hn. congruence.
Qed.

Lemma filter_absent_rowid id (l : list (Z * list float)) :
  id ∉ fst <$> l -> filter (fun v => v.1 ≠ id) l = l.
Proof.
  induction l as [|x l IH]; intros Hid; [reflexivity|].
  rewrite fmap_cons in Hid. apply not_elem_of_cons in Hid as [Hx Hl].
  rewrite filter_cons. destruct (decide (x.1 ≠ id)) as [_|Hn].
  - f_equal. apply IH, Hl.
  - exfalso. apply Hn. congruence.
Qed.

Lemma filter_present_id id (l : list models.File) :
  NoDup (models.ID <$> l) -> id ∈ models.ID <$> l ->
  S (length (filter (fun f => models.ID f ≠ id) l)) = length l.
Proof.
  induction l as [|x l IH]; intros Hnd Hid; [inversion Hid|].
  rewrite fmap_cons in Hnd, Hid. apply NoDup_cons in Hnd as [Hx Hnd].
  rewrite filter_cons. destruct (decide (models.ID x ≠ id)) as [Hne|Heq].
  - simpl. f_equal. apply IH; [exact Hnd|].
    apply elem_of_cons in Hid as [Hid|Hid]; [congruence|exact Hid].
  - assert (models.ID x = id) as Hxid by (destruct (decide (models.ID x = id)); tauto).
    rewrite filter_absent_id by (rewrite <- Hxid; exact Hx). reflexivity.
Qed.

(** X8: [UpdateFileEmbedding] and [DeleteFileAndVector] are atomic: when
    either does not return nil (an error of any statement, or the panic
    of a nil embedding) the tables are what they were before the call. *)
Theorem transactions_are_atomic env fileID filePath emb w :
  (is_Ok (db.UpdateFileEmbedding env fileID filePath emb w).1 = false ->
   w_db (db.UpdateFileEmbedding env fileID filePath emb w).2 = w_db w)
  /\ (is_Ok (db.DeleteFileAndVector env fileID w).1 = false ->
      w_db (db.DeleteFileAndVector env fileID w).2 = w_db w).
Proof.
  split; intros Hr.
  - destruct (db.UpdateFileEmbedding env fileID filePath emb w) as [r w'] eqn:H.
    eapply UpdateFileEmbedding_failed; eassumption.
  - destruct (db.DeleteFileAndVector env fileID w) as [r w'] eqn:H.
    eapply DeleteFileAndVector_failed; eassumption.
Qed.

Lemma transactions_are_atomic_witness :
  w_db (db.UpdateFileEmbedding env_ok 2 "/c" None demo_world).2 = w_db demo_world.
Proof.
  apply (proj1 (transactions_are_atomic env_ok 2 "/c" None demo_world)).
  vm_compute. reflexivity.
Defined.

(** X9: on a store whose rows and vectors are paired, with a vector of
    the table's width, an id counter below the largest int64 and no
    engine failure in its six statements, [UpdateFileEmbedding] returns
    nil, whether a row has [fileID] or not.  It drops the row of
    [fileID] and appends one row for [filePath] under an id never used
    before, so the new id differs from [fileID] whenever that row
    existed, and the row count is then unchanged; when no row has
    [fileID] it adds the row.  Every other row is kept, in order. *)
Theorem UpdateFileEmbedding_replaces env fileID filePath v w :
  store_wf (w_db w) ->
  paired (w_db w) ->
  sqlite_sequence (w_db w) < db.max_int64 ->
  length v = dimensions (w_db w) ->
  (forall k, (k < 6)%nat -> io_fault env (k + w_stmts w) = false) ->
  let newID := sqlite_sequence (w_db w) + 1 in
  exists w' ts,
    db.UpdateFileEmbedding env fileID filePath (Some v) w = (Ok tt, w')
    /\ files (w_db w')
       = filter (fun f => models.ID f ≠ fileID) (files (w_db w))
           ++ [models.mkFile newID filePath ts]
    /\ (newID ∉ file_ids (w_db w))
    /\ (fileID ∈ file_ids (w_db w) ->
        newID <> fileID /\ length (files (w_db w')) = length (files (w_db w)))
    /\ (fileID ∉ file_ids (w_db w) ->
        files (w_db w') = files (w_db w) ++ [models.mkFile newID filePath ts])
    /\ store_wf (w_db w').
Proof.
  intros Hwf (_ & _ & Hpair) Hseq Hlen Hio newID.
  pose proof (fresh_id _ Hwf) as Hfresh.
  assert (exists w', db.UpdateFileEmbedding env fileID filePath (Some v) w = (Ok tt, w'))
    as [w' Hrun].
  { pose proof (Hio 0%nat ltac:(lia)) as H0. pose proof (Hio 1%nat ltac:(lia)) as H1.
    pose proof (Hio 2%nat ltac:(lia)) as H2. pose proof (Hio 3%nat ltac:(lia)) as H3.
    pose proof (Hio 4%nat ltac:(lia)) as H4. pose proof (Hio 5%nat ltac:(lia)) as H5.
    simpl in H0, H1, H2, H3, H4, H5.
    unfold db.UpdateFileEmbedding. run_monad. cbv zeta.
    rewrite H0. simpl. rewrite H1. simpl. rewrite H2. simpl. rewrite H3. simpl.
    destruct (db.max_int64 <=? sqlite_sequence (w_db w)) eqn:Hfull;
      [apply Z.leb_le in Hfull; lia|]. simpl. rewrite H4. simpl.
    rewrite length_map, Hlen, Nat.eqb_refl. simpl.
    rewrite bool_decide_eq_false_2.
    2:{ intros Hin. apply list_elem_of_fmap in Hin as (x & Hx & Hin).
        apply list_elem_of_filter in Hin as [_ Hin].
        apply Hfresh, Hpair. unfold vector_ids. apply list_elem_of_fmap.
        exists x. split; [exact Hx|exact Hin]. }
    simpl. rewrite H5. simpl. eexists. reflexivity. }
  exists w'. apply UpdateFileEmbedding_Ok in Hrun as Hok.
  destruct Hok as (v' & ts & _ & Hdb). exists ts. rewrite Hdb. simpl.
  split; [exact Hrun|]. split; [reflexivity|]. split; [exact Hfresh|]. split; [|split].
  - intros Hin. split; [intros Heq; apply Hfresh; fold newID; rewrite Heq; exact Hin|].
    rewrite length_app. simpl. rewrite Nat.add_1_r.
    apply filter_present_id; [apply Hwf|exact Hin].
  - intros Hout. rewrite filter_absent_id by exact Hout. reflexivity.
  - apply store_wf_replace, Hwf.
Qed.

(** An id that no row has. *)
Lemma UpdateFileEmbedding_replaces_witness :
  exists w' ts,
    db.UpdateFileEmbedding env_ok 9 "/e" (Some [0.5; 0.25]%float) demo_world = (Ok tt, w')
    /\ files (w_db w')
       = filter (fun f => models.ID f ≠ 9) (files demo_store) ++ [models.mkFile 4 "/e" ts]
    /\ (4 ∉ file_ids demo_store)
    /\ (9 ∈ file_ids demo_store ->
        4 <> 9 /\ length (files (w_db w')) = length (files demo_store))
    /\ (9 ∉ file_ids demo_store ->
        files (w_db w') = files demo_store ++ [models.mkFile 4 "/e" ts])
    /\ store_wf (w_db w').
Proof.
  apply (UpdateFileEmbedding_replaces env_ok 9 "/e" [0.5; 0.25]%float demo_world).
  - split; [apply (bool_decide_unpack _); vm_compute; exact I|].
    repeat constructor; vm_compute; discriminate.
  - split; [apply (bool_decide_unpack _); vm_compute; exact I|].
    split; [apply (bool_decide_unpack _); vm_compute; exact I|].
    intros id. change (id ∈ [1; 2; 3] <-> id ∈ [1; 2; 3]). tauto.
  - reflexivity.
  - reflexivity.
  - intros k _. reflexivity.
Defined.

(** X10: after a successful [DeleteFileAndVector] no file row and no
    vector carries [fileID], every other row and vector is kept in
    order, and nothing else changes; for an id that neither table holds
    the tables stay exactly as they are, so deleting twice is deleting
    once. *)
Theorem DeleteFileAndVector_removes env fileID w w' :
  db.DeleteFileAndVector env fileID w = (Ok tt, w') ->
  (fileID ∉ file_ids (w_db w')) /\ (fileID ∉ vector_ids (w_db w'))
  /\ (forall id, id <> fileID ->
        (id ∈ file_ids (w_db w') <-> id ∈ file_ids (w_db w))
        /\ (id ∈ vector_ids (w_db w') <-> id ∈ vector_ids (w_db w)))
  /\ files (w_db w') `sublist_of` files (w_db w)
  /\ context_vectors (w_db w') `sublist_of` context_vectors (w_db w)
  /\ (fileID ∉ file_ids (w_db w) -> fileID ∉ vector_ids (w_db w) -> w_db w' = w_db w)
  /\ forall env' w1 w2,
       w_db w1 = w_db w' ->
       db.DeleteFileAndVector env' fileID w1 = (Ok tt, w2) -> w_db w2 = w_db w'.
Proof.
  intros H. apply DeleteFileAndVector_Ok in H.
  assert (fileID ∉ file_ids (w_db w')) as Hf.
  { rewrite H. unfold file_ids. simpl. rewrite file_ids_filter_elem. tauto. }
  assert (fileID ∉ vector_ids (w_db w')) as Hv.
  { rewrite H. unfold vector_ids. simpl. rewrite vector_ids_filter_elem. tauto. }
  split; [exact Hf|]. split; [exact Hv|]. split; [|split; [|split; [|split]]].
  - intros id Hid. rewrite H. unfold file_ids, vector_ids. simpl.
    rewrite file_ids_filter_elem, vector_ids_filter_elem. tauto.
  - rewrite H. apply sublist_filter.
  - rewrite H. apply sublist_filter.
  - intros Hnf Hnv. rewrite H.
    rewrite filter_absent_id by exact Hnf. rewrite filter_absent_rowid by exact Hnv.
    destruct (w_db w). reflexivity.
  - intros env' w1 w2 Hw1 H2. apply DeleteFileAndVector_Ok in H2. rewrite H2, Hw1.
    rewrite filter_absent_id by exact Hf. rewrite filter_absent_rowid by exact Hv.
    destruct (w_db w'). reflexivity.
Qed.

Lemma DeleteFileAndVector_removes_witness :
  (2 ∉ file_ids (w_db (db.DeleteFileAndVector env_ok 2 demo_world).2))
  /\ (2 ∉ vector_ids (w_db (db.DeleteFileAndVector env_ok 2 demo_world).2)).
Proof.
  pose proof (DeleteFileAndVector_removes env_ok 2 demo_world
                (db.DeleteFileAndVector env_ok 2 demo_world).2) as H.
  split; apply H; vm_compute; reflexivity.
Defined.

Lemma DeleteVectorData_Ok env w w' :
  db.DeleteVectorData env w = (Ok tt, w') ->
  w_db w' = mkStore [] [] (sqlite_sequence (w_db w)) (dimensions (w_db w))
                    (projects (w_db w))
  /\ w_log w' = w_log w /\ w_calls w' = w_calls w.
Proof.
  unfold db.DeleteVectorData, db.sql_delete_all_files, db.sql_delete_all_vectors.
  run_monad. intros H. split_cases. repeat split.
Qed.

(** X11: a successful [DeleteVectorData] empties both tables and keeps
    the projects and the id counter, so ids are not handed out again: the
    first [SaveFileEmbedding] after it gets an id that no row had before
    the tables were emptied, and the store then holds that one row with
    its one vector. *)
Theorem DeleteVectorData_keeps_counter env env' file emb w w1 w1' id w2 :
  store_wf (w_db w) ->
  db.DeleteVectorData env w = (Ok tt, w1) ->
  w_db w1' = w_db w1 ->
  db.SaveFileEmbedding env' file emb w1' = (Ok id, w2) ->
  files (w_db w1) = [] /\ context_vectors (w_db w1) = []
  /\ projects (w_db w1) = projects (w_db w)
  /\ id = sqlite_sequence (w_db w) + 1
  /\ Forall (fun old => old < id) (file_ids (w_db w))
  /\ file_ids (w_db w2) = [id] /\ vector_ids (w_db w2) = [id].
Proof.
  intros [_ Hle] Hdel Hsame Hsave.
  apply DeleteVectorData_Ok in Hdel as (Hdb & _ & _).
  apply SaveFileEmbedding_Ok in Hsave as (v & -> & -> & Hdb2 & _).
  unfold file_ids, vector_ids. rewrite Hdb2, Hsame, Hdb. simpl.
  repeat split; try reflexivity.
  eapply Forall_impl; [exact Hle|]. simpl. intros; lia.
Qed.

Lemma DeleteVectorData_keeps_counter_witness :
  files (w_db (db.DeleteVectorData env_ok demo_world).2) = []
  /\ context_vectors (w_db (db.DeleteVectorData env_ok demo_world).2) = []
  /\ projects (w_db (db.DeleteVectorData env_ok demo_world).2) = projects (w_db demo_world)
  /\ 4 = sqlite_sequence (w_db demo_world) + 1
  /\ Forall (fun old => old < 4) (file_ids (w_db demo_world))
  /\ file_ids (w_db (db.SaveFileEmbedding env_ok "/a" (Some [0.5; 0.25]%float)
                       (db.DeleteVectorData env_ok demo_world).2).2) = [4]
  /\ vector_ids (w_db (db.SaveFileEmbedding env_ok "/a" (Some [0.5; 0.25]%float)
                         (db.DeleteVectorData env_ok demo_world).2).2) = [4].
Proof.
  apply (DeleteVectorData_keeps_counter env_ok env_ok "/a" (Some [0.5; 0.25]%float)
           demo_world (db.DeleteVectorData env_ok demo_world).2
           (db.DeleteVectorData env_ok demo_world).2).
  - split; [apply (bool_decide_unpack _); vm_compute; exact I|].
    repeat constructor; vm_compute; discriminate.
  - vm_compute. reflexivity.
  - reflexivity.
  - vm_compute. reflexivity.
Defined.

(** X12: [DeleteVectorData] runs its two statements outside a
    transaction: when the first succeeds and the second fails, the error
    is returned with the file rows gone and every vector still stored. *)
Theorem DeleteVectorData_not_atomic env w :
  io_fault env (w_stmts w) = false ->
  io_fault env (S (w_stmts w)) = true ->
  exists e w',
    db.DeleteVectorData env w
    = (Err (Errorf "failed to delete from context_vectors" e), w')
    /\ files (w_db w') = []
    /\ context_vectors (w_db w') = context_vectors (w_db w).
Proof.
  intros H1 H2.
  unfold db.DeleteVectorData, db.sql_delete_all_files, db.sql_delete_all_vectors.
  run_monad. rewrite H1. simpl. rewrite H2. simpl.
  eexists _, _. repeat split.
Qed.

(** A second statement that fails. *)
Lemma DeleteVectorData_not_atomic_witness :
  exists e w',
    db.DeleteVectorData (env_fault_at 1) demo_world
    = (Err (Errorf "failed to delete from context_vectors" e), w')
    /\ files (w_db w') = []
    /\ context_vectors (w_db w') = context_vectors (w_db demo_world).
Proof.
  apply (DeleteVectorData_not_atomic (env_fault_at 1) demo_world).
  - reflexivity.
  - reflexivity.
Defined.

(** ** The projects table *)

Lemma UpsertProject_Ok env project w w' :
  db.UpsertProject env project w = (Ok tt, w') ->
  w_db w' = mkStore (files (w_db w)) (context_vectors (w_db w))
                    (sqlite_sequence (w_db w)) (dimensions (w_db w))
                    (<[models.Alias project := stored_project project]>
                       (projects (w_db w)))
  /\ w_log w' = w_log w /\ w_calls w' = w_calls w.
Proof.
  unfold db.UpsertProject. run_monad. intros H.
  destruct (io_fault env (w_stmts w)); [discriminate|].
  unfold db.sql_upsert_project in H. simpl in H. injection H as <-.
  repeat split.
Qed.

Lemma GetProjectByAlias_run env alias w :
  io_fault env (w_stmts w) = false ->
  db.GetProjectByAlias env alias w
  = (match projects (w_db w) !! alias with
     | Some project => Ok project
     | None => Err db.ErrNoRows
     end,
     mkWorld (w_db w) (S (w_stmts w)) (w_calls w) (w_log w)).
Proof.
  intros Hio. unfold db.GetProjectByAlias. run_monad. rewrite Hio.
  destruct (projects (w_db w) !! alias); reflexivity.
Qed.

(** ** The extensions column *)

Lemma Split_length s : length (strings.Split s ",") = S (commas s).
Proof.
  induction s as [|c s IH]; [reflexivity|]. simpl.
  destruct (Ascii.eqb c ","); simpl; [rewrite IH; reflexivity|].
  destruct (strings.Split s ",") as [|f fs]; [discriminate|]. exact IH.
Qed.

Lemma Split_comma_free s : commas s = 0%nat -> strings.Split s "," = [s].
Proof.
  induction s as [|c s IH]; [reflexivity|]. simpl.
  destruct (Ascii.eqb c ","); [discriminate|]. simpl. intros H.
  rewrite IH by assumption. reflexivity.
Qed.

Lemma Split_field e s :
  commas e = 0%nat ->
  strings.Split (e +:+ String "," s) "," = e :: strings.Split s ",".
Proof.
  induction e as [|c e IH]; [reflexivity|]. simpl.
  destruct (Ascii.eqb c ","); [discriminate|]. simpl. intros H.
  change (String.app e (String "," s)) with (e +:+ String "," s).
  rewrite IH by assumption. reflexivity.
Qed.

Lemma commas_app a b : commas (a +:+ b) = (commas a + commas b)%nat.
Proof.
  induction a as [|c a IH]; [reflexivity|]. simpl.
  change (String.app a b) with (a +:+ b). rewrite IH. lia.
Qed.

Lemma Join_cons e f rest :
  strings.Join (e :: f :: rest) "," = e +:+ String "," (strings.Join (f :: rest) ",").
Proof. reflexivity. Qed.

Lemma Split_Join l :
  l <> [] -> comma_free l -> strings.Split (strings.Join l ",") "," = l.
Proof.
  unfold comma_free. induction l as [|e l IH]; [congruence|]. intros _ Hfree.
  apply Forall_cons in Hfree as [He Hl]. destruct l as [|f rest].
  - simpl. apply Split_comma_free, He.
  - rewrite Join_cons, Split_field by exact He. f_equal. apply IH; [discriminate|exact Hl].
Qed.

Lemma commas_Join l :
  (commas (strings.Join l ",") + 1 = length l + sum_list (commas <$> l))%nat \/ l = [].
Proof.
  induction l as [|e l IH]; [right; reflexivity|left].
  destruct l as [|f rest].
  - simpl. lia.
  - rewrite Join_cons, commas_app. simpl commas.
    destruct IH as [IH|IH]; [|discriminate]. rewrite !fmap_cons in *. simpl in *. lia.
Qed.

Lemma Join_empty l :
  strings.Join l "," = EmptyString <-> l = [] \/ l = [EmptyString].
Proof.
  split.
  - destruct l as [|e [|f rest]]; [auto|simpl; intros ->; auto|].
    rewrite Join_cons. destruct e; discriminate.
  - intros [->| ->]; reflexivity.
Qed.

Lemma sum_list_zero (l : list nat) : sum_list l = 0%nat -> Forall (fun n => n = 0%nat) l.
Proof.
  induction l as [|n l IH]; simpl; intros H; constructor; [lia|apply IH; lia].
Qed.

(** X13: the extensions of a project survive the trip through the
    [extensions] column, joined with commas by [UpsertProject] and split
    again by [GetProjectByAlias], exactly when no extension holds a comma
    and the list is not the single empty extension; that list is read
    back as no extension at all. *)
Theorem extensions_column_round_trip extensions :
  (column_extensions (extensions_column extensions) = extensions
   <-> comma_free extensions /\ extensions <> [EmptyString])
  /\ column_extensions (extensions_column [EmptyString]) = [].
Proof.
  split; [|reflexivity]. unfold column_extensions, extensions_column. split.
  - intros Hrt. destruct (bool_decide_reflect (strings.Join extensions "," = EmptyString))
      as [Hempty|Hfull].
    + apply Join_empty in Hempty as [->| ->]; [|discriminate].
      split; [constructor|discriminate].
    + split; [|intros ->; apply Hfull; reflexivity].
      pose proof (Split_length (strings.Join extensions ",")) as Hlen.
      rewrite Hrt in Hlen.
      destruct (commas_Join extensions) as [Hc| ->]; [|constructor].
      assert (sum_list (commas <$> extensions) = 0%nat) as Hsum by lia.
      apply sum_list_zero in Hsum. unfold comma_free.
      rewrite Forall_fmap in Hsum. exact Hsum.
  - intros [Hfree Hne].
    destruct (bool_decide_reflect (strings.Join extensions "," = EmptyString))
      as [Hempty|Hfull].
    + apply Join_empty in Hempty as [->| ->]; [reflexivity|congruence].
    + apply Split_Join; [|exact Hfree]. intros ->. apply Hfull. reflexivity.
Qed.

Lemma extensions_column_round_trip_witness :
  column_extensions (extensions_column ["go"; "py"]) = ["go"; "py"].
Proof.
  apply (proj1 (extensions_column_round_trip ["go"; "py"])).
  split; [repeat constructor|discriminate].
Defined.

(** X14: what [GetProjectByAlias] reads for an alias after a
    successful [UpsertProject] is the project just stored, with its
    extensions as they come back from the column, whatever was stored
    under the alias before: the project itself when its extensions
    survive the column, and a project of no extension when it was stored
    with the single empty extension.  The rows of the other aliases and
    both file tables are as they were. *)
Theorem UpsertProject_round_trip env env' project w w1 w1' :
  db.UpsertProject env project w = (Ok tt, w1) ->
  w_db w1' = w_db w1 ->
  io_fault env' (w_stmts w1') = false ->
  (db.GetProjectByAlias env' (models.Alias project) w1').1 = Ok (stored_project project)
  /\ (column_extensions (extensions_column (models.Extensions project))
      = models.Extensions project ->
      (db.GetProjectByAlias env' (models.Alias project) w1').1 = Ok project)
  /\ (models.Extensions project = [EmptyString] ->
      (db.GetProjectByAlias env' (models.Alias project) w1').1
      = Ok (models.mkProject (models.Alias project) (models.Path project)
              (models.Client project) (models.ProjectModel project) []))
  /\ (forall alias, alias <> models.Alias project ->
        (db.GetProjectByAlias env' alias w1').1
        = match projects (w_db w) !! alias with
          | Some other => Ok other
          | None => Err db.ErrNoRows
          end)
  /\ files (w_db w1) = files (w_db w)
  /\ context_vectors (w_db w1) = context_vectors (w_db w).
Proof.
  intros Hup Hsame Hio. apply UpsertProject_Ok in Hup as (Hdb & _ & _).
  assert ((db.GetProjectByAlias env' (models.Alias project) w1').1
          = Ok (stored_project project)) as Hget.
  { rewrite GetProjectByAlias_run by exact Hio. simpl.
    rewrite Hsame, Hdb. simpl. rewrite lookup_insert_eq. reflexivity. }
  split; [exact Hget|]. split; [|split; [|split]].
  - intros Hsurvives. rewrite Hget. unfold stored_project. rewrite Hsurvives.
    destruct project. reflexivity.
  - intros Hempty. rewrite Hget. unfold stored_project. rewrite Hempty. reflexivity.
  - intros alias Hne. rewrite GetProjectByAlias_run by exact Hio. simpl.
    rewrite Hsame, Hdb. simpl. rewrite lookup_insert_ne by congruence. reflexivity.
  - rewrite Hdb. split; reflexivity.
Qed.

Lemma UpsertProject_round_trip_witness :
  (db.GetProjectByAlias env_ok "demo"
     (db.UpsertProject env_ok (models.mkProject "demo" "/p" "ollama" "demo-model"
                                 [EmptyString]) fresh_world).2).1
  = Ok (models.mkProject "demo" "/p" "ollama" "demo-model" []).
Proof.
  refine (proj1 (proj2 (proj2
           (UpsertProject_round_trip env_ok env_ok
              (models.mkProject "demo" "/p" "ollama" "demo-model" [EmptyString])
              fresh_world
              (db.UpsertProject env_ok (models.mkProject "demo" "/p" "ollama" "demo-model"
                                          [EmptyString]) fresh_world).2
              (db.UpsertProject env_ok (models.mkProject "demo" "/p" "ollama" "demo-model"
                                          [EmptyString]) fresh_world).2
              _ _ _))) _).
  - vm_compute. reflexivity.
  - reflexivity.
  - reflexivity.
  - reflexivity.
Defined.

(** X15: when the database of an alias opens ([SetupDatabase] returns
    nil) and its projects table has no row for the alias,
    [GetProjectByAlias] returns [sql.ErrNoRows] itself, not wrapped;
    [RunSync] then stops with that error wrapped and [search.Run] with
    its own [project with alias ... not found].  After the database was
    opened that one query is all that happens: no row changes, the tree
    is not walked, the provider is not called and no line is logged. *)
Theorem unknown_alias env alias query w w1 :
  db.SetupDatabase env alias 0 w = (Ok tt, w1) ->
  projects (w_db w1) !! alias = None ->
  io_fault env (w_stmts w1) = false ->
  let after := mkWorld (w_db w1) (S (w_stmts w1)) (w_calls w1) (w_log w1) in
  db.GetProjectByAlias env alias w1 = (Err db.ErrNoRows, after)
  /\ sync.RunSync env alias w
     = (Err (Errorf ("failed to get project config for alias '" +:+ alias +:+ "'")
               db.ErrNoRows), after)
  /\ search.Run env (search.mkConfig alias query) w
     = (Err (errors_New ("project with alias '" +:+ alias +:+ "' not found")), after).
Proof.
  intros Hsetup Hnone Hio after.
  assert (db.GetProjectByAlias env alias w1 = (Err db.ErrNoRows, after)) as Hget.
  { rewrite GetProjectByAlias_run by exact Hio. rewrite Hnone. reflexivity. }
  split; [exact Hget|].
  unfold sync.RunSync, search.Run, bind, wrap_err. simpl search.ProjectAlias.
  rewrite Hsetup, Hget.
  destruct (decide (db.ErrNoRows = db.ErrNoRows)) as [_|Hne]; [|congruence].
  split; reflexivity.
Qed.

Lemma unknown_alias_witness :
  let after := mkWorld demo_store 4 0 [] in
  db.GetProjectByAlias env_ok "nowhere" (mkWorld demo_store 3 0 [])
  = (Err db.ErrNoRows, after)
  /\ sync.RunSync env_ok "nowhere" demo_world
     = (Err (Errorf ("failed to get project config for alias '" +:+ "nowhere" +:+ "'")
               db.ErrNoRows), after)
  /\ search.Run env_ok (search.mkConfig "nowhere" "query") demo_world
     = (Err (errors_New ("project with alias '" +:+ "nowhere" +:+ "' not found")), after).
Proof.
  apply (unknown_alias env_ok "nowhere" "query" demo_world (mkWorld demo_store 3 0 [])).
  - vm_compute. reflexivity.
  - vm_compute. reflexivity.
  - reflexivity.
Defined.

(** ** The two queries of the sync *)

Lemma created_before_total : Total db.created_before.
Proof. intros a b. unfold db.created_before. lia. Qed.

Lemma created_before_trans : Transitive db.created_before.
Proof. intros a b c. unfold db.created_before. lia. Qed.

(** X16: without an engine failure [GetFilesToSync] returns every row of
    [files] exactly once, oldest first; it changes no row. *)
Theorem GetFilesToSync_oldest_first env w :
  io_fault env (w_stmts w) = false ->
  exists recs w',
    db.GetFilesToSync env w = (Ok recs, w')
    /\ recs ≡ₚ files (w_db w)
    /\ StronglySorted db.created_before recs
    /\ w_db w' = w_db w.
Proof.
  intros Hio. unfold db.GetFilesToSync. run_monad. rewrite Hio. simpl.
  eexists _, _. split; [reflexivity|]. split; [|split; [|reflexivity]].
  - apply merge_sort_Permutation.
  - apply StronglySorted_merge_sort; [exact created_before_trans|exact created_before_total].
Qed.

Lemma GetFilesToSync_oldest_first_witness :
  exists recs w',
    db.GetFilesToSync env_ok (mkWorld seeded_store 0 0 []) = (Ok recs, w')
    /\ recs ≡ₚ files seeded_store
    /\ StronglySorted db.created_before recs
    /\ w_db w' = seeded_store.
Proof.
  apply (GetFilesToSync_oldest_first env_ok (mkWorld seeded_store 0 0 [])).
  reflexivity.
Defined.

(** X17: without an engine failure [GetProjectFilePaths] returns a map
    that reads [true] exactly at the paths some row of [files] holds and
    [false] at every other key; it changes no row. *)
Theorem GetProjectFilePaths_lookup env w :
  io_fault env (w_stmts w) = false ->
  exists filePaths w',
    db.GetProjectFilePaths env w = (Ok filePaths, w')
    /\ (forall path, sync.has filePaths path = true <-> path ∈ paths (w_db w))
    /\ (forall path, path ∉ paths (w_db w) -> sync.has filePaths path = false)
    /\ w_db w' = w_db w.
Proof.
  intros Hio. unfold db.GetProjectFilePaths. run_monad. rewrite Hio. simpl.
  eexists _, _. split; [reflexivity|]. split; [|split; [|reflexivity]].
  - intros path. apply has_stored_paths.
  - intros path Hout.
    destruct (sync.has _ path) eqn:Hhas; [|reflexivity].
    exfalso. apply Hout. apply has_stored_paths in Hhas. exact Hhas.
Qed.

Lemma GetProjectFilePaths_lookup_witness :
  exists filePaths w',
    db.GetProjectFilePaths env_ok demo_world = (Ok filePaths, w')
    /\ (forall path, sync.has filePaths path = true <-> path ∈ paths (w_db demo_world))
    /\ (forall path, path ∉ paths (w_db demo_world) -> sync.has filePaths path = false)
    /\ w_db w' = w_db demo_world.
Proof.
  apply (GetProjectFilePaths_lookup env_ok demo_world). reflexivity.
Defined.

(** ** The width of the vectors *)

Lemma vectors_wide_filter s id fs seq ps :
  vectors_wide s ->
  vectors_wide (mkStore fs (filter (fun v => v.1 ≠ id) (context_vectors s)) seq
                        (dimensions s) ps).
Proof.
  unfold vectors_wide. simpl. intros H. rewrite Forall_forall in H |- *.
  intros v Hv. apply list_elem_of_filter in Hv as [_ Hv]. apply H, Hv.
Qed.

Lemma SaveFileEmbedding_wide env file emb w r w' :
  db.SaveFileEmbedding env file emb w = (r, w') ->
  vectors_wide (w_db w) -> vectors_wide (w_db w').
Proof.
  unfold db.SaveFileEmbedding, vectors_wide. run_monad. intros H Hw.
  split_cases; try exact Hw.
  apply Forall_app. split; [exact Hw|]. constructor; [|constructor]. simpl.
  match goal with H : negb _ = false |- _ => apply negb_false_iff, Nat.eqb_eq in H end.
  assumption.
Qed.

Lemma UpdateFileEmbedding_wide env fileID filePath emb w r w' :
  db.UpdateFileEmbedding env fileID filePath emb w = (r, w') ->
  vectors_wide (w_db w) -> vectors_wide (w_db w').
Proof.
  unfold db.UpdateFileEmbedding, vectors_wide. run_monad. intros H Hw.
  split_cases; try exact Hw.
  apply Forall_app. split.
  - rewrite Forall_forall in Hw |- *. intros v Hv.
    apply list_elem_of_filter in Hv as [_ Hv]. apply Hw, Hv.
  - constructor; [|constructor]. simpl.
    match goal with H : negb _ = false |- _ => apply negb_false_iff, Nat.eqb_eq in H end.
    assumption.
Qed.

Lemma DeleteFileAndVector_wide env fileID w r w' :
  db.DeleteFileAndVector env fileID w = (r, w') ->
  vectors_wide (w_db w) -> vectors_wide (w_db w').
Proof.
  unfold db.DeleteFileAndVector, vectors_wide. run_monad. intros H Hw.
  split_cases; try exact Hw.
  rewrite Forall_forall in Hw |- *. intros v Hv.
  apply list_elem_of_filter in Hv as [_ Hv]. apply Hw, Hv.
Qed.

(** X18: the store never holds a vector of another width than the one
    its vector table was created with: whatever [SaveFileEmbedding],
    [UpdateFileEmbedding], [DeleteFileAndVector] and [DeleteVectorData]
    return, every vector stored afterwards has the table's width if every
    vector stored before had it. *)
Theorem vector_width_is_kept env file fileID emb w :
  vectors_wide (w_db w) ->
  vectors_wide (w_db (db.SaveFileEmbedding env file emb w).2)
  /\ vectors_wide (w_db (db.UpdateFileEmbedding env fileID file emb w).2)
  /\ vectors_wide (w_db (db.DeleteFileAndVector env fileID w).2)
  /\ vectors_wide (w_db (db.DeleteVectorData env w).2).
Proof.
  intros Hw. split; [|split; [|split]].
  - destruct (db.SaveFileEmbedding env file emb w) as [r w'] eqn:H.
    eapply SaveFileEmbedding_wide; eassumption.
  - destruct (db.UpdateFileEmbedding env fileID file emb w) as [r w'] eqn:H.
    eapply UpdateFileEmbedding_wide; eassumption.
  - destruct (db.DeleteFileAndVector env fileID w) as [r w'] eqn:H.
    eapply DeleteFileAndVector_wide; eassumption.
  - unfold db.DeleteVectorData, db.sql_delete_all_files, db.sql_delete_all_vectors,
      vectors_wide in *.
    run_monad. split_cases; try exact Hw; constructor.
Qed.

Lemma vector_width_is_kept_witness :
  vectors_wide (w_db (db.SaveFileEmbedding env_wide "/e" (Some [0.5; 0.25; 0.125]%float)
                        demo_world).2)
  /\ vectors_wide (w_db (db.UpdateFileEmbedding env_wide 2 "/e"
                           (Some [0.5; 0.25; 0.125]%float) demo_world).2)
  /\ vectors_wide (w_db (db.DeleteFileAndVector env_wide 2 demo_world).2)
  /\ vectors_wide (w_db (db.DeleteVectorData env_wide demo_world).2).
Proof.
  apply (vector_width_is_kept env_wide "/e" 2 (Some [0.5; 0.25; 0.125]%float) demo_world).
  repeat constructor.
Defined.

(** * Properties of a whole sync *)

Lemma SaveFileEmbedding_sound env file emb w id w' :
  db.SaveFileEmbedding env file emb w = (Ok id, w') -> sound (w_db w) -> sound (w_db w').
Proof.
  intros H (Hwf & Hp & Hw). split; [|split].
  - pose proof H as H'. apply SaveFileEmbedding_Ok in H' as (v & _ & Hid & -> & _).
    apply store_wf_append; assumption.
  - eapply SaveFileEmbedding_Ok_paired; eassumption.
  - eapply SaveFileEmbedding_wide; eassumption.
Qed.

Lemma UpdateFileEmbedding_sound env fileID filePath emb w w' :
  db.UpdateFileEmbedding env fileID filePath emb w = (Ok tt, w') ->
  sound (w_db w) -> sound (w_db w').
Proof.
  intros H (Hwf & Hp & Hw). split; [|split].
  - pose proof H as H'. apply UpdateFileEmbedding_Ok in H' as (v & ts & _ & ->).
    apply store_wf_replace, Hwf.
  - eapply UpdateFileEmbedding_paired; eassumption.
  - eapply UpdateFileEmbedding_wide; eassumption.
Qed.

Lemma DeleteFileAndVector_sound env fileID w w' :
  db.DeleteFileAndVector env fileID w = (Ok tt, w') ->
  sound (w_db w) -> sound (w_db w').
Proof.
  intros H (Hwf & Hp & Hw). split; [|split].
  - pose proof H as H'. apply DeleteFileAndVector_Ok in H'. rewrite H'.
    apply store_wf_remove, Hwf.
  - eapply DeleteFileAndVector_paired; eassumption.
  - eapply DeleteFileAndVector_wide; eassumption.
Qed.

Lemma sound_same_tables s s' : s' = s -> sound s -> sound s'.
Proof. intros ->. auto. Qed.

Lemma sync_new_files_sound env cfg ex localFiles : forall w w',
  sync.sync_new_files env cfg ex localFiles w = (Ok tt, w') ->
  sound (w_db w) -> sound (w_db w').
Proof.
  induction localFiles as [|f rest IH]; intros w w' H Hs.
  - cbn in H. injection H as <-. exact Hs.
  - apply sync_new_files_cons_Ok in H as (w1 & lines & Hrest & _ & Hstep).
    apply (IH _ _ Hrest).
    destruct Hstep as [Hdb|(w0 & emb & id & Hdb & Hsave & _)].
    + rewrite Hdb. exact Hs.
    + eapply SaveFileEmbedding_sound; [exact Hsave|]. rewrite Hdb. exact Hs.
Qed.

Lemma sync_existing_files_sound env cfg lp recs : forall w w',
  sync.sync_existing_files env cfg lp recs w = (Ok tt, w') ->
  sound (w_db w) -> sound (w_db w').
Proof.
  induction recs as [|r rest IH]; intros w w' H Hs.
  - cbn in H. injection H as <-. exact Hs.
  - apply sync_existing_files_cons_Ok in H as (w1 & lines & Hrest & _ & Hstep).
    apply (IH _ _ Hrest).
    destruct Hstep
      as [(_ & _ & [Hdb|(w0 & emb & Hdb & Hupd)])|(_ & _ & w0 & Hdb & Hdel)].
    + rewrite Hdb. exact Hs.
    + eapply UpdateFileEmbedding_sound; [exact Hupd|]. rewrite Hdb. exact Hs.
    + eapply DeleteFileAndVector_sound; [exact Hdel|]. rewrite Hdb. exact Hs.
Qed.

(** X19: a sync that completes leaves the store in order if it found it
    so: ids still a key below the counter, one vector for every file row
    and one file row for every vector, every vector of the table's
    width; and the projects table is untouched. *)
Theorem RunSync_keeps_the_store_sound env alias w w' :
  sound (w_db w) ->
  sync.RunSync env alias w = (Ok tt, w') ->
  sound (w_db w') /\ projects (w_db w') = projects (w_db w).
Proof.
  intros Hs H. split.
  - apply RunSync_Ok in H
      as (project & localFiles & ex & wa & wb & wc & _ & _ & Hdba & _ & _ & Hnew
          & Hdbc & _ & Hold).
    apply (sync_existing_files_sound _ _ _ _ _ _ Hold). rewrite Hdbc.
    apply (sync_new_files_sound _ _ _ _ _ _ Hnew). rewrite Hdba. exact Hs.
  - apply RunSync_paths in H; [tauto|apply Hs].
Qed.

Lemma RunSync_keeps_the_store_sound_witness :
  sound (w_db (sync.RunSync env_ok "demo" demo_world).2)
  /\ projects (w_db (sync.RunSync env_ok "demo" demo_world).2)
     = projects (w_db demo_world).
Proof.
  apply (RunSync_keeps_the_store_sound env_ok "demo" demo_world).
  - split; [|split].
    + split; [apply (bool_decide_unpack _); vm_compute; exact I|].
      repeat constructor; vm_compute; discriminate.
    + unfold paired. replace (file_ids (w_db demo_world)) with [1; 2; 3] by reflexivity.
      replace (vector_ids (w_db demo_world)) with [1; 2; 3] by reflexivity.
      split; [|split; [|reflexivity]]; apply (bool_decide_unpack _); vm_compute; exact I.
    + repeat constructor.
  - vm_compute. reflexivity.
Defined.

Lemma sync_new_files_cons_account env cfg ex f rest w w' :
  sync.sync_new_files env cfg ex (f :: rest) w = (Ok tt, w') ->
  exists w1 lines,
    sync.sync_new_files env cfg ex rest w1 = (Ok tt, w')
    /\ w_log w1 = w_log w ++ lines
    /\ (sync.has ex (sync.TrimPrefix f (sync.ProjectPath cfg)) = true
        \/ (exists err, read_error f err ∈ lines \/ embed_error f err ∈ lines)
        \/ sync.TrimPrefix f (sync.ProjectPath cfg) ∈ paths (w_db w1)).
Proof.
  cbn [sync.sync_new_files].
  destruct (sync.has ex (sync.TrimPrefix f (sync.ProjectPath cfg))) eqn:Hnew.
  { intros H. exists w, []. rewrite app_nil_r. auto. }
  change (negb false) with true. cbv beta iota.
  unfold sync.log_Printf. run_monad. intros H.
  destruct (os_ReadFile env f) as [err|content].
  { eexists _, _. split; [exact H|]. simpl. split; [rewrite <- app_assoc; reflexivity|].
    right. left. exists err. left. apply elem_of_cons. right.
    apply list_elem_of_singleton. reflexivity. }
  destruct (client.Embeddings _ _ _ _ _) as [[res|err|msg] w1] eqn:Hembed;
    [| |discriminate].
  - destruct (db.SaveFileEmbedding _ _ _ _) as [[id|e|msg] w2] eqn:Hsave;
      [|discriminate|discriminate].
    apply Embeddings_db in Hembed as (Hdb & Hlog & _). simpl in Hdb, Hlog.
    exists w2, [adding cfg f]. split; [exact H|].
    split; [rewrite (SaveFileEmbedding_log _ _ _ _ _ _ Hsave); exact Hlog|].
    right. right. apply SaveFileEmbedding_Ok in Hsave as (v & _ & _ & Hdb2 & _).
    unfold paths. rewrite Hdb2. simpl. rewrite fmap_app. apply elem_of_app. right.
    apply list_elem_of_singleton. reflexivity.
  - apply Embeddings_db in Hembed as (Hdb & Hlog & _). simpl in Hdb, Hlog.
    eexists _, _. split; [exact H|]. simpl.
    split; [rewrite Hlog, <- app_assoc; reflexivity|].
    right. left. exists err. right. apply elem_of_cons. right.
    apply list_elem_of_singleton. reflexivity.
Qed.

Lemma sync_new_files_account env cfg ex localFiles : forall w w',
  sync.sync_new_files env cfg ex localFiles w = (Ok tt, w') ->
  exists lines,
    w_log w' = w_log w ++ lines
    /\ forall f, f ∈ localFiles ->
         sync.has ex (sync.TrimPrefix f (sync.ProjectPath cfg)) = true
         \/ (exists err, read_error f err ∈ lines \/ embed_error f err ∈ lines)
         \/ sync.TrimPrefix f (sync.ProjectPath cfg) ∈ paths (w_db w').
Proof.
  induction localFiles as [|f rest IH]; intros w w' H.
  - exists []. cbn in H. injection H as <-. rewrite app_nil_r. split; [reflexivity|].
    intros f Hf. inversion Hf.
  - apply sync_new_files_cons_account in H as (w1 & lines1 & Hrest & Hlog1 & Hstep).
    pose proof (sync_new_files_Ok _ _ _ _ _ _ Hrest) as (_ & _ & Hkeep & _).
    apply IH in Hrest as (lines2 & Hlog2 & Hall).
    exists (lines1 ++ lines2). split; [rewrite Hlog2, Hlog1, app_assoc; reflexivity|].
    intros g Hg. apply elem_of_cons in Hg as [->|Hg].
    + destruct Hstep as [Hhas|[(err & Herr)|Hin]]; [auto| |auto].
      right. left. exists err. rewrite !elem_of_app. tauto.
    + destruct (Hall g Hg) as [Hhas|[(err & Herr)|Hin]]; [auto| |auto].
      right. left. exists err. rewrite !elem_of_app. tauto.
Qed.

(** X20: a sync that completes accounts for every local file: the paths
    stored afterwards are relative paths of local files, and each local
    file is stored afterwards or an error line naming it (its content
    could not be read, or its provider call failed) was logged by this
    sync.  So a sync that logs no such line stores exactly the local
    files. *)
Theorem RunSync_accounts_for_every_file env alias w w' project localFiles :
  store_wf (w_db w) ->
  sync.RunSync env alias w = (Ok tt, w') ->
  projects (w_db w) !! alias = Some project ->
  file_RecursiveFiles env (models.Path project) (models.Extensions project)
  = inr localFiles ->
  exists lines,
    w_log w' = w_log w ++ lines
    /\ (forall p, p ∈ paths (w_db w') -> p ∈ relative_paths (models.Path project) localFiles)
    /\ (forall f, f ∈ localFiles ->
          sync.TrimPrefix f (models.Path project) ∈ paths (w_db w')
          \/ exists err, read_error f err ∈ lines \/ embed_error f err ∈ lines).
Proof.
  intros Hwf H Hproject Hwalk.
  pose proof (RunSync_paths _ _ _ _ H Hwf) as (_ & _ & Hlocal & _).
  rewrite (local_set_project env _ alias project localFiles Hproject Hwalk) in Hlocal.
  apply RunSync_Ok in H
    as (project' & localFiles' & ex & wa & wb & wc & Hp & Hwalk' & Hdba & Hloga & Hex
        & Hnew & Hdbc & Hlogc & Hold).
  assert (project' = project) as -> by congruence.
  assert (localFiles' = localFiles) as -> by congruence.
  pose proof (sync_new_files_Ok _ _ _ _ _ _ Hnew) as (Hwf1 & _ & Hkeep1 & _).
  rewrite Hdba in *. specialize (Hwf1 Hwf).
  apply sync_new_files_account in Hnew as (lines1 & Hlog1 & Hall).
  pose proof (sync_existing_files_log _ _ _ _ _ _ Hold) as (lines2 & Hlog2 & _).
  apply sync_existing_files_Ok in Hold as (_ & _ & _ & Hkeep2).
  - exists (["Processing new files"] ++ lines1 ++ ["Processing existing files"] ++ lines2).
    split; [rewrite Hlog2, Hlogc, Hlog1, Hloga, <- !app_assoc; reflexivity|].
    split; [exact Hlocal|]. intros f Hf.
    assert (sync.has (sync.local_paths (config_of project) localFiles)
              (sync.TrimPrefix f (models.Path project)) = true) as Hhas.
    { apply has_local_paths. unfold config_of. simpl.
      apply list_elem_of_fmap. exists f. auto. }
    destruct (Hall f Hf) as [Hold'|[(err & Herr)|Hin]].
    + left. apply Hkeep2; [exact Hhas|]. rewrite Hdbc. apply Hkeep1, Hex, Hold'.
    + right. exists err. rewrite !elem_of_app. tauto.
    + left. apply Hkeep2; [exact Hhas|]. rewrite Hdbc. exact Hin.
  - rewrite Hdbc. exact Hwf1.
  - rewrite Hdbc. destruct Hwf1 as [_ Hle]. unfold file_ids in Hle.
    rewrite Forall_fmap in Hle. rewrite merge_sort_Permutation. exact Hle.
  - intros row r Hrow Hr Hid. rewrite merge_sort_Permutation in Hr.
    rewrite Hdbc in Hrow. exact (file_id_unique _ _ _ Hwf1 Hrow Hr Hid).
Qed.

Lemma RunSync_accounts_for_every_file_witness :
  exists lines,
    w_log (sync.RunSync env_flaky "demo" empty_world).2 = w_log empty_world ++ lines
    /\ (forall p, p ∈ paths (w_db (sync.RunSync env_flaky "demo" empty_world).2) ->
          p ∈ relative_paths (models.Path demo_project) ["/p/a"])
    /\ (forall f, f ∈ ["/p/a"] ->
          sync.TrimPrefix f (models.Path demo_project)
            ∈ paths (w_db (sync.RunSync env_flaky "demo" empty_world).2)
          \/ exists err, read_error f err ∈ lines \/ embed_error f err ∈ lines).
Proof.
  apply (RunSync_accounts_for_every_file env_flaky "demo" empty_world
           (sync.RunSync env_flaky "demo" empty_world).2 demo_project ["/p/a"]).
  - split; constructor.
  - vm_compute. reflexivity.
  - vm_compute. reflexivity.
  - reflexivity.
Defined.

(** * Properties of the build *)

Lemma process_files_cons_Ok env cfg f rest w w' :
  sync.process_files env cfg (f :: rest) w = (Ok tt, w') ->
  exists w1 lines,
    sync.process_files env cfg rest w1 = (Ok tt, w')
    /\ w_log w1 = w_log w ++ lines
    /\ ((w_db w1 = w_db w
         /\ exists err, read_error f err ∈ lines \/ embed_error f err ∈ lines)
        \/ exists w0 emb id,
             w_db w0 = w_db w
             /\ db.SaveFileEmbedding env (sync.TrimPrefix f (sync.ProjectPath cfg)) emb w0
                = (Ok id, w1)).
Proof.
  cbn [sync.process_files]. unfold sync.log_Printf. run_monad. intros H.
  destruct (os_ReadFile env f) as [err|content].
  { eexists _, _. split; [exact H|]. simpl. split; [reflexivity|].
    left. split; [reflexivity|]. exists err. left.
    apply list_elem_of_singleton. reflexivity. }
  destruct (client.Embeddings _ _ _ _ _) as [[res|err|msg] w1] eqn:Hembed;
    [| |discriminate].
  - destruct (db.SaveFileEmbedding _ _ _ _) as [[id|e|msg] w2] eqn:Hsave;
      [|discriminate|discriminate].
    apply Embeddings_db in Hembed as (Hdb & Hlog & _). simpl in Hdb, Hlog.
    eexists w2, _. split; [exact H|].
    split; [rewrite (SaveFileEmbedding_log _ _ _ _ _ _ Hsave); exact Hlog|].
    right. exists w1, (models.GetEmbeddings res), id. auto.
  - apply Embeddings_db in Hembed as (Hdb & Hlog & _). simpl in Hdb, Hlog.
    eexists _, _. split; [exact H|]. simpl.
    split; [rewrite Hlog, <- app_assoc; reflexivity|].
    left. split; [exact Hdb|]. exists err. right. apply elem_of_cons. right.
    apply list_elem_of_singleton. reflexivity.
Qed.

Lemma process_files_Ok env cfg seq0 files : forall w w',
  sync.process_files env cfg files w = (Ok tt, w') ->
  (sound (w_db w) -> sound (w_db w'))
  /\ projects (w_db w') = projects (w_db w)
  /\ (seq0 <= sqlite_sequence (w_db w) ->
      Forall (fun id => seq0 < id) (file_ids (w_db w)) ->
      Forall (fun id => seq0 < id) (file_ids (w_db w')))
  /\ exists added lines,
       paths (w_db w') = paths (w_db w) ++ added
       /\ added `sublist_of` relative_paths (sync.ProjectPath cfg) files
       /\ w_log w' = w_log w ++ lines
       /\ forall f, f ∈ files ->
            sync.TrimPrefix f (sync.ProjectPath cfg) ∈ added
            \/ exists err, read_error f err ∈ lines \/ embed_error f err ∈ lines.
Proof.
  induction files as [|f rest IH]; intros w w' H.
  - cbn in H. injection H as <-. split; [auto|]. split; [reflexivity|]. split; [auto|].
    exists [], []. rewrite !app_nil_r. split; [reflexivity|]. split; [constructor|].
    split; [reflexivity|]. intros f Hf. inversion Hf.
  - apply process_files_cons_Ok in H as (w1 & lines1 & Hrest & Hlog1 & Hstep).
    apply IH in Hrest as (Hsound & Hproj & Hids & added & lines2 & Hpaths & Hsub & Hlog2 & Hall).
    unfold relative_paths in *. rewrite fmap_cons.
    destruct Hstep as [(Hdb & err & Herr)|(w0 & emb & id & Hdb & Hsave)].
    + rewrite Hdb in *. split; [exact Hsound|]. split; [exact Hproj|]. split; [exact Hids|].
      exists added, (lines1 ++ lines2). split; [exact Hpaths|].
      split; [apply sublist_cons, Hsub|].
      split; [rewrite Hlog2, Hlog1, app_assoc; reflexivity|].
      intros g Hg. apply elem_of_cons in Hg as [->|Hg].
      * right. exists err. rewrite !elem_of_app. tauto.
      * destruct (Hall g Hg) as [Hin|(err' & Herr')]; [auto|].
        right. exists err'. rewrite !elem_of_app. tauto.
    + pose proof Hsave as Hsave'.
      apply SaveFileEmbedding_Ok in Hsave' as (v & _ & Hid & Hdb1 & _).
      rewrite Hdb in Hdb1, Hid.
      split; [|split; [|split]].
      * intros Hs. apply Hsound. eapply SaveFileEmbedding_sound; [exact Hsave|].
        rewrite Hdb. exact Hs.
      * rewrite Hproj, Hdb1. reflexivity.
      * intros Hle Hall0. apply Hids.
        -- rewrite Hdb1. simpl. lia.
        -- unfold file_ids. rewrite Hdb1. simpl. rewrite fmap_app.
           apply Forall_app. split; [exact Hall0|]. constructor; [simpl; lia|constructor].
      * exists (sync.TrimPrefix f (sync.ProjectPath cfg) :: added), (lines1 ++ lines2).
        split.
        { rewrite Hpaths. unfold paths. rewrite Hdb1. simpl.
          rewrite fmap_app, <- app_assoc. reflexivity. }
        split; [apply sublist_skip, Hsub|].
        split; [rewrite Hlog2, Hlog1, app_assoc; reflexivity|].
        intros g Hg. apply elem_of_cons in Hg as [->|Hg].
        -- left. apply elem_of_cons. auto.
        -- destruct (Hall g Hg) as [Hin|(err' & Herr')].
           ++ left. apply elem_of_cons. auto.
           ++ right. exists err'. rewrite !elem_of_app. tauto.
Qed.

Lemma emptied_store_sound seq dims ps : sound (mkStore [] [] seq dims ps).
Proof.
  split; [|split].
  - split; constructor.
  - split; [constructor|]. split; [constructor|]. intros id. reflexivity.
  - constructor.
Qed.

(** X21: a build that completes leaves a store in order whatever it
    found (rows without vectors, vectors without rows): the rows it
    holds are rows this build inserted, for local files in the order of
    the walk, under ids above every id handed out before; the project is
    stored under its alias, with its extensions as they come back from
    the column; and every local file is stored or an error line naming
    it was logged. *)
Theorem Run_rebuilds env config w w' localFiles :
  sync.Run env config w = (Ok tt, w') ->
  file_RecursiveFiles env (sync.ProjectPath config) (sync.Extensions config)
  = inr localFiles ->
  sound (w_db w')
  /\ projects (w_db w')
     = <[sync.ProjectAlias config :=
           models.mkProject (sync.ProjectAlias config) (sync.ProjectPath config)
             (sync.ClientName config) (sync.ModelName config)
             (column_extensions (extensions_column (sync.Extensions config)))]>
         (projects (w_db w))
  /\ paths (w_db w') `sublist_of` relative_paths (sync.ProjectPath config) localFiles
  /\ Forall (fun id => sqlite_sequence (w_db w) < id) (file_ids (w_db w'))
  /\ exists lines,
       w_log w' = w_log w ++ lines
       /\ forall f, f ∈ localFiles ->
            sync.TrimPrefix f (sync.ProjectPath config) ∈ paths (w_db w')
            \/ exists err, read_error f err ∈ lines \/ embed_error f err ∈ lines.
Proof.
  unfold sync.Run. intros H Hwalk.
  apply bind_Ok_inv in H as (res & w1 & Hprobe & H).
  apply wrap_err_Ok_inv, Embeddings_db in Hprobe as (Hdb1 & Hlog1 & _).
  apply bind_Ok_inv in H as (floats & w2 & Hfloats & H).
  unfold lift in Hfloats. injection Hfloats as _ <-.
  destruct (db.len floats =? 0); [discriminate|].
  apply bind_Ok_inv in H as ([] & w3 & Hsetup & H).
  apply wrap_err_Ok_inv, SetupDatabase_Ok in Hsetup as [Hdb3 Hlog3].
  apply bind_Ok_inv in H as ([] & w4 & Hupsert & H).
  apply wrap_err_Ok_inv, UpsertProject_Ok in Hupsert as (Hdb4 & Hlog4 & _).
  apply bind_Ok_inv in H as ([] & w5 & Hdelete & H).
  apply wrap_err_Ok_inv, DeleteVectorData_Ok in Hdelete as (Hdb5 & Hlog5 & _).
  apply wrap_err_Ok_inv in H. unfold sync.processProjectFiles in H.
  apply bind_Ok_inv in H as ([] & w6 & Hline & H).
  unfold sync.log_Printf in Hline. injection Hline as <-.
  apply bind_Ok_inv in H as (files & w7 & Hfiles & H).
  apply wrap_err_Ok_inv in Hfiles. unfold lift in Hfiles. rewrite Hwalk in Hfiles.
  simpl in Hfiles. injection Hfiles as <- <-.
  apply bind_Ok_inv in H as ([] & w8 & Hline & H).
  unfold sync.log_Printf in Hline. injection Hline as <-.
  apply (process_files_Ok env config (sqlite_sequence (w_db w))) in H
    as (Hsound & Hproj & Hids & added & lines & Hpaths & Hsub & Hlog & Hall).
  simpl in *. rewrite Hdb5 in *. rewrite Hdb4 in *. rewrite Hdb3 in *. rewrite Hdb1 in *.
  simpl in *.
  split; [apply Hsound, emptied_store_sound|]. split; [exact Hproj|].
  split; [rewrite Hpaths; exact Hsub|].
  split; [apply Hids; [lia|unfold file_ids; simpl; constructor]|].
  eexists. split.
  - rewrite Hlog, Hlog5, Hlog4, Hlog3, Hlog1, <- !app_assoc. reflexivity.
  - intros f Hf. rewrite Hpaths. destruct (Hall f Hf) as [Hin|(err & Herr)]; [auto|].
    right. exists err. rewrite !elem_of_app. tauto.
Qed.

Lemma Run_rebuilds_witness :
  sound (w_db (sync.Run env_ok (config_of demo_project) demo_world).2)
  /\ projects (w_db (sync.Run env_ok (config_of demo_project) demo_world).2)
     = <["demo" := models.mkProject "demo" "/p" "ollama" "demo-model"
                     (column_extensions (extensions_column ["go"]))]>
         (projects (w_db demo_world))
  /\ paths (w_db (sync.Run env_ok (config_of demo_project) demo_world).2)
       `sublist_of` relative_paths "/p" ["/p/a"; "/p/b"; "/p/c"]
  /\ Forall (fun id => sqlite_sequence (w_db demo_world) < id)
       (file_ids (w_db (sync.Run env_ok (config_of demo_project) demo_world).2))
  /\ exists lines,
       w_log (sync.Run env_ok (config_of demo_project) demo_world).2
       = w_log demo_world ++ lines
       /\ forall f, f ∈ ["/p/a"; "/p/b"; "/p/c"] ->
            sync.TrimPrefix f "/p"
              ∈ paths (w_db (sync.Run env_ok (config_of demo_project) demo_world).2)
            \/ exists err, read_error f err ∈ lines \/ embed_error f err ∈ lines.
Proof.
  apply (Run_rebuilds env_ok (config_of demo_project) demo_world
           (sync.Run env_ok (config_of demo_project) demo_world).2
           ["/p/a"; "/p/b"; "/p/c"]).
  - vm_compute. reflexivity.
  - reflexivity.
Defined.

(** X22: the build asks the provider for the embedding of ["1"] before
    it opens the database.  With a client name that is not supported it
    fails without a provider call; when the call fails it returns that
    error wrapped; when the answer holds an embedding of no component it
    returns [received empty embedding dimensions]; when the answer holds
    no embedding it panics.  In none of these cases is a statement
    issued, a row changed or a line logged. *)
Theorem Run_probe env config w :
  (client.endpoint (sync.ClientName config) = None ->
   sync.Run env config w
   = (Err (Errorf "error generating embedding for dimensions"
             (errors_New ("unsupported client: " +:+ sync.ClientName config))), w))
  /\ (forall path,
        client.endpoint (sync.ClientName config) = Some path ->
        match http_post env (w_calls w) path (probe config) with
        | inl err =>
            sync.Run env config w
            = (Err (Errorf "error generating embedding for dimensions" err), exchanged w)
        | inr res =>
            match models.GetEmbeddings res with
            | None =>
                sync.Run env config w
                = (Panic "invalid memory address or nil pointer dereference", exchanged w)
            | Some [] =>
                sync.Run env config w
                = (Err (errors_New "received empty embedding dimensions"), exchanged w)
            | Some (_ :: _) => True
            end
        end).
Proof.
  unfold sync.Run, client.Embeddings, probe, exchanged. run_monad. split.
  - intros Hnone. rewrite Hnone. reflexivity.
  - intros path Hpath. rewrite Hpath.
    destruct (decide ("1" = EmptyString)) as [Hempty|_]; [discriminate|].
    destruct (http_post env _ _ _) as [err|res]; [reflexivity|].
    destruct (models.GetEmbeddings res) as [[|x v]|]; [reflexivity|exact I|reflexivity].
Qed.

Lemma Run_probe_witness :
  sync.Run env_ok (sync.mkConfig "demo" "/p" "openai" "demo-model" ["go"]) demo_world
  = (Err (Errorf "error generating embedding for dimensions"
            (errors_New ("unsupported client: " +:+ "openai"))), demo_world).
Proof.
  apply (proj1 (Run_probe env_ok (sync.mkConfig "demo" "/p" "openai" "demo-model" ["go"])
                  demo_world)).
  reflexivity.
Defined.

(** * Properties of the argument parsing *)

(** X23: [ParseConfig] of the build fails when there are fewer than two
    arguments, and when the path is [.] and the working directory cannot
    be read, however many arguments follow; in every other case it
    succeeds.  The alias is the first argument; the path is the second,
    or the working directory when the second is [.]; the client and the
    model are the third and the fourth argument when there are four or
    more and the argument is not empty, and litellm and
    codesearch-embedding otherwise (a third argument alone changes
    nothing); the extensions are the fields of the fifth argument, or
    the eleven defaults without one.  Arguments after the fifth are
    ignored. *)
Theorem ParseConfig_arguments os_Getwd (args : list string) :
  ((length args < 2)%nat ->
   sync.ParseConfig os_Getwd args
   = Err (errors_New "at least 2 arguments required (alias, path)"))
  /\ (forall alias rest err,
        args = alias :: "." :: rest -> os_Getwd = inl err ->
        sync.ParseConfig os_Getwd args
        = Err (Errorf "failed to get current working directory" err))
  /\ (forall alias rest dir,
        args = alias :: "." :: rest -> os_Getwd = inr dir ->
        sync.ParseConfig os_Getwd args
        = Ok (sync.mkConfig alias dir (parsed_client rest) (parsed_model rest)
                (parsed_extensions rest)))
  /\ (forall alias path rest,
        args = alias :: path :: rest -> path <> "." ->
        sync.ParseConfig os_Getwd args
        = Ok (sync.mkConfig alias path (parsed_client rest) (parsed_model rest)
                (parsed_extensions rest)))
  /\ (forall alias path,
        args = [alias; path] \/ (exists third, args = [alias; path; third]) ->
        path <> "." ->
        sync.ParseConfig os_Getwd args = Ok (default_config alias path)).
Proof.
  assert (forall alias path rest,
            path <> "." ->
            sync.ParseConfig os_Getwd (alias :: path :: rest)
            = Ok (sync.mkConfig alias path (parsed_client rest) (parsed_model rest)
                    (parsed_extensions rest))) as Hplain.
  { intros alias path rest Hpath. unfold sync.ParseConfig. simpl.
    destruct (decide (path = ".")) as [|_]; [contradiction|].
    destruct rest as [|clientName [|model [|fifth rest]]]; simpl; try reflexivity;
      destruct (decide (clientName = EmptyString)) as [->|Hc];
      destruct (decide (model = EmptyString)) as [->|Hm]; simpl;
      rewrite ?bool_decide_eq_false_2 by assumption; reflexivity. }
  split; [|split; [|split; [|split]]].
  - intros Hlen. unfold sync.ParseConfig.
    destruct (length args <? 2)%nat eqn:H; [reflexivity|]. apply Nat.ltb_ge in H. lia.
  - intros alias rest err -> ->. reflexivity.
  - intros alias rest dir -> ->. unfold sync.ParseConfig. simpl.
    destruct rest as [|clientName [|model [|fifth rest]]]; simpl; try reflexivity;
      destruct (decide (clientName = EmptyString)) as [->|Hc];
      destruct (decide (model = EmptyString)) as [->|Hm]; simpl;
      rewrite ?bool_decide_eq_false_2 by assumption; reflexivity.
  - intros alias path rest -> Hpath. apply Hplain, Hpath.
  - intros alias path [->|[third ->]] Hpath; rewrite Hplain by exact Hpath; reflexivity.
Qed.

(** [codesearch build myproject . ollama jazzcort/nomic-embed-code-Q6_K:latest] *)
Lemma ParseConfig_arguments_witness :
  sync.ParseConfig (inr "/home/me")
    ["myproject"; "."; "ollama"; "jazzcort/nomic-embed-code-Q6_K:latest"]
  = Ok (sync.mkConfig "myproject" "/home/me" "ollama"
          "jazzcort/nomic-embed-code-Q6_K:latest" default_extensions).
Proof.
  apply (proj1 (proj2 (proj2
          (ParseConfig_arguments (inr "/home/me")
             ["myproject"; "."; "ollama"; "jazzcort/nomic-embed-code-Q6_K:latest"])))
          "myproject" ["ollama"; "jazzcort/nomic-embed-code-Q6_K:latest"] "/home/me").
  - reflexivity.
  - reflexivity.
Defined.

(** X24: with five arguments or more the extensions are the fields of
    the fifth argument between its commas, one more than it has commas,
    so never none; an empty fifth argument gives the single empty
    extension, which the [extensions] column hands back as no extension
    at all.  With fewer arguments the extensions are the defaults. *)
Theorem ParseConfig_extensions os_Getwd (args : list string) config :
  sync.ParseConfig os_Getwd args = Ok config ->
  ((length args < 5)%nat -> sync.Extensions config = default_extensions)
  /\ ((5 <= length args)%nat ->
      sync.Extensions config = strings.Split (nth 4 args EmptyString) ","
      /\ length (sync.Extensions config) = S (commas (nth 4 args EmptyString))
      /\ (nth 4 args EmptyString = EmptyString ->
          sync.Extensions config = [EmptyString]
          /\ column_extensions (extensions_column (sync.Extensions config)) = [])).
Proof.
  unfold sync.ParseConfig. intros H.
  destruct (length args <? 2)%nat; [discriminate|].
  assert (sync.Extensions config
          = if (5 <=? length args)%nat then strings.Split (nth 4 args EmptyString) ","
            else default_extensions) as Hext.
  { repeat (case_match; simplify_eq/=); reflexivity. }
  clear H. split.
  - intros Hlen. rewrite Hext.
    destruct (5 <=? length args)%nat eqn:H5; [apply Nat.leb_le in H5; lia|reflexivity].
  - intros Hlen. rewrite Hext.
    destruct (5 <=? length args)%nat eqn:H5; [|apply Nat.leb_gt in H5; lia].
    split; [reflexivity|]. split; [apply Split_length|].
    intros ->. split; reflexivity.
Qed.

Lemma ParseConfig_extensions_witness :
  ((length ["demo"; "/p"; "ollama"; "demo-model"; "go,py"] < 5)%nat ->
   ["go"; "py"] = default_extensions)
  /\ ((5 <= length ["demo"; "/p"; "ollama"; "demo-model"; "go,py"])%nat ->
      ["go"; "py"] = strings.Split (nth 4 ["demo"; "/p"; "ollama"; "demo-model"; "go,py"]
                                     EmptyString) ","
      /\ length ["go"; "py"]
         = S (commas (nth 4 ["demo"; "/p"; "ollama"; "demo-model"; "go,py"] EmptyString))
      /\ (nth 4 ["demo"; "/p"; "ollama"; "demo-model"; "go,py"] EmptyString = EmptyString ->
          ["go"; "py"] = [EmptyString]
          /\ column_extensions (extensions_column ["go"; "py"]) = [])).
Proof.
  apply (ParseConfig_extensions (inr "/home/me")
           ["demo"; "/p"; "ollama"; "demo-model"; "go,py"]
           (sync.mkConfig "demo" "/p" "ollama" "demo-model" ["go"; "py"])).
  reflexivity.
Defined.

(** * Properties of the walk *)

Lemma matches_elem ext normalizedExts :
  file.matches ext normalizedExts = true <-> ext ∈ normalizedExts.
Proof.
  induction normalizedExts as [|e rest IH]; simpl.
  - split; [discriminate|intros H; inversion H].
  - rewrite elem_of_cons. destruct (String.eqb_spec ext e) as [->|Hne].
    + tauto.
    + rewrite IH. split; [auto|]. intros [H|H]; [contradiction|exact H].
Qed.

Lemma walk_fn_spec tree normalizedExts files v w :
  file.walk_fn tree normalizedExts files v w
  = (Ok (files ++ (if decide (kept tree normalizedExts v) then [visit_path v] else [])),
     logged w (match access_error v with Some line => [line] | None => [] end)).
Proof.
  assert (logged w [] = w) as Hw by (destruct w; unfold logged; simpl; rewrite app_nil_r; reflexivity).
  destruct v as [filePath err|filePath name isDir]; simpl.
  - rewrite app_nil_r. reflexivity.
  - rewrite Hw. destruct (decide _) as [(-> & Hname & Hext)|Hno].
    + rewrite Hname. destruct normalizedExts as [|e rest]; [reflexivity|].
      destruct Hext as [Hnil|Hin]; [discriminate|].
      apply matches_elem in Hin. cbn [length Nat.ltb Nat.leb]. rewrite Hin. reflexivity.
    + rewrite app_nil_r. destruct isDir; [reflexivity|].
      destruct (strings.HasPrefix name ".") eqn:Hname; [reflexivity|].
      destruct normalizedExts as [|e rest]; [exfalso; apply Hno; auto|].
      cbn [length Nat.ltb Nat.leb].
      destruct (file.matches _ _) eqn:Hm; [|reflexivity].
      exfalso. apply Hno. apply matches_elem in Hm. auto.
Qed.

Lemma walk_spec tree normalizedExts visits : forall files w,
  file.walk tree normalizedExts files visits w
  = (Ok (files ++ (visit_path <$> filter (kept tree normalizedExts) visits)),
     logged w (omap access_error visits)).
Proof.
  induction visits as [|v rest IH]; intros files w; simpl.
  - rewrite app_nil_r. destruct w. unfold logged, ret. simpl. rewrite app_nil_r. reflexivity.
  - unfold bind. rewrite walk_fn_spec, IH, filter_cons.
    f_equal.
    + destruct (decide _); simpl; rewrite <- ?app_assoc; simpl; rewrite ?app_nil_r; reflexivity.
    + unfold logged. simpl. rewrite <- app_assoc.
      destruct (access_error v); reflexivity.
Qed.

Lemma RecursiveFiles_spec tree path extensions w :
  file.RecursiveFiles tree path extensions w
  = (Ok (visit_path <$> filter (kept tree (file.normalize tree <$> extensions))
                          (file.filepath_Walk tree path).1,
         (file.filepath_Walk tree path).2),
     logged w (omap access_error (file.filepath_Walk tree path).1)).
Proof.
  unfold file.RecursiveFiles. destruct (file.filepath_Walk tree path) as [vs err].
  unfold bind, ret. rewrite walk_spec. reflexivity.
Qed.

(** X25: [RecursiveFiles] never fails by itself: it returns the error of
    the walk next to the files.  A path is returned exactly when the walk
    visited it as a regular file whose name does not start with a dot
    and, when extensions are given, whose lowered extension is one of
    the normalized ones; the paths come in the order of the walk, once
    per visit even when an extension is listed twice.  One line is
    logged for every path the walk could not access, and nothing else
    changes. *)
Theorem RecursiveFiles_selects tree path extensions w :
  let visits := (file.filepath_Walk tree path).1 in
  exists files,
    file.RecursiveFiles tree path extensions w
    = (Ok (files, (file.filepath_Walk tree path).2), logged w (omap access_error visits))
    /\ files = visit_path <$> filter (kept tree (file.normalize tree <$> extensions)) visits
    /\ files `sublist_of` visit_path <$> visits
    /\ forall p,
         p ∈ files
         <-> exists name,
               file.Found p name false ∈ visits
               /\ strings.HasPrefix name "." = false
               /\ (extensions = []
                   \/ file.strings_ToLower tree (filepath.Ext p)
                        ∈ file.normalize tree <$> extensions).
Proof.
  intros visits. rewrite RecursiveFiles_spec. fold visits.
  eexists. split; [reflexivity|]. split; [reflexivity|].
  split; [apply fmap_sublist, sublist_filter|].
  intros p. rewrite list_elem_of_fmap. split.
  - intros (v & -> & Hv). apply list_elem_of_filter in Hv as [Hk Hv].
    destruct v as [q err|q name isDir]; simpl in Hk; [contradiction|].
    destruct Hk as (-> & Hname & Hext). exists name. split; [exact Hv|].
    split; [exact Hname|]. destruct Hext as [Hnil|Hin]; [|auto].
    left. apply fmap_nil_inv in Hnil. exact Hnil.
  - intros (name & Hv & Hname & Hext). exists (file.Found p name false).
    split; [reflexivity|]. apply list_elem_of_filter. split; [|exact Hv].
    simpl. split; [reflexivity|]. split; [exact Hname|].
    destruct Hext as [->|Hin]; auto.
Qed.

(** X26: an extension may be given with or without its leading dot: for
    an extension that [strings.TrimSpace] leaves as it is, in both
    forms, the walk returns the same files.  The empty extension is kept
    as it is, so the list of the single empty extension does not select
    every file, as the empty list does, but of those only the files
    whose lowered extension is empty. *)
Theorem RecursiveFiles_extension_forms tree path w :
  (forall e,
     file.strings_TrimSpace tree e = e ->
     file.strings_TrimSpace tree ("." +:+ e) = "." +:+ e ->
     e <> EmptyString -> strings.HasPrefix e "." = false ->
     file.RecursiveFiles tree path [e] w = file.RecursiveFiles tree path ["." +:+ e] w)
  /\ (file.strings_TrimSpace tree EmptyString = EmptyString ->
      file.strings_ToLower tree EmptyString = EmptyString ->
      exists every none err w',
        file.RecursiveFiles tree path [] w = (Ok (every, err), w')
        /\ file.RecursiveFiles tree path [EmptyString] w = (Ok (none, err), w')
        /\ none = filter (fun p => file.strings_ToLower tree (filepath.Ext p) = EmptyString)
                    every).
Proof.
  split.
  - intros e He Hdot Hne Hprefix. rewrite !RecursiveFiles_spec.
    assert (file.normalize tree e = file.normalize tree ("." +:+ e)) as Hnorm.
    { assert (strings.HasPrefix ("." +:+ e) "." = true) as Hdotted
        by (destruct e; reflexivity).
      unfold file.normalize. rewrite He, Hdot, Hprefix, Hdotted.
      rewrite bool_decide_eq_false_2 by exact Hne.
      rewrite bool_decide_eq_false_2 by discriminate. reflexivity. }
    simpl. rewrite Hnorm. reflexivity.
  - intros Htrim Hlower. rewrite !RecursiveFiles_spec.
    eexists _, _, _, _. split; [reflexivity|]. split; [reflexivity|].
    assert (file.normalize tree EmptyString = EmptyString) as Hnorm.
    { unfold file.normalize. rewrite Htrim. simpl. exact Hlower. }
    simpl. rewrite Hnorm.
    induction (file.filepath_Walk tree path).1 as [|v vs IH]; [reflexivity|].
    rewrite !filter_cons.
    destruct (decide (kept tree [EmptyString] v)) as [Hk|Hk];
      destruct (decide (kept tree [] v)) as [Hk0|Hk0]; simpl.
    + rewrite filter_cons. destruct v as [q err|q name isDir]; [contradiction|].
      simpl in Hk. destruct Hk as (_ & _ & [Hnil|Hin]); [discriminate|].
      apply list_elem_of_singleton in Hin. simpl.
      destruct (decide _) as [_|Hno]; [|contradiction]. f_equal. exact IH.
    + exfalso. apply Hk0. destruct v as [q err|q name isDir]; [contradiction|].
      simpl in *. tauto.
    + rewrite filter_cons. destruct v as [q err|q name isDir]; [contradiction|].
      simpl. destruct (decide _) as [Heq|_]; [|exact IH].
      exfalso. apply Hk. simpl in *. destruct Hk0 as (Hd & Hn & _).
      split; [exact Hd|]. split; [exact Hn|]. right. apply list_elem_of_singleton, Heq.
    + exact IH.
Qed.

Lemma RecursiveFiles_selects_witness :
  exists files,
    file.RecursiveFiles sample_tree "/p" ["go"; ".PY"; "go"] fresh_world
    = (Ok (files, None),
       logged fresh_world ["Error accessing path /p/locked: permission denied"])
    /\ files = ["/p/Main.GO"; "/p/lib.py"].
Proof.
  destruct (RecursiveFiles_selects sample_tree "/p" ["go"; ".PY"; "go"] fresh_world)
    as (files & Hrun & Hfiles & _).
  exists files. split; [exact Hrun|]. rewrite Hfiles. vm_compute. reflexivity.
Defined.

Lemma RecursiveFiles_extension_forms_witness :
  file.RecursiveFiles sample_tree "/p" ["go"] fresh_world
  = file.RecursiveFiles sample_tree "/p" [".go"] fresh_world.
Proof.
  apply (proj1 (RecursiveFiles_extension_forms sample_tree "/p" fresh_world) "go").
  - reflexivity.
  - reflexivity.
  - discriminate.
  - reflexivity.
Defined.

(** * Relative paths *)

Lemma strip_prefix_app prefix s : sync.strip_prefix prefix (prefix +:+ s) = Some s.
Proof.
  induction prefix as [|c prefix IH]; [reflexivity|]. simpl.
  rewrite Ascii.eqb_refl. exact IH.
Qed.

Lemma strip_prefix_Some prefix : forall s rest,
  sync.strip_prefix prefix s = Some rest -> s = prefix +:+ rest.
Proof.
  induction prefix as [|c prefix IH]; intros s rest H.
  - simpl in H. injection H as <-. reflexivity.
  - destruct s as [|d s]; [discriminate|]. simpl in H.
    destruct (Ascii.eqb_spec c d) as [->|Hne]; [|discriminate].
    change (String d prefix +:+ rest) with (String d (prefix +:+ rest)).
    f_equal. apply IH, H.
Qed.

Lemma HasPrefix_strip prefix : forall s,
  strings.HasPrefix s prefix = true <-> exists rest, sync.strip_prefix prefix s = Some rest.
Proof.
  induction prefix as [|c prefix IH]; intros s.
  - split; [simpl; eauto|intros _; destruct s; reflexivity].
  - destruct s as [|d s]; simpl.
    + split; [discriminate|intros (rest & H); discriminate].
    + destruct (Ascii.eqb c d); simpl; [apply IH|].
      split; [discriminate|intros (rest & H); discriminate].
Qed.

(** X27: the path stored for a local file is the file's path without the
    project path in front: [TrimPrefix] undoes the prepending of the
    project path, and gives back what prepending needs to rebuild the
    file's path; a path that does not start with the project path is
    stored as it is.  So local files under the project path that differ
    are stored under paths that differ. *)
Theorem relative_paths_are_distinct root :
  (forall rest, sync.TrimPrefix (root +:+ rest) root = rest)
  /\ (forall f, strings.HasPrefix f root = true -> root +:+ sync.TrimPrefix f root = f)
  /\ (forall f, strings.HasPrefix f root = false -> sync.TrimPrefix f root = f)
  /\ (forall localFiles,
        Forall (fun f => strings.HasPrefix f root = true) localFiles ->
        NoDup localFiles -> NoDup (relative_paths root localFiles)).
Proof.
  assert (forall f, strings.HasPrefix f root = true -> root +:+ sync.TrimPrefix f root = f)
    as Hback.
  { intros f Hf. apply HasPrefix_strip in Hf as (rest & Hrest).
    unfold sync.TrimPrefix. rewrite Hrest. symmetry. apply strip_prefix_Some, Hrest. }
  split; [|split; [exact Hback|split]].
  - intros rest. unfold sync.TrimPrefix. rewrite strip_prefix_app. reflexivity.
  - intros f Hf. unfold sync.TrimPrefix.
    destruct (sync.strip_prefix root f) as [rest|] eqn:Hrest; [|reflexivity].
    assert (strings.HasPrefix f root = true) as Hyes by (apply HasPrefix_strip; eauto).
    congruence.
  - intros localFiles Hunder Hnd. unfold relative_paths.
    induction Hnd as [|f l Hf Hnd IH]; [constructor|].
    apply Forall_cons in Hunder as [Hfroot Hunder]. rewrite fmap_cons.
    apply NoDup_cons. split; [|apply IH, Hunder].
    intros Hin. apply list_elem_of_fmap in Hin as (g & Heq & Hg). apply Hf.
    rewrite Forall_forall in Hunder.
    rewrite <- (Hback f Hfroot), Heq, (Hback g (Hunder g Hg)). exact Hg.
Qed.

Lemma relative_paths_are_distinct_witness :
  NoDup (relative_paths "/p" ["/p/a"; "/p/b"; "/p/c"]).
Proof.
  apply (proj2 (proj2 (proj2 (relative_paths_are_distinct "/p")))).
  - repeat constructor.
  - apply (bool_decide_unpack _). vm_compute. exact I.
Defined.

(** * The find command *)

(** X28: when the find command returns hits, the query was not empty
    and the index was asked for its hundred nearest rows; the hits are
    some of these rows, whole and in their order, each with its id and
    its file and with the similarity [1 - distance] in place of the
    distance; they are at most ten, and at least one unless the index
    gave no row at all. *)
Theorem find_returns_one_to_ten env config w out w' :
  search.Run env config w = (Ok out, w') ->
  search.Query config <> EmptyString
  /\ exists stmt emb rows kept,
       knn_query env stmt emb 100 = inr rows
       /\ kept `sublist_of` scanned_rows rows
       /\ out = map db.to_similarity kept
       /\ Z.min 1 (db.len rows) <= db.len out <= 10.
Proof.
  intros H. unfold search.Run in H.
  apply bind_Ok_inv in H as ([] & w1 & _ & H).
  apply bind_Ok_inv in H as (proj & w2 & _ & H).
  apply bind_Ok_inv in H as (embedding & w3 & Hembed & H).
  apply bind_Ok_inv in H as (floats & w4 & _ & H).
  split.
  { intros Hempty. apply wrap_err_Ok_inv in Hembed. unfold client.Embeddings in Hembed.
    rewrite Hempty in Hembed. simpl in Hembed. discriminate. }
  apply wrap_err_Ok_inv, SearchWithSimilarity_Ok in H as (rows & kept & Hrows & Hkept & ->).
  exists (w_stmts w4), floats, rows, kept. split; [exact Hrows|].
  pose proof (filterByDistance_sublist _ _ _ Hkept) as Hsub.
  destruct (filterByDistance_returns (scanned_rows rows)
              (similarity_options search.minSimilarity search.limit)) as (out & Hout & Hlen);
    [simpl; unfold search.limit; lia|].
  assert (out = kept) as -> by congruence.
  split; [exact Hsub|]. split; [reflexivity|].
  simpl in Hlen. unfold search.limit in Hlen. unfold db.len, scanned_rows in *.
  rewrite !length_map in *. lia.
Qed.

Lemma find_returns_one_to_ten_witness :
  search.Query (search.mkConfig "demo" "find me") <> EmptyString
  /\ exists stmt emb rows kept,
       knn_query env_ok stmt emb 100 = inr rows
       /\ kept `sublist_of` scanned_rows rows
       /\ map db.to_similarity (take 2 (scanned_rows
            [(1, "/b", 0.1%float); (2, "/c", 0.12%float); (4, "/a", 0.5%float)]))
          = map db.to_similarity kept
       /\ Z.min 1 (db.len rows)
          <= db.len (map db.to_similarity (take 2 (scanned_rows
               [(1, "/b", 0.1%float); (2, "/c", 0.12%float); (4, "/a", 0.5%float)])))
          <= 10.
Proof.
  apply (find_returns_one_to_ten env_ok (search.mkConfig "demo" "find me") demo_world
           (map db.to_similarity (take 2 (scanned_rows
              [(1, "/b", 0.1%float); (2, "/c", 0.12%float); (4, "/a", 0.5%float)])))
           (search.Run env_ok (search.mkConfig "demo" "find me") demo_world).2).
  vm_compute. reflexivity.
Defined.

(** X29: when the provider answers the query of the find command with a
    response that holds no embedding, the command does not return an
    error: it panics on the nil embedding, before any search statement
    is issued. *)
Theorem find_empty_response_panics env config w project path res :
  (forall n, io_fault env n = false) ->
  projects (w_db w) !! search.ProjectAlias config = Some project ->
  search.Query config <> EmptyString ->
  client.endpoint (models.Client project) = Some path ->
  http_post env (w_calls w) path
    (models.mkEmbeddingRequest (models.ProjectModel project) (search.Query config))
  = inr res ->
  models.GetEmbeddings res = None ->
  search.Run env config w
  = (Panic "invalid memory address or nil pointer dereference",
     mkWorld (w_db w) (4 + w_stmts w) (S (w_calls w)) (w_log w)).
Proof.
  intros Hio Hproject Hquery Hpath Hpost Hnil.
  unfold search.Run, db.SetupDatabase, db.InitDB, db.GetProjectByAlias, client.Embeddings.
  run_monad. cbv zeta. repeat (rewrite Hio; simpl). rewrite Hproject.
  destruct (decide (search.Query config = EmptyString)) as [|_]; [contradiction|].
  rewrite Hpath. simpl. rewrite Hpost. simpl. rewrite Hnil. reflexivity.
Qed.

Lemma find_empty_response_panics_witness :
  search.Run env_empty (search.mkConfig "demo" "find me") demo_world
  = (Panic "invalid memory address or nil pointer dereference",
     mkWorld (w_db demo_world) (4 + w_stmts demo_world) (S (w_calls demo_world))
       (w_log demo_world)).
Proof.
  apply (find_empty_response_panics env_empty (search.mkConfig "demo" "find me") demo_world
           demo_project "/api/embed" empty_response).
  - intros n. reflexivity.
  - vm_compute. reflexivity.
  - discriminate.
  - reflexivity.
  - reflexivity.
  - reflexivity.
Defined.

(** * The adaptive cutoff looks at twenty hits *)

Lemma dist_take results n i : (i < n)%nat -> db.dist (take n results) i = db.dist results i.
Proof. intros Hi. unfold db.dist. rewrite lookup_take_lt by exact Hi. reflexivity. Qed.

Lemma foldl_ext_in {A B} (f g : A -> B -> A) (l : list B) :
  (forall a b, b ∈ l -> f a b = g a b) -> forall a, foldl f a l = foldl g a l.
Proof.
  induction l as [|b l IH]; intros Hfg a; [reflexivity|]. simpl.
  rewrite Hfg by (apply elem_of_cons; auto). apply IH.
  intros a' b' Hb'. apply Hfg. apply elem_of_cons. auto.
Qed.

Lemma largest_gap_take results :
  db.largest_gap (take 20 results) = db.largest_gap results.
Proof.
  unfold db.largest_gap, db.gap_indices. rewrite length_take.
  replace (Nat.min (Nat.min 20 (length results)) 20) with (Nat.min (length results) 20)
    by lia.
  apply foldl_ext_in. intros acc i Hi. apply elem_of_seq in Hi.
  unfold db.gap_step, db.gap_at. rewrite !dist_take by lia. reflexivity.
Qed.

(** X30: the adaptive cutoff depends on the twenty closest raw hits
    only: hits from the twenty-first on change neither the largest gap
    found nor the cutoff, whatever their distances. *)
Theorem adaptive_cutoff_reads_twenty_hits results maxThreshold :
  db.calculateAdaptiveThreshold results maxThreshold
  = db.calculateAdaptiveThreshold (take 20 results) maxThreshold
  /\ forall more,
       (20 <= length results)%nat ->
       db.calculateAdaptiveThreshold (results ++ more) maxThreshold
       = db.calculateAdaptiveThreshold results maxThreshold.
Proof.
  assert (forall rs, db.calculateAdaptiveThreshold rs maxThreshold
                     = db.calculateAdaptiveThreshold (take 20 rs) maxThreshold) as Htake.
  { intros rs. rewrite !calculateAdaptiveThreshold_spec. cbv zeta.
    rewrite largest_gap_take.
    destruct (db.largest_gap rs) as [g i] eqn:Hgap. simpl.
    destruct (largest_gap_state rs) as [Hacc _]. rewrite Hgap in Hacc. simpl in Hacc.
    destruct Hacc as [[-> ->]|(Hin & _ & _)].
    - replace (0 <? 0)%nat with false by reflexivity. rewrite andb_false_r. reflexivity.
    - apply gap_indices_scanned in Hin. unfold scanned in Hin.
      rewrite dist_take by lia. reflexivity. }
  split; [apply Htake|].
  intros more Hlen. rewrite (Htake (results ++ more)), (Htake results).
  rewrite take_app_le by exact Hlen. reflexivity.
Qed.

Lemma adaptive_cutoff_reads_twenty_hits_witness :
  db.calculateAdaptiveThreshold
    (gap_example ++ gap_example ++ gap_example ++ gap_example ++ [hit 9 0.99]) 0.8
  = db.calculateAdaptiveThreshold
      (gap_example ++ gap_example ++ gap_example ++ gap_example) 0.8.
Proof.
  apply (proj2 (adaptive_cutoff_reads_twenty_hits
                  (gap_example ++ gap_example ++ gap_example ++ gap_example) 0.8)
           [hit 9 0.99]).
  simpl. lia.
Defined.

(** * The package's tests, on the model *)

(** [TestUpdateFileEmbedding]: one row and one vector before and after,
    the old id is gone and the new row has a new id. *)
Example test_UpdateFileEmbedding :
  (db.SaveFileEmbedding env_ok "/path/to/old_file.go" (Some [0; 1]%float) fresh_world).1
  = Ok 1
  /\ (bind (db.SaveFileEmbedding env_ok "/path/to/old_file.go" (Some [0; 1]%float))
        (fun fileID =>
           db.UpdateFileEmbedding env_ok fileID "/path/to/new_file.go"
             (Some [0.5; 1.5]%float))
        fresh_world).1 = Ok tt
  /\ files (w_db (bind (db.SaveFileEmbedding env_ok "/path/to/old_file.go"
                          (Some [0; 1]%float))
                    (fun fileID =>
                       db.UpdateFileEmbedding env_ok fileID "/path/to/new_file.go"
                         (Some [0.5; 1.5]%float))
                    fresh_world).2)
     = [models.mkFile 2 "/path/to/new_file.go" 105]
  /\ vector_ids (w_db (bind (db.SaveFileEmbedding env_ok "/path/to/old_file.go"
                               (Some [0; 1]%float))
                         (fun fileID =>
                            db.UpdateFileEmbedding env_ok fileID "/path/to/new_file.go"
                              (Some [0.5; 1.5]%float))
                         fresh_world).2)
     = [2].
Proof. vm_compute. repeat split. Qed.

(** [TestGetFilesToSync]: rows come back oldest first. *)
Example test_GetFilesToSync :
  (db.GetFilesToSync env_ok fresh_world).1 = Ok []
  /\ (db.GetFilesToSync env_ok (mkWorld seeded_store 0 0 [])).1
     = Ok [models.mkFile 2 "/path/to/file2.go" 9;
           models.mkFile 1 "/path/to/file1.go" 10;
           models.mkFile 3 "/path/to/file3.go" 11].
Proof. vm_compute. repeat split. Qed.

(** [TestDeleteFileAndVector]: the row and its vector go together. *)
Example test_DeleteFileAndVector :
  files (w_db (bind (db.SaveFileEmbedding env_ok "/path/to/test_file.go"
                       (Some [0; 1]%float))
                 (fun fileID => db.DeleteFileAndVector env_ok fileID) fresh_world).2) = []
  /\ context_vectors
       (w_db (bind (db.SaveFileEmbedding env_ok "/path/to/test_file.go"
                      (Some [0; 1]%float))
                (fun fileID => db.DeleteFileAndVector env_ok fileID) fresh_world).2) = [].
Proof. vm_compute. repeat split. Qed.

(** [TestGetProjectFilePaths]: one key per stored path. *)
Example test_GetProjectFilePaths :
  forall m w',
    db.GetProjectFilePaths env_ok (mkWorld seeded_store 0 0 []) = (Ok m, w') ->
    sync.has m "/path/to/file1.go" = true
    /\ sync.has m "/path/to/file2.go" = true
    /\ sync.has m "/path/to/file3.go" = true
    /\ sync.has m "/path/to/file4.go" = false.
Proof.
  intros m w' H. vm_compute in H. injection H as <- <-. vm_compute. repeat split.
Qed.
